(** * Discord MCP server: resolvers and tool dispatch

    A shallow embedding of [src/index.ts]: the four identifier resolvers
    ([findGuild], [findChannel], [findRole], [findMember]), the zod input
    schemas, and the [CallToolRequestSchema] handler with its fourteen
    tools.  The discord.js client is a collaborator: its caches are data,
    its remote calls are answer functions held in the [Client] record, and
    every remote call a function issues is written to a log. *)

From Stdlib Require Import String Ascii List Bool Arith ZArith QArith Lia.
From Stdlib Require Import Permutation Sorted DecimalString.
Import ListNotations.
Set Warnings "-register-all".
Local Close Scope Q_scope.
Local Open Scope list_scope.
Local Open Scope string_scope.

(** ** JavaScript strings

    A string is the sequence of the bytes of its UTF-8 encoding; the
    characters the code names ([#], [<], [@], [!], [>], quotes) are single
    bytes that occur in no other character.  [String.prototype.toLowerCase]
    belongs to the engine and is a parameter of the resolvers;
    [toLowerCase_ascii] is what it does on a string of ASCII characters,
    and serves to run the code on such strings. *)

Module JS.

Definition dquote : string := String "034"%char EmptyString.
Definition newline : string := String "010"%char EmptyString.

(** Template fragment [`"${s}"`]. *)
Definition quoted (s : string) : string := dquote ++ s ++ dquote.

Definition lower_ascii (c : ascii) : ascii :=
  let n := nat_of_ascii c in
  if (65 <=? n)%nat && (n <=? 90)%nat then ascii_of_nat (n + 32) else c.

Fixpoint toLowerCase_ascii (s : string) : string :=
  match s with
  | EmptyString => EmptyString
  | String c r => String (lower_ascii c) (toLowerCase_ascii r)
  end.

(** [s.replace(c, '')] with a string pattern: only the first occurrence
    is removed. *)
Fixpoint replace_first (c : ascii) (s : string) : string :=
  match s with
  | EmptyString => EmptyString
  | String a r => if Ascii.eqb a c then r else String a (replace_first c r)
  end.

(** [s.replace(/[...]/g, '')]: every character of the class is removed. *)
Fixpoint remove_all (cls : list ascii) (s : string) : string :=
  match s with
  | EmptyString => EmptyString
  | String a r =>
      if existsb (Ascii.eqb a) cls then remove_all cls r
      else String a (remove_all cls r)
  end.

(** [xs.join(sep)] *)
Fixpoint join (sep : string) (xs : list string) : string :=
  match xs with
  | [] => ""
  | [x] => x
  | x :: rest => x ++ sep ++ join sep rest
  end.

(** [`${n}`] for a non-negative integer. *)
Definition of_nat (n : nat) : string := NilZero.string_of_uint (Nat.to_uint n).

(** [collection.find(p)] *)
Definition find {A} (p : A -> bool) (xs : list A) : option A := List.find p xs.

(** [a ?? b] *)
Definition nullish {A} (a b : option A) : option A :=
  match a with Some _ => a | None => b end.

End JS.

(** ** JSON values

    Tool arguments arrive as JSON; a JSON number is a finite double, here
    the rational it denotes. *)

Inductive Json : Type :=
| JNull
| JBool (b : bool)
| JNum (q : Q)
| JStr (s : string)
| JArr (items : list Json)
| JObj (fields : list (string * Json)).

(** [o[k]]: [None] is [undefined]. *)
Fixpoint prop (k : string) (fields : list (string * Json)) : option Json :=
  match fields with
  | [] => None
  | (k', v) :: rest => if String.eqb k k' then Some v else prop k rest
  end.

(** ** Data model: what the code reads of discord.js entities *)

Inductive ChannelType : Type :=
| GuildText | DM | GuildVoice | GroupDM | GuildCategory | GuildAnnouncement
| AnnouncementThread | PublicThread | PrivateThread | GuildStageVoice
| GuildDirectory | GuildForum | GuildMedia.

Definition ChannelType_eqb (a b : ChannelType) : bool :=
  match a, b with
  | GuildText, GuildText | DM, DM | GuildVoice, GuildVoice | GroupDM, GroupDM
  | GuildCategory, GuildCategory | GuildAnnouncement, GuildAnnouncement
  | AnnouncementThread, AnnouncementThread | PublicThread, PublicThread
  | PrivateThread, PrivateThread | GuildStageVoice, GuildStageVoice
  | GuildDirectory, GuildDirectory | GuildForum, GuildForum
  | GuildMedia, GuildMedia => true
  | _, _ => false
  end.

Record Channel : Type := {
  ch_id : string;
  ch_name : string;
  ch_type : ChannelType;
  ch_guild_id : string;      (* channel.guild.id *)
  ch_guild_name : string     (* channel.guild.name *)
}.

(** [c instanceof TextChannel]: the class of [ChannelType.GuildText]. *)
Definition isTextChannel (c : Channel) : bool :=
  ChannelType_eqb (ch_type c) GuildText.

Record Role : Type := {
  role_id : string;
  role_name : string;
  role_hexColor : string;
  role_position : Z;
  role_permissions : list string;
  role_mentionable : bool
}.

Record Member : Type := {
  m_id : string;
  m_tag : string;                (* member.user.tag *)
  m_username : string;           (* member.user.username *)
  m_nickname : option string;
  m_roles : list string          (* ids in member.roles.cache *)
}.

Record Message : Type := {
  msg_id : string;
  msg_author_tag : string;
  msg_content : string;
  msg_createdAt : Z              (* milliseconds since the epoch *)
}.

Record Guild : Type := {
  g_id : string;
  g_name : string;
  g_channels : list Channel;     (* guild.channels.cache, insertion order *)
  g_roles : list Role;           (* guild.roles.cache *)
  g_members : list Member;       (* guild.members.cache *)
  g_memberCount : nat
}.

(** ** Thrown values *)

Inductive PathElem : Type := PKey (k : string) | PIndex (i : nat).

Record ZodIssue : Type := { issue_path : list PathElem; issue_message : string }.

Inductive Thrown : Type :=
| ZodError (issues : list ZodIssue)
| JsError (message : string)       (* an [Error] instance *)
| NonError.                        (* any other thrown value *)

(** What a rejected collaborator promise carries. *)
Inductive Rejection : Type :=
| RejError (message : string)      (* an [Error] instance, e.g. DiscordAPIError *)
| RejOther.

Definition thrown_of (r : Rejection) : Thrown :=
  match r with RejError m => JsError m | RejOther => NonError end.

(** Outcome of a fetch-by-id promise. *)
Inductive Fetched (A : Type) : Type :=
| Rejected (e : Rejection)
| Resolved (v : option A).         (* [None]: resolved with null *)
Arguments Rejected {A} e.
Arguments Resolved {A} v.

(** [PermissionsBitField.Flags[p]] for a name with [p in Flags]: the flag
    of an own key, or the member the table inherits from
    [Object.prototype] under that name (a function or an object, no flag). *)
Inductive FlagValue : Type :=
| Bits (flag : N)
| Inherited (name : string).

Record RoleCreateOptions : Type := {
  rc_name : string;
  rc_color : option string;
  rc_permissions : option (list FlagValue);
  rc_mentionable : option bool
}.

(** The [updates] object of update-role; an absent key is [None]. *)
Record RoleUpdates : Type := {
  up_name : option string;
  up_color : option string;
  up_permissions : option (list FlagValue);
  up_mentionable : option bool
}.

(** ** The collaborator

    [guilds_cache] is [client.guilds.cache]; the other fields answer the
    remote calls the code awaits.  A refresh ([roles_fetch],
    [members_fetch_all]) answers with the content of the refreshed cache,
    which the code then reads through the same [guild] reference. *)

Record Client : Type := {
  guilds_cache : list Guild;
  guilds_fetch : string -> Fetched Guild;
  channels_fetch : string -> Fetched Channel;
  roles_fetch : Guild -> Rejection + list Role;
  members_fetch : Guild -> string -> Fetched Member;
  members_fetch_all : Guild -> Rejection + list Member;
  messages_fetch : Channel -> Q -> Rejection + list Message;
  channel_send : Channel -> string -> Rejection + Message;
  channels_create : Guild -> string -> Rejection + Channel;
  roles_create : Guild -> RoleCreateOptions -> Rejection + Role;
  member_roles_add : Member -> Role -> Rejection + unit;
  member_roles_remove : Member -> Role -> Rejection + unit;
  role_edit : Role -> RoleUpdates -> Rejection + Role;
  role_delete : Role -> Rejection + unit
}.

(** Remote calls, as they are logged. *)
Inductive Call : Type :=
| CGuildsFetch (id : string)
| CChannelsFetch (id : string)
| CRolesFetch (guild : string)
| CMembersFetch (guild : string) (id : option string)
| CMessagesFetch (channel : string) (limit : Q)
| CSend (channel : string) (message : string)
| CChannelsCreate (guild : string) (name : string)
| CRolesCreate (guild : string) (options : RoleCreateOptions)
| CRolesAdd (member : string) (role : string)
| CRolesRemove (member : string) (role : string)
| CRoleEdit (role : string) (updates : RoleUpdates)
| CRoleDelete (role : string).

(** The calls that change remote state. *)
Definition is_mutation (c : Call) : bool :=
  match c with
  | CSend _ _ | CChannelsCreate _ _ | CRolesCreate _ _ | CRolesAdd _ _
  | CRolesRemove _ _ | CRoleEdit _ _ | CRoleDelete _ => true
  | _ => false
  end.

Definition is_roles_fetch (c : Call) : bool :=
  match c with CRolesFetch _ => true | _ => false end.

(** ** Async functions: a log of remote calls and a result or a throw *)

Inductive Outcome (A : Type) : Type :=
| Returned (a : A)
| Threw (e : Thrown).
Arguments Returned {A} a.
Arguments Threw {A} e.

Definition M (A : Type) : Type := (list Call * Outcome A)%type.

Definition ret {A} (a : A) : M A := ([], Returned a).
Definition throw {A} (e : Thrown) : M A := ([], Threw e).

Definition bind {A B} (m : M A) (k : A -> M B) : M B :=
  match m with
  | (log, Returned a) => let (log', r) := k a in ((log ++ log')%list, r)
  | (log, Threw e) => (log, Threw e)
  end.

(** [try { m } catch (e) { h e }] *)
Definition try_catch {A} (m : M A) (h : Thrown -> M A) : M A :=
  match m with
  | (log, Threw e) => let (log', r) := h e in ((log ++ log')%list, r)
  | _ => m
  end.

(** [await] of a remote call whose promise resolves or rejects. *)
Definition await {A} (c : Call) (answer : Rejection + A) : M A :=
  ([c], match answer with inl e => Threw (thrown_of e) | inr a => Returned a end).

(** [await] of a fetch-by-id: rejects, or resolves with the entity or null. *)
Definition await_fetched {A} (c : Call) (answer : Fetched A) : M (option A) :=
  ([c], match answer with
        | Rejected e => Threw (thrown_of e)
        | Resolved v => Returned v
        end).

Definition calls {A} (m : M A) : list Call := fst m.
Definition outcome {A} (m : M A) : Outcome A := snd m.

Declare Scope js_scope.
Delimit Scope js_scope with js.
Notation "x <- m ;; k" := (bind m (fun x => k))
  (at level 61, m at next level, right associativity) : js_scope.
Notation "m ;;; k" := (bind m (fun _ => k))
  (at level 61, right associativity) : js_scope.
Local Open Scope js_scope.

(** [Promise.all(xs.map(f))]: the calls are started in list order and,
    suspensions resuming in issuing order, the first rejection in list
    order rejects the whole promise.  The reads that the promises after
    the rejected one still issue are left out of the log. *)
Fixpoint promise_all {A B} (f : A -> M B) (xs : list A) : M (list B) :=
  match xs with
  | [] => ret []
  | x :: rest => y <- f x ;; ys <- promise_all f rest ;; ret (y :: ys)
  end.

(** ** zod schemas

    A schema reads the value found at a path ([None] is [undefined]) and
    answers with the parsed value or with the issues it found; an object
    schema gathers the issues of all its keys, in the order of its shape. *)

Module Zod.

Definition Schema (A : Type) : Type :=
  list PathElem -> option Json -> list ZodIssue + A.

(** zod's name for the type of a received value. *)
Definition parsed_type (v : option Json) : string :=
  match v with
  | None => "undefined"
  | Some JNull => "null"
  | Some (JBool _) => "boolean"
  | Some (JNum _) => "number"
  | Some (JStr _) => "string"
  | Some (JArr _) => "array"
  | Some (JObj _) => "object"
  end.

Definition invalid_type (expected : string) (path : list PathElem) (v : option Json)
  : ZodIssue :=
  {| issue_path := path;
     issue_message :=
       match v with
       | None => "Required"
       | _ => "Expected " ++ expected ++ ", received " ++ parsed_type v
       end |}.

Definition string : Schema String.string :=
  fun path v =>
    match v with
    | Some (JStr s) => inr s
    | _ => inl [invalid_type "string" path v]
    end.

Definition boolean : Schema bool :=
  fun path v =>
    match v with
    | Some (JBool b) => inr b
    | _ => inl [invalid_type "boolean" path v]
    end.

(** [z.number().min(lo).max(hi)]: both checks run on a number. *)
Definition number_min_max (lo hi : nat) : Schema Q :=
  fun path v =>
    match v with
    | Some (JNum q) =>
        let too_small :=
          if Qle_bool (inject_Z (Z.of_nat lo)) q then []
          else [{| issue_path := path;
                   issue_message :=
                     "Number must be greater than or equal to " ++ JS.of_nat lo |}] in
        let too_big :=
          if Qle_bool q (inject_Z (Z.of_nat hi)) then []
          else [{| issue_path := path;
                   issue_message :=
                     "Number must be less than or equal to " ++ JS.of_nat hi |}] in
        match (too_small ++ too_big)%list with
        | [] => inr q
        | issues => inl issues
        end
    | _ => inl [invalid_type "number" path v]
    end.

Definition optional {A} (s : Schema A) : Schema (option A) :=
  fun path v =>
    match v with
    | None => inr None
    | Some _ => match s path v with inl i => inl i | inr a => inr (Some a) end
    end.

(** [.default(d)]: [undefined] is replaced by [d] before the inner schema. *)
Definition default {A} (s : Schema A) (d : Json) : Schema A :=
  fun path v =>
    match v with
    | None => s path (Some d)
    | Some _ => s path v
    end.

(** Gathering the issues of two parts of a value. *)
Definition both {A B C} (f : A -> B -> C)
  (x : list ZodIssue + A) (y : list ZodIssue + B) : list ZodIssue + C :=
  match x, y with
  | inr a, inr b => inr (f a b)
  | inl i, inr _ => inl i
  | inr _, inl j => inl j
  | inl i, inl j => inl (i ++ j)%list
  end.

Fixpoint elements {A} (s : Schema A) (path : list PathElem) (i : nat)
  (items : list Json) : list ZodIssue + list A :=
  match items with
  | [] => inr []
  | x :: rest =>
      both cons (s (path ++ [PIndex i])%list (Some x)) (elements s path (S i) rest)
  end.

Definition array {A} (s : Schema A) : Schema (list A) :=
  fun path v =>
    match v with
    | Some (JArr items) => elements s path 0 items
    | _ => inl [invalid_type "array" path v]
    end.

(** The keys of an object shape, read from the record [data]. *)
Definition Shape (A : Type) : Type :=
  list PathElem -> list (String.string * Json) -> list ZodIssue + A.

Definition done {A} (a : A) : Shape A := fun _ _ => inr a.

Definition key {A B} (sh : Shape (A -> B)) (k : String.string) (s : Schema A) : Shape B :=
  fun path data =>
    both (fun f a => f a) (sh path data) (s (path ++ [PKey k])%list (prop k data)).

(** [z.object(shape)]; unknown keys are stripped. *)
Definition object {A} (sh : Shape A) : Schema A :=
  fun path v =>
    match v with
    | Some (JObj data) => sh path data
    | _ => inl [invalid_type "object" path v]
    end.

(** [schema.parse(args)] *)
Definition parse {A} (s : Schema A) (args : option Json) : M A :=
  match s [] args with
  | inl issues => throw (ZodError issues)
  | inr a => ret a
  end.

End Zod.

Record ChannelArgs : Type := {
  ca_server : option string; ca_channel : string }.
Record SendMessageArgs : Type := {
  sm_server : option string; sm_channel : string; sm_message : string }.
Record ReadMessagesArgs : Type := {
  rm_server : option string; rm_channel : string; rm_limit : Q }.
Record ReadMultipleChannelsArgs : Type := {
  rmc_server : option string; rmc_channels : option (list string);
  rmc_limitPerChannel : Q }.
Record ServerArgs : Type := { sa_server : option string }.
Record CreateChannelArgs : Type := {
  cc_server : option string; cc_channelName : string }.
Record UserRoleArgs : Type := {
  ur_server : option string; ur_user : string; ur_role : string }.
Record CreateRoleArgs : Type := {
  cr_server : option string; cr_roleName : string; cr_color : option string;
  cr_permissions : option (list string); cr_mentionable : option bool }.
Record RoleArgs : Type := { ra_server : option string; ra_role : string }.
Record UpdateRoleArgs : Type := {
  ua_server : option string; ua_role : string; ua_newName : option string;
  ua_newColor : option string; ua_newPermissions : option (list string);
  ua_newMentionable : option bool }.

Definition server_key {B} (sh : Zod.Shape (option string -> B)) : Zod.Shape B :=
  Zod.key sh "server" (Zod.optional Zod.string).

Definition SendMessageSchema : Zod.Schema SendMessageArgs :=
  Zod.object
    (Zod.key (Zod.key (server_key (Zod.done Build_SendMessageArgs))
                "channel" Zod.string)
       "message" Zod.string).

Definition ReadMessagesSchema : Zod.Schema ReadMessagesArgs :=
  Zod.object
    (Zod.key (Zod.key (server_key (Zod.done Build_ReadMessagesArgs))
                "channel" Zod.string)
       "limit" (Zod.default (Zod.number_min_max 1 100) (JNum 50))).

Definition ReadMultipleChannelsSchema : Zod.Schema ReadMultipleChannelsArgs :=
  Zod.object
    (Zod.key (Zod.key (server_key (Zod.done Build_ReadMultipleChannelsArgs))
                "channels" (Zod.optional (Zod.array Zod.string)))
       "limitPerChannel" (Zod.default (Zod.number_min_max 1 50) (JNum 10))).

Definition ListChannelsSchema : Zod.Schema ServerArgs :=
  Zod.object (server_key (Zod.done Build_ServerArgs)).

Definition ListServersSchema : Zod.Schema unit :=
  Zod.object (Zod.done tt).

Definition CreateChannelSchema : Zod.Schema CreateChannelArgs :=
  Zod.object
    (Zod.key (server_key (Zod.done Build_CreateChannelArgs)) "channelName" Zod.string).

Definition ListRolesSchema : Zod.Schema ServerArgs :=
  Zod.object (server_key (Zod.done Build_ServerArgs)).

Definition AssignRoleSchema : Zod.Schema UserRoleArgs :=
  Zod.object
    (Zod.key (Zod.key (server_key (Zod.done Build_UserRoleArgs)) "user" Zod.string)
       "role" Zod.string).

Definition RemoveRoleSchema : Zod.Schema UserRoleArgs :=
  Zod.object
    (Zod.key (Zod.key (server_key (Zod.done Build_UserRoleArgs)) "user" Zod.string)
       "role" Zod.string).

Definition CreateRoleSchema : Zod.Schema CreateRoleArgs :=
  Zod.object
    (Zod.key
       (Zod.key
          (Zod.key
             (Zod.key (server_key (Zod.done Build_CreateRoleArgs))
                "roleName" Zod.string)
             "color" (Zod.optional Zod.string))
          "permissions" (Zod.optional (Zod.array Zod.string)))
       "mentionable" (Zod.default (Zod.optional Zod.boolean) (JBool false))).

Definition DeleteRoleSchema : Zod.Schema RoleArgs :=
  Zod.object (Zod.key (server_key (Zod.done Build_RoleArgs)) "role" Zod.string).

Definition UpdateRoleSchema : Zod.Schema UpdateRoleArgs :=
  Zod.object
    (Zod.key
       (Zod.key
          (Zod.key
             (Zod.key
                (Zod.key (server_key (Zod.done Build_UpdateRoleArgs))
                   "role" Zod.string)
                "newName" (Zod.optional Zod.string))
             "newColor" (Zod.optional Zod.string))
          "newPermissions" (Zod.optional (Zod.array Zod.string)))
       "newMentionable" (Zod.optional Zod.boolean)).

Definition GetMemberCountSchema : Zod.Schema ServerArgs :=
  Zod.object (server_key (Zod.done Build_ServerArgs)).

Definition GetRoleMemberCountSchema : Zod.Schema RoleArgs :=
  Zod.object (Zod.key (server_key (Zod.done Build_RoleArgs)) "role" Zod.string).

(** ** Tool results

    The text of a result is either a plain string or a header followed by
    [JSON.stringify(body, null, 2)] of an array of plain objects; the
    array is kept as data.  [FIso t] is the string
    [new Date(t).toISOString()]. *)

Inductive Field : Type :=
| FStr (s : string)
| FInt (z : Z)
| FBool (b : bool)
| FIso (t : Z)
| FStrs (l : list string).

Definition Obj : Type := list (string * Field).

Fixpoint field (k : string) (o : Obj) : option Field :=
  match o with
  | [] => None
  | (k', v) :: rest => if String.eqb k k' then Some v else field k rest
  end.

Inductive Content : Type :=
| Text (text : string)
| TextJson (header : string) (body : list Obj).

(** The object built for a fetched message, in read-messages and
    read-multiple-channels alike. *)
Definition formatMessage (channel : Channel) (msg : Message) : Obj :=
  [ ("channel", FStr ("#" ++ ch_name channel));
    ("server", FStr (ch_guild_name channel));
    ("author", FStr (msg_author_tag msg));
    ("content", FStr (msg_content msg));
    ("timestamp", FIso (msg_createdAt msg)) ].

(** The entry pushed when the fetch of one channel throws. *)
Definition errorEntry (channel : Channel) (channelError : Thrown) : Obj :=
  [ ("channel", FStr ("#" ++ ch_name channel));
    ("server", FStr (ch_guild_name channel));
    ("error", FStr ("Failed to fetch messages: " ++
                    match channelError with
                    | JsError m => m
                    | _ => "Unknown error"   (* no ZodError is thrown in that [try] *)
                    end)) ].

(** [new Date(o.timestamp).getTime()] when [o.timestamp] is truthy. *)
Definition timestamp (o : Obj) : option Z :=
  match field "timestamp" o with
  | Some (FIso t) => Some t
  | _ => None
  end.

(** The comparator given to [allMessages.sort]. *)
Definition compareFn (a b : Obj) : Z :=
  match timestamp b, timestamp a with
  | Some tb, Some ta => tb - ta
  | _, _ => 0
  end.

(** ** The engine's sort

    Node runs V8, whose [Array.prototype.sort] is TimSort.  An array of
    fewer than 64 elements is one run: the initial run is counted (and
    reversed when strictly descending), then the remaining elements are
    placed by binary insertion.  [V8.sort] is that path. *)

Module V8.

Section Sort.

Context {A : Type}.
Variable comparefn : A -> A -> Z.

(** The loop of [CountAndMakeRun] after the first two elements: the run
    continues while the order of neighbours agrees with [descending]. *)
Fixpoint extend_run (descending : bool) (previous : A) (rest : list A)
  : list A * list A :=
  match rest with
  | [] => ([], [])
  | current :: rest' =>
      let order := comparefn current previous in
      if (if descending then 0 <=? order else order <? 0)%Z
      then ([], rest)
      else let (run, tail) := extend_run descending current rest' in
           (current :: run, tail)
  end.

Definition count_and_make_run (xs : list A) : list A * list A :=
  match xs with
  | high :: low :: rest =>
      let descending := (comparefn low high <? 0)%Z in
      let (run, tail) := extend_run descending low rest in
      let whole := high :: low :: run in
      (if descending then rev whole else whole, tail)
  | _ => (xs, [])
  end.

(** The [while (left < right)] loop of [BinaryInsertionSort]. *)
Fixpoint search (fuel : nat) (pivot : A) (sorted : list A) (left right : nat) : nat :=
  match fuel with
  | O => left
  | S fuel' =>
      if (left <? right)%nat then
        let mid := (left + Nat.div2 (right - left))%nat in
        match nth_error sorted mid with
        | Some x =>
            if (comparefn pivot x <? 0)%Z
            then search fuel' pivot sorted left mid
            else search fuel' pivot sorted (S mid) right
        | None => left
        end
      else left
  end.

Definition insert_at (pos : nat) (pivot : A) (sorted : list A) : list A :=
  (firstn pos sorted ++ pivot :: skipn pos sorted)%list.

Definition place (sorted : list A) (pivot : A) : list A :=
  insert_at (search (length sorted) pivot sorted 0 (length sorted)) pivot sorted.

Definition binary_insertion_sort (run rest : list A) : list A :=
  fold_left place rest run.

Definition sort (xs : list A) : list A :=
  let (run, rest) := count_and_make_run xs in
  binary_insertion_sort run rest.

End Sort.

End V8.

(** ** A small server, used to run the code on concrete inputs *)

Module Example.

Definition general : Channel :=
  {| ch_id := "201"; ch_name := "general"; ch_type := GuildText;
     ch_guild_id := "100"; ch_guild_name := "Test Server" |}.
Definition random : Channel :=
  {| ch_id := "202"; ch_name := "random"; ch_type := GuildText;
     ch_guild_id := "100"; ch_guild_name := "Test Server" |}.
Definition lounge : Channel :=
  {| ch_id := "203"; ch_name := "Lounge"; ch_type := GuildVoice;
     ch_guild_id := "100"; ch_guild_name := "Test Server" |}.
Definition news : Channel :=
  {| ch_id := "204"; ch_name := "news"; ch_type := GuildText;
     ch_guild_id := "100"; ch_guild_name := "Test Server" |}.
(** A text channel of a server the identifier does not name. *)
Definition elsewhere : Channel :=
  {| ch_id := "901"; ch_name := "general"; ch_type := GuildText;
     ch_guild_id := "900"; ch_guild_name := "Other Server" |}.

Definition moderator : Role :=
  {| role_id := "301"; role_name := "Moderator"; role_hexColor := "#ff0000";
     role_position := 2; role_permissions := ["ManageMessages"];
     role_mentionable := true |}.
Definition helper : Role :=
  {| role_id := "302"; role_name := "Helper"; role_hexColor := "#00ff00";
     role_position := 1; role_permissions := []; role_mentionable := false |}.
(** A role created remotely after the last sync. *)
Definition newcomer : Role :=
  {| role_id := "303"; role_name := "Newcomer"; role_hexColor := "#0000ff";
     role_position := 1; role_permissions := []; role_mentionable := false |}.

Definition alice : Member :=
  {| m_id := "401"; m_tag := "alice#0001"; m_username := "alice";
     m_nickname := Some "Al"; m_roles := ["301"] |}.

Definition server : Guild :=
  {| g_id := "100"; g_name := "Test Server";
     g_channels := [general; random; lounge; news];
     g_roles := [moderator; helper]; g_members := [alice]; g_memberCount := 1 |}.

Definition other : Guild :=
  {| g_id := "900"; g_name := "Other Server"; g_channels := [elsewhere];
     g_roles := []; g_members := []; g_memberCount := 0 |}.

Definition old_message : Message :=
  {| msg_id := "501"; msg_author_tag := "alice#0001"; msg_content := "first";
     msg_createdAt := 1000 |}.
Definition new_message : Message :=
  {| msg_id := "502"; msg_author_tag := "alice#0001"; msg_content := "second";
     msg_createdAt := 2000 |}.

Definition by_id {A} (id_of : A -> string) (xs : list A) (id : string) : Fetched A :=
  match List.find (fun x => String.eqb (id_of x) id) xs with
  | Some x => Resolved (Some x)
  | None => Rejected (RejError "Unknown")
  end.

(** The bot has joined [guilds]; reading the channel "random" fails. *)
Definition client_of (guilds : list Guild) : Client :=
  {| guilds_cache := guilds;
     guilds_fetch := by_id g_id guilds;
     channels_fetch := by_id ch_id (flat_map g_channels [server; other]);
     roles_fetch := fun g => inr (g_roles g ++ [newcomer])%list;
     members_fetch := fun g => by_id m_id (g_members g);
     members_fetch_all := fun g => inr (g_members g);
     messages_fetch := fun c _ =>
       if String.eqb (ch_id c) "201" then inr [old_message]
       else if String.eqb (ch_id c) "204" then inr [new_message]
       else inl (RejError "Missing Access");
     channel_send := fun _ _ => inr new_message;
     channels_create := fun g name =>
       inr {| ch_id := "205"; ch_name := name; ch_type := GuildText;
              ch_guild_id := g_id g; ch_guild_name := g_name g |};
     roles_create := fun _ o =>
       inr {| role_id := "304"; role_name := rc_name o; role_hexColor := "#000000";
              role_position := 1; role_permissions := []; role_mentionable := false |};
     member_roles_add := fun _ _ => inr tt;
     member_roles_remove := fun _ _ => inr tt;
     role_edit := fun r _ => inr r;
     role_delete := fun _ => inr tt |}.

Definition client : Client := client_of [server].

Definition flags : list (string * N) :=
  [("SendMessages", 2048%N); ("ManageMessages", 8192%N)].

(** The property names of [Object.prototype]. *)
Definition inherited : list string :=
  [ "constructor"; "__defineGetter__"; "__defineSetter__"; "hasOwnProperty";
    "__lookupGetter__"; "__lookupSetter__"; "isPrototypeOf"; "propertyIsEnumerable";
    "toString"; "valueOf"; "__proto__"; "toLocaleString" ].

End Example.

(** * The code

    The engine supplies two things the code relies on:
    [String.prototype.toLowerCase], and the properties every object
    literal, such as [PermissionsBitField.Flags], inherits from
    [Object.prototype]. *)

Section Engine.

Variable toLowerCase : string -> string.

(** The names of the properties of [Object.prototype]. *)
Variable inherited : list string.

(** ** Resolvers

    A [try] block that can [return] from the function is written as a
    computation of an [option]: [Some v] is [return v], [None] falls
    through to the statement after the [try]. *)

Section Resolvers.

Variable client : Client.

(** [!guildIdentifier]: [undefined] and the empty string are falsy. *)
Definition omitted (guildIdentifier : option string) : bool :=
  match guildIdentifier with
  | None => true
  | Some s => String.eqb s ""
  end.

Definition guild_names (gs : list Guild) : string :=
  JS.join ", " (map (fun g => JS.quoted (g_name g)) gs).

Definition findGuild (guildIdentifier : option string) : M Guild :=
  match guildIdentifier with
  | None | Some EmptyString =>
      (* cache.size === 1 ? cache.first() *)
      match guilds_cache client with
      | [g] => ret g
      | gs =>
          throw (JsError
            ("Bot is in multiple servers. Please specify server name or ID. Available servers: "
               ++ guild_names gs))
      end
  | Some id =>
      r <- try_catch
             (await_fetched (CGuildsFetch id) (guilds_fetch client id))
             (fun _ =>
                let guilds :=
                  filter (fun g => String.eqb (toLowerCase (g_name g))
                                              (toLowerCase id))
                         (guilds_cache client) in
                match guilds with
                | [] =>
                    throw (JsError
                      ("Server " ++ JS.quoted id ++ " not found. Available servers: "
                         ++ guild_names (guilds_cache client)))
                | [g] => ret (Some g)
                | _ =>
                    throw (JsError
                      ("Multiple servers found with name " ++ JS.quoted id ++ ": "
                         ++ JS.join ", "
                              (map (fun g => g_name g ++ " (ID: " ++ g_id g ++ ")") guilds)
                         ++ ". Please specify the server ID."))
                end) ;;
      match r with
      | Some g => ret g
      | None => throw (JsError ("Server " ++ JS.quoted id ++ " not found"))
      end
  end.

(** The filter of the name fallback of [findChannel]. *)
Definition channel_name_matches (channelIdentifier : string) (channel : Channel) : bool :=
  isTextChannel channel &&
  (String.eqb (toLowerCase (ch_name channel)) (toLowerCase channelIdentifier)
   || String.eqb (toLowerCase (ch_name channel))
                 (JS.replace_first "#"%char (toLowerCase channelIdentifier))).

Definition text_channel_names (cs : list Channel) : string :=
  JS.join ", " (map (fun c => JS.quoted ("#" ++ ch_name c)) (filter isTextChannel cs)).

Definition channel_candidates (cs : list Channel) : string :=
  JS.join ", " (map (fun c => "#" ++ ch_name c ++ " (" ++ ch_id c ++ ")") cs).

Definition findChannel (channelIdentifier : string) (guildIdentifier : option string)
  : M Channel :=
  guild <- findGuild guildIdentifier ;;
  r <- try_catch
         (channel <- await_fetched (CChannelsFetch channelIdentifier)
                                   (channels_fetch client channelIdentifier) ;;
          match channel with
          | Some channel =>
              if isTextChannel channel && String.eqb (ch_guild_id channel) (g_id guild)
              then ret (Some channel)
              else ret None
          | None => ret None
          end)
         (fun _ =>
            let channels := filter (channel_name_matches channelIdentifier)
                                   (g_channels guild) in
            match channels with
            | [] =>
                throw (JsError
                  ("Channel " ++ JS.quoted channelIdentifier ++ " not found in server "
                     ++ JS.quoted (g_name guild) ++ ". Available channels: "
                     ++ text_channel_names (g_channels guild)))
            | [c] => ret (Some c)
            | _ =>
                throw (JsError
                  ("Multiple channels found with name " ++ JS.quoted channelIdentifier
                     ++ " in server " ++ JS.quoted (g_name guild) ++ ": "
                     ++ channel_candidates channels
                     ++ ". Please specify the channel ID."))
            end) ;;
  match r with
  | Some channel => ret channel
  | None =>
      throw (JsError
        ("Channel " ++ JS.quoted channelIdentifier
           ++ " is not a text channel or not found in server " ++ JS.quoted (g_name guild)))
  end.

(** [roles.cache.get(id)] *)
Definition roles_get (id : string) (roles : list Role) : option Role :=
  JS.find (fun r => String.eqb (role_id r) id) roles.

(** [roles.cache.find(r => r.name.toLowerCase() === id.toLowerCase())] *)
Definition roles_find_name (id : string) (roles : list Role) : option Role :=
  JS.find (fun r => String.eqb (toLowerCase (role_name r)) (toLowerCase id)) roles.

Definition role_names (roles : list Role) : string :=
  JS.join ", " (map (fun r => JS.quoted (role_name r)) roles).

(** The result of the refresh block of [findRole]: the role it returns,
    or the role cache as the block leaves it. *)
Definition findRole (roleIdentifier : string) (guildIdentifier : option string) : M Role :=
  guild <- findGuild guildIdentifier ;;
  match roles_get roleIdentifier (g_roles guild) with
  | Some role => ret role
  | None =>
  match roles_find_name roleIdentifier (g_roles guild) with
  | Some role => ret role
  | None =>
      r <- try_catch
             (cache <- await (CRolesFetch (g_id guild)) (roles_fetch client guild) ;;
              match JS.nullish (roles_get roleIdentifier cache)
                               (roles_find_name roleIdentifier cache) with
              | Some role => ret (inl role)
              | None => ret (inr cache)
              end)
             (fun _ => (* console.error *) ret (inr (g_roles guild))) ;;
      match r with
      | inl role => ret role
      | inr cache =>
          throw (JsError
            ("Role " ++ JS.quoted roleIdentifier ++ " not found in server "
               ++ JS.quoted (g_name guild) ++ ". Available roles: " ++ role_names cache))
      end
  end
  end.

Definition mention_chars : list ascii := ["<"; "@"; "!"; ">"]%char.

Definition members_get (id : string) (ms : list Member) : option Member :=
  JS.find (fun m => String.eqb (m_id m) id) ms.

Definition members_find_tag (lower : string) (ms : list Member) : option Member :=
  JS.find (fun m => String.eqb (toLowerCase (m_tag m)) lower) ms.

Definition members_find_name (lower : string) (ms : list Member) : option Member :=
  JS.find (fun m =>
             match m_nickname m with
             | Some n => String.eqb (toLowerCase n) lower
             | None => false
             end
             || String.eqb (toLowerCase (m_username m)) lower) ms.

Definition findMember (userIdentifier : string) (guildIdentifier : option string)
  : M Member :=
  guild <- findGuild guildIdentifier ;;
  let cleaned := JS.remove_all mention_chars userIdentifier in
  byId <- try_catch
            (await_fetched (CMembersFetch (g_id guild) (Some cleaned))
                           (members_fetch client guild cleaned))
            (fun _ => ret None) ;;
  match byId with
  | Some member => ret member
  | None =>
  let lowerUserIdentifier := toLowerCase userIdentifier in
  match members_find_tag lowerUserIdentifier (g_members guild) with
  | Some member => ret member
  | None =>
  match members_find_name lowerUserIdentifier (g_members guild) with
  | Some member => ret member
  | None =>
      r <- try_catch
             (cache <- await (CMembersFetch (g_id guild) None)
                             (members_fetch_all client guild) ;;
              ret (JS.nullish (members_get cleaned cache)
                     (JS.nullish (members_find_tag lowerUserIdentifier cache)
                                 (members_find_name lowerUserIdentifier cache))))
             (fun _ => (* console.error *) ret None) ;;
      match r with
      | Some member => ret member
      | None =>
          throw (JsError
            ("User " ++ JS.quoted userIdentifier ++ " not found in server "
               ++ JS.quoted (g_name guild) ++ "."))
      end
  end
  end
  end.

End Resolvers.

Section Handlers.

Variable client : Client.

(** [Array.prototype.sort] of the engine. *)
Variable array_sort : (Obj -> Obj -> Z) -> list Obj -> list Obj.

(** [PermissionsBitField.Flags] of discord.js. *)
Variable PermissionFlags : list (string * N).

Fixpoint flag (p : string) (flags : list (string * N)) : option N :=
  match flags with
  | [] => None
  | (k, v) :: rest => if String.eqb p k then Some v else flag p rest
  end.

(** [p in PermissionsBitField.Flags ? Flags[p] : undefined]: the [in]
    operator follows the prototype chain, so a name passes when it is an
    own key of the table or a property inherited from
    [Object.prototype]. *)
Definition flag_value (p : string) : option FlagValue :=
  match flag p PermissionFlags with
  | Some bits => Some (Bits bits)
  | None => if existsb (String.eqb p) inherited then Some (Inherited p) else None
  end.

(** [permissions.map(p => ...)]: throws at the first name that is not
    [in] the table. *)
Fixpoint validatePermissions (ps : list string) : M (list FlagValue) :=
  match ps with
  | [] => ret []
  | p :: rest =>
      match flag_value p with
      | None =>
          throw (JsError ("Invalid permission name: " ++ p ++ ". Valid permissions: "
                            ++ JS.join ", " (map fst PermissionFlags)))
      | Some value => bs <- validatePermissions rest ;; ret (value :: bs)
      end
  end.

Definition has_role (member : Member) (role : Role) : bool :=
  existsb (String.eqb (role_id role)) (m_roles member).

Definition send_message (args : option Json) : M Content :=
  a <- Zod.parse SendMessageSchema args ;;
  channel <- findChannel client (sm_channel a) (sm_server a) ;;
  sent <- await (CSend (ch_id channel) (sm_message a))
                (channel_send client channel (sm_message a)) ;;
  ret (Text ("Message sent successfully to #" ++ ch_name channel ++ " in "
               ++ ch_guild_name channel ++ ". Message ID: " ++ msg_id sent)).

Definition read_messages (args : option Json) : M Content :=
  a <- Zod.parse ReadMessagesSchema args ;;
  channel <- findChannel client (rm_channel a) (rm_server a) ;;
  messages <- await (CMessagesFetch (ch_id channel) (rm_limit a))
                    (messages_fetch client channel (rm_limit a)) ;;
  ret (TextJson "" (map (formatMessage channel) messages)).

Definition list_channels (args : option Json) : M Content :=
  a <- Zod.parse ListChannelsSchema args ;;
  guild <- findGuild client (sa_server a) ;;
  let textChannels :=
    map (fun c => [("id", FStr (ch_id c)); ("name", FStr (ch_name c))])
        (filter isTextChannel (g_channels guild)) in
  ret (TextJson ("Text channels in server " ++ JS.quoted (g_name guild) ++ ":"
                   ++ JS.newline) textChannels).

Definition list_servers (args : option Json) : M Content :=
  Zod.parse ListServersSchema args ;;;
  let guilds :=
    map (fun g => [("id", FStr (g_id g)); ("name", FStr (g_name g))])
        (guilds_cache client) in
  ret (TextJson ("Bot is connected to the following servers:" ++ JS.newline) guilds).

Definition create_channel (args : option Json) : M Content :=
  a <- Zod.parse CreateChannelSchema args ;;
  guild <- findGuild client (cc_server a) ;;
  let existingChannel :=
    JS.find (fun c => String.eqb (toLowerCase (ch_name c))
                                 (toLowerCase (cc_channelName a))
                      && ChannelType_eqb (ch_type c) GuildText)
            (g_channels guild) in
  match existingChannel with
  | Some _ =>
      throw (JsError ("A text channel named " ++ JS.quoted (cc_channelName a)
                        ++ " already exists in server " ++ JS.quoted (g_name guild) ++ "."))
  | None =>
      createdChannel <- await (CChannelsCreate (g_id guild) (cc_channelName a))
                              (channels_create client guild (cc_channelName a)) ;;
      ret (Text ("Successfully created text channel #" ++ ch_name createdChannel
                   ++ " (ID: " ++ ch_id createdChannel ++ ") in server "
                   ++ JS.quoted (g_name guild) ++ "."))
  end.

(** One turn of the [for (const channel of targetChannels)] loop: the
    items pushed for [channel]. *)
Definition gather_channel (limitPerChannel : Q) (channel : Channel) : M (list Obj) :=
  try_catch
    (messages <- await (CMessagesFetch (ch_id channel) limitPerChannel)
                       (messages_fetch client channel limitPerChannel) ;;
     ret (map (formatMessage channel) messages))
    (fun channelError => (* console.error *) ret [errorEntry channel channelError]).

Fixpoint gather (limitPerChannel : Q) (targetChannels : list Channel) : M (list Obj) :=
  match targetChannels with
  | [] => ret []
  | channel :: rest =>
      items <- gather_channel limitPerChannel channel ;;
      more <- gather limitPerChannel rest ;;
      ret (items ++ more)%list
  end.

Definition read_multiple_channels (args : option Json) : M Content :=
  a <- Zod.parse ReadMultipleChannelsSchema args ;;
  guild <- findGuild client (rmc_server a) ;;
  targetChannels <-
    match rmc_channels a with
    | Some ((_ :: _) as channelIdentifiers) =>
        promise_all (fun id => findChannel client id (Some (g_id guild)))
                    channelIdentifiers
    | _ => ret (filter isTextChannel (g_channels guild))
    end ;;
  match targetChannels with
  | [] =>
      ret (Text ("No text channels found or specified in server "
                   ++ JS.quoted (g_name guild) ++ "."))
  | _ =>
      allMessages <- gather (rmc_limitPerChannel a) targetChannels ;;
      ret (TextJson ("Fetched messages from " ++ JS.of_nat (length targetChannels)
                       ++ " channel(s) in " ++ JS.quoted (g_name guild) ++ ":"
                       ++ JS.newline)
                    (array_sort compareFn allMessages))
  end.

Definition list_roles (args : option Json) : M Content :=
  a <- Zod.parse ListRolesSchema args ;;
  guild <- findGuild client (sa_server a) ;;
  cache <- await (CRolesFetch (g_id guild)) (roles_fetch client guild) ;;
  let roles :=
    map (fun role =>
           [ ("id", FStr (role_id role)); ("name", FStr (role_name role));
             ("color", FStr (role_hexColor role)); ("position", FInt (role_position role));
             ("permissions", FStrs (role_permissions role));
             ("mentionable", FBool (role_mentionable role)) ])
        cache in
  ret (TextJson ("Roles in server " ++ JS.quoted (g_name guild) ++ ":" ++ JS.newline)
                roles).

Definition assign_role (args : option Json) : M Content :=
  a <- Zod.parse AssignRoleSchema args ;;
  guild <- findGuild client (ur_server a) ;;
  member <- findMember client (ur_user a) (Some (g_id guild)) ;;
  role <- findRole client (ur_role a) (Some (g_id guild)) ;;
  if has_role member role then
    throw (JsError ("User " ++ m_tag member ++ " already has the role "
                      ++ JS.quoted (role_name role) ++ "."))
  else
    await (CRolesAdd (m_id member) (role_id role))
          (member_roles_add client member role) ;;;
    ret (Text ("Successfully assigned role " ++ JS.quoted (role_name role)
                 ++ " to user " ++ m_tag member ++ " in server "
                 ++ JS.quoted (g_name guild) ++ ".")).

Definition remove_role (args : option Json) : M Content :=
  a <- Zod.parse RemoveRoleSchema args ;;
  guild <- findGuild client (ur_server a) ;;
  member <- findMember client (ur_user a) (Some (g_id guild)) ;;
  role <- findRole client (ur_role a) (Some (g_id guild)) ;;
  if negb (has_role member role) then
    throw (JsError ("User " ++ m_tag member ++ " does not have the role "
                      ++ JS.quoted (role_name role) ++ "."))
  else
    await (CRolesRemove (m_id member) (role_id role))
          (member_roles_remove client member role) ;;;
    ret (Text ("Successfully removed role " ++ JS.quoted (role_name role)
                 ++ " from user " ++ m_tag member ++ " in server "
                 ++ JS.quoted (g_name guild) ++ ".")).

Definition create_role (args : option Json) : M Content :=
  a <- Zod.parse CreateRoleSchema args ;;
  guild <- findGuild client (cr_server a) ;;
  let existingRole :=
    JS.find (fun r => String.eqb (toLowerCase (role_name r))
                                 (toLowerCase (cr_roleName a)))
            (g_roles guild) in
  match existingRole with
  | Some _ =>
      throw (JsError ("A role named " ++ JS.quoted (cr_roleName a)
                        ++ " already exists in server " ++ JS.quoted (g_name guild) ++ "."))
  | None =>
      validatedPermissions <-
        match cr_permissions a with
        | Some permissions => bs <- validatePermissions permissions ;; ret (Some bs)
        | None => ret None
        end ;;
      let options :=
        {| rc_name := cr_roleName a; rc_color := cr_color a;
           rc_permissions := validatedPermissions;
           rc_mentionable := cr_mentionable a |} in
      createdRole <- await (CRolesCreate (g_id guild) options)
                           (roles_create client guild options) ;;
      ret (Text ("Successfully created role " ++ JS.quoted (role_name createdRole)
                   ++ " (ID: " ++ role_id createdRole ++ ") in server "
                   ++ JS.quoted (g_name guild) ++ "."))
  end.

Definition delete_role (args : option Json) : M Content :=
  a <- Zod.parse DeleteRoleSchema args ;;
  guild <- findGuild client (ra_server a) ;;
  role <- findRole client (ra_role a) (Some (g_id guild)) ;;
  await (CRoleDelete (role_id role)) (role_delete client role) ;;;
  ret (Text ("Successfully deleted role " ++ JS.quoted (role_name role)
               ++ " (ID: " ++ role_id role ++ ") from server "
               ++ JS.quoted (g_name guild) ++ ".")).

(** [Object.keys(updates).length === 0] *)
Definition no_updates (u : RoleUpdates) : bool :=
  match up_name u, up_color u, up_permissions u, up_mentionable u with
  | None, None, None, None => true
  | _, _, _, _ => false
  end.

Definition update_role (args : option Json) : M Content :=
  a <- Zod.parse UpdateRoleSchema args ;;
  guild <- findGuild client (ua_server a) ;;
  role <- findRole client (ua_role a) (Some (g_id guild)) ;;
  permissions <-
    match ua_newPermissions a with
    | Some newPermissions => bs <- validatePermissions newPermissions ;; ret (Some bs)
    | None => ret None
    end ;;
  let updates :=
    {| up_name := ua_newName a; up_color := ua_newColor a;
       up_permissions := permissions; up_mentionable := ua_newMentionable a |} in
  if no_updates updates then
    throw (JsError "No update parameters provided for the role.")
  else
    updatedRole <- await (CRoleEdit (role_id role) updates)
                         (role_edit client role updates) ;;
    ret (Text ("Successfully updated role " ++ JS.quoted (role_name updatedRole)
                 ++ " (ID: " ++ role_id updatedRole ++ ") in server "
                 ++ JS.quoted (g_name guild) ++ ".")).

Definition get_member_count (args : option Json) : M Content :=
  a <- Zod.parse GetMemberCountSchema args ;;
  guild <- findGuild client (sa_server a) ;;
  await (CMembersFetch (g_id guild) None) (members_fetch_all client guild) ;;;
  ret (Text ("Server " ++ JS.quoted (g_name guild) ++ " has "
               ++ JS.of_nat (g_memberCount guild) ++ " members.")).

Definition get_role_member_count (args : option Json) : M Content :=
  a <- Zod.parse GetRoleMemberCountSchema args ;;
  guild <- findGuild client (ra_server a) ;;
  role <- findRole client (ra_role a) (Some (g_id guild)) ;;
  cache <- await (CMembersFetch (g_id guild) None) (members_fetch_all client guild) ;;
  let membersWithRole := filter (fun member => has_role member role) cache in
  ret (Text ("There are " ++ JS.of_nat (length membersWithRole)
               ++ " members with the role " ++ JS.quoted (role_name role)
               ++ " in server " ++ JS.quoted (g_name guild) ++ ".")).

(** The [switch (name)] of the request handler. *)
Definition handler (name : string) (args : option Json) : M Content :=
  if String.eqb name "send-message" then send_message args
  else if String.eqb name "read-messages" then read_messages args
  else if String.eqb name "list-channels" then list_channels args
  else if String.eqb name "list-servers" then list_servers args
  else if String.eqb name "create-channel" then create_channel args
  else if String.eqb name "read-multiple-channels" then read_multiple_channels args
  else if String.eqb name "list-roles" then list_roles args
  else if String.eqb name "assign-role" then assign_role args
  else if String.eqb name "remove-role" then remove_role args
  else if String.eqb name "create-role" then create_role args
  else if String.eqb name "delete-role" then delete_role args
  else if String.eqb name "update-role" then update_role args
  else if String.eqb name "get-member-count" then get_member_count args
  else if String.eqb name "get-role-member-count" then get_role_member_count args
  else throw (JsError ("Unknown tool: " ++ name)).

Definition path_string (path : list PathElem) : string :=
  JS.join "." (map (fun e => match e with PKey k => k | PIndex i => JS.of_nat i end) path).

Definition issue_string (e : ZodIssue) : string :=
  path_string (issue_path e) ++ ": " ++ issue_message e.

(** The [catch] of the request handler: every thrown value leaves as an
    [Error] with a normalized message. *)
Definition normalize (error : Thrown) : Thrown :=
  match error with
  | ZodError errors =>
      JsError ("Invalid arguments: " ++ JS.join ", " (map issue_string errors))
  | JsError message => JsError ("Tool execution failed: " ++ message)
  | NonError => JsError "An unknown error occurred during tool execution."
  end.

(** The [CallToolRequestSchema] request handler. *)
Definition callTool (name : string) (args : option Json) : M Content :=
  try_catch (handler name args) (fun error => throw (normalize error)).

End Handlers.

(** ** Kinds of calls *)

Definition is_resolution (c : Call) : bool :=
  match c with
  | CGuildsFetch _ | CChannelsFetch _ | CRolesFetch _ | CMembersFetch _ _ => true
  | _ => false
  end.

(** Every call of [m] is a read made by a resolver. *)
Definition resolves_only {A} (m : M A) : Prop :=
  Forall (fun c => is_resolution c = true) (calls m).

(** ** The declared tools

    The tool list answered to [ListToolsRequestSchema]: each name with
    the [required] array of its input schema. *)

Definition tools : list (string * list string) :=
  [ ("send-message", ["channel"; "message"]);
    ("read-messages", ["channel"]);
    ("list-channels", []);
    ("list-servers", []);
    ("create-channel", ["channelName"]);
    ("read-multiple-channels", []);
    ("list-roles", []);
    ("assign-role", ["user"; "role"]);
    ("remove-role", ["user"; "role"]);
    ("create-role", ["roleName"]);
    ("delete-role", ["role"]);
    ("update-role", ["role"]);
    ("get-member-count", []);
    ("get-role-member-count", ["role"]) ].

(** The issue zod raises for a missing key [f] of the arguments. *)
Definition required_issue (f : string) : ZodIssue :=
  {| issue_path := [PKey f]; issue_message := "Required" |}.

(** A parse result that carries the issue of the missing key [f]. *)
Definition reports {A} (r : list ZodIssue + A) (f : string) : Prop :=
  match r with
  | inl issues => In (required_issue f) issues
  | inr _ => False
  end.

(** [m] never throws a [ZodError]. *)
Definition never_zod {A} (m : M A) : Prop :=
  forall issues, outcome m <> Threw (ZodError issues).

(** ** Naming a channel

    The name match as the spec words it: the identifier is the channel's
    name up to case, bare or behind the sigil '#'. *)

Definition names_channel (identifier : string) (c : Channel) : Prop :=
  isTextChannel c = true /\
  (toLowerCase (ch_name c) = toLowerCase identifier \/
   String "#" (toLowerCase (ch_name c)) = toLowerCase identifier).

Fixpoint has_sigil (s : string) : bool :=
  match s with
  | EmptyString => false
  | String a r => Ascii.eqb a "#" || has_sigil r
  end.

(** No '#' after the first character. *)
Definition sigil_only_first (identifier : string) : Prop :=
  match identifier with
  | EmptyString => True
  | String _ r => has_sigil r = false
  end.

(** ** Newest first

    The order the comment on [allMessages.sort] announces, as a check on
    a list of items: no item is followed by a newer one, and no item
    without a timestamp is followed by one that has a timestamp. *)

Definition precedes (a b : Obj) : bool :=
  match timestamp a, timestamp b with
  | Some ta, Some tb => (tb <=? ta)%Z
  | None, Some _ => false
  | _, _ => true
  end.

Fixpoint newest_first (items : list Obj) : bool :=
  match items with
  | [] => true
  | a :: rest => forallb (precedes a) rest && newest_first rest
  end.

Definition has_timestamp (o : Obj) : bool :=
  match timestamp o with Some _ => true | None => false end.

(** ** What a computation throws and logs *)

(** Whatever [m] throws is an [Error] carrying a message. *)
Definition throws_errors {A} (m : M A) : Prop :=
  forall e, outcome m = Threw e -> exists message, e = JsError message.

(** The number of mutating calls [m] issues. *)
Definition mutations {A} (m : M A) : nat :=
  length (filter is_mutation (calls m)).

(** A parse result that carries the issue [issue]. *)
Definition raises {A} (r : list ZodIssue + A) (issue : ZodIssue) : Prop :=
  match r with
  | inl issues => In issue issues
  | inr _ => False
  end.

(** [m] issues at most one mutating call, and nothing after it. *)
Definition mutates_last {A} (m : M A) : Prop :=
  exists reads,
    existsb is_mutation reads = false /\
    (calls m = reads \/
     exists c, is_mutation c = true /\ calls m = (reads ++ [c])%list).

(** The keys the input schemas declare, all tools together. *)
Definition schema_keys : list string :=
  [ "server"; "channel"; "message"; "limit"; "channels"; "limitPerChannel";
    "channelName"; "user"; "role"; "roleName"; "color"; "permissions"; "mentionable";
    "newName"; "newColor"; "newPermissions"; "newMentionable" ].

(** The sort key of an item that has a timestamp: newer is smaller. *)
Definition age (o : Obj) : Z :=
  match timestamp o with
  | Some t => (- t)%Z
  | None => 0%Z
  end.

(** A thrown value that is no [Error] comes from a remote call: [m]
    throws one only with a call in its log. *)
Definition non_errors_follow_calls {A} (m : M A) : Prop :=
  outcome m = Threw NonError -> calls m <> [].

(** * Properties *)

(** ** Facts about the log *)

Lemma resolves_only_ret {A} (a : A) : resolves_only (ret a).
Proof. constructor. Qed.

Lemma resolves_only_throw {A} e : resolves_only (@throw A e).
Proof. constructor. Qed.

Lemma resolves_only_bind {A B} (m : M A) (k : A -> M B) :
  resolves_only m -> (forall a, resolves_only (k a)) -> resolves_only (bind m k).
Proof.
  unfold resolves_only, calls. destruct m as [log [a|e]]; simpl; intros Hm Hk.
  - specialize (Hk a). destruct (k a) as [log' r]. simpl in *.
    apply Forall_app; split; assumption.
  - assumption.
Qed.

Lemma resolves_only_try_catch {A} (m : M A) (h : Thrown -> M A) :
  resolves_only m -> (forall e, resolves_only (h e)) -> resolves_only (try_catch m h).
Proof.
  unfold resolves_only, calls. destruct m as [log [a|e]]; simpl; intros Hm Hh.
  - assumption.
  - specialize (Hh e). destruct (h e) as [log' r]. simpl in *.
    apply Forall_app; split; assumption.
Qed.

Lemma resolves_only_await {A} c (answer : Rejection + A) :
  is_resolution c = true -> resolves_only (await c answer).
Proof. intros H. repeat constructor. exact H. Qed.

Lemma resolves_only_await_fetched {A} c (answer : Fetched A) :
  is_resolution c = true -> resolves_only (await_fetched c answer).
Proof. intros H. repeat constructor. exact H. Qed.

Create HintDb js_log.
#[local] Hint Resolve resolves_only_ret resolves_only_throw resolves_only_await
  resolves_only_await_fetched : js_log.

(** Breaks a computation into its statements, case by case. *)
Ltac step_log :=
  repeat first
    [ solve [auto with js_log]
    | apply resolves_only_bind; [|intros ?]
    | apply resolves_only_try_catch; [|intros ?]
    | match goal with
      | |- resolves_only (match ?x with _ => _ end) => destruct x
      | |- resolves_only (if ?b then _ else _) => destruct b
      end ].

Lemma findGuild_resolves_only client guildIdentifier :
  resolves_only (findGuild client guildIdentifier).
Proof. unfold findGuild. step_log. Qed.

#[local] Hint Resolve findGuild_resolves_only : js_log.

Lemma findChannel_resolves_only client channelIdentifier guildIdentifier :
  resolves_only (findChannel client channelIdentifier guildIdentifier).
Proof. unfold findChannel. step_log. Qed.

Lemma findRole_resolves_only client roleIdentifier guildIdentifier :
  resolves_only (findRole client roleIdentifier guildIdentifier).
Proof. unfold findRole. step_log. Qed.

Lemma findMember_resolves_only client userIdentifier guildIdentifier :
  resolves_only (findMember client userIdentifier guildIdentifier).
Proof. unfold findMember. step_log. Qed.

#[local] Hint Resolve findChannel_resolves_only findRole_resolves_only
  findMember_resolves_only : js_log.

Lemma resolution_not_mutation log :
  Forall (fun c => is_resolution c = true) log -> existsb is_mutation log = false.
Proof.
  induction 1 as [|c log Hc _ IH]; simpl; [reflexivity|].
  rewrite IH. destruct c; simpl in *; congruence.
Qed.

(** ** The sort permutes its input *)

Section SortFacts.

Context {A : Type}.
Variable comparefn : A -> A -> Z.

Lemma extend_run_app descending previous rest :
  let (run, tail) := V8.extend_run comparefn descending previous rest in
  rest = (run ++ tail)%list.
Proof.
  revert previous. induction rest as [|x rest IH]; intros previous; simpl.
  - reflexivity.
  - destruct (if descending then _ else _).
    + reflexivity.
    + specialize (IH x).
      destruct (V8.extend_run comparefn descending x rest) as [run tail].
      simpl. now rewrite <- IH.
Qed.

Lemma count_and_make_run_perm xs :
  let (run, rest) := V8.count_and_make_run comparefn xs in
  Permutation (run ++ rest) xs.
Proof.
  destruct xs as [|high [|low rest]]; simpl.
  - constructor.
  - apply Permutation_refl.
  - pose proof (extend_run_app (comparefn low high <? 0)%Z low rest) as E.
    destruct (V8.extend_run comparefn _ low rest) as [run tail]. subst rest.
    change (high :: low :: run ++ tail)%list with ((high :: low :: run) ++ tail)%list.
    apply Permutation_app_tail.
    destruct (comparefn low high <? 0)%Z.
    + apply Permutation_sym, Permutation_rev.
    + apply Permutation_refl.
Qed.

Lemma place_perm sorted pivot :
  Permutation (V8.place comparefn sorted pivot) (pivot :: sorted).
Proof.
  unfold V8.place, V8.insert_at.
  set (pos := V8.search _ _ _ _ _ _).
  rewrite <- (firstn_skipn pos sorted) at 3.
  apply Permutation_sym, Permutation_middle.
Qed.

Lemma binary_insertion_sort_perm rest :
  forall run,
    Permutation (V8.binary_insertion_sort comparefn run rest) (run ++ rest).
Proof.
  unfold V8.binary_insertion_sort.
  induction rest as [|x rest IH]; intros run; simpl.
  - rewrite app_nil_r. apply Permutation_refl.
  - eapply Permutation_trans; [apply IH|].
    eapply Permutation_trans; [apply Permutation_app_tail, place_perm|].
    simpl. apply Permutation_middle.
Qed.

Lemma sort_perm xs : Permutation (V8.sort comparefn xs) xs.
Proof.
  unfold V8.sort. pose proof (count_and_make_run_perm xs) as P.
  destruct (V8.count_and_make_run comparefn xs) as [run rest].
  eapply Permutation_trans; [apply binary_insertion_sort_perm | exact P].
Qed.

End SortFacts.


(** ** Guild resolution *)

Lemma findGuild_calls client guildIdentifier :
  calls (findGuild client guildIdentifier) =
  if omitted guildIdentifier then []
  else match guildIdentifier with Some id => [CGuildsFetch id] | None => [] end.
Proof.
  unfold findGuild, omitted.
  destruct guildIdentifier as [[|a id]|]; simpl.
  - destruct (guilds_cache client) as [|g [|g' gs]]; reflexivity.
  - destruct (guilds_fetch client (String a id)) as [e|[g|]]; simpl; try reflexivity.
    destruct (filter _ (guilds_cache client)) as [|g [|g' gs]]; reflexivity.
  - destruct (guilds_cache client) as [|g [|g' gs]]; reflexivity.
Qed.

(** C5. With the identifier omitted, [findGuild] returns the joined server
    when the bot has joined exactly one, and in every other case throws
    the "Bot is in multiple servers" error whose message lists the names
    of all joined servers; so it succeeds if and only if exactly one
    server is joined. *)
Theorem findGuild_omitted client guildIdentifier :
  omitted guildIdentifier = true ->
  (forall g, guilds_cache client = [g] ->
             findGuild client guildIdentifier = ([], Returned g)) /\
  (length (guilds_cache client) <> 1%nat ->
   findGuild client guildIdentifier =
   ([], Threw (JsError
          ("Bot is in multiple servers. Please specify server name or ID. Available servers: "
             ++ JS.join ", " (map (fun g => JS.quoted (g_name g)) (guilds_cache client)))))) /\
  ((exists g, outcome (findGuild client guildIdentifier) = Returned g) <->
   length (guilds_cache client) = 1%nat).
Proof.
  intros Hom.
  assert (E : findGuild client guildIdentifier =
              match guilds_cache client with
              | [g] => ret g
              | gs => throw (JsError
                  ("Bot is in multiple servers. Please specify server name or ID. Available servers: "
                     ++ guild_names gs))
              end).
  { unfold findGuild. destruct guildIdentifier as [[|a id]|]; try reflexivity.
    simpl in Hom. discriminate. }
  rewrite E. unfold guild_names.
  destruct (guilds_cache client) as [|g [|g' gs]]; simpl.
  - repeat split; try discriminate.
    + intros [g Hg]. discriminate.
  - repeat split.
    + intros g0 Hg0. now inversion Hg0.
    + intros H. now contradiction H.
    + now exists g.
  - repeat split; try discriminate.
    + intros [g0 Hg0]. discriminate.
Qed.

(** ** Channel resolution *)

Lemma isTextChannel_spec c : isTextChannel c = true <-> ch_type c = GuildText.
Proof. unfold isTextChannel. destruct (ch_type c); simpl; split; congruence. Qed.

Lemma channel_name_matches_text cid c :
  channel_name_matches cid c = true -> isTextChannel c = true.
Proof. unfold channel_name_matches. intros H. now apply andb_true_iff in H. Qed.

(** [findChannel] once the server is resolved: what the [try] and its
    [catch] leave, and the final [throw]. *)
Lemma findChannel_resolved client cid gid guild log :
  findGuild client gid = (log, Returned guild) ->
  findChannel client cid gid =
  ((log ++ [CChannelsFetch cid])%list,
   match channels_fetch client cid with
   | Resolved (Some channel) =>
       if isTextChannel channel && String.eqb (ch_guild_id channel) (g_id guild)
       then Returned channel
       else Threw (JsError
              ("Channel " ++ JS.quoted cid
                 ++ " is not a text channel or not found in server "
                 ++ JS.quoted (g_name guild)))
   | Resolved None =>
       Threw (JsError
         ("Channel " ++ JS.quoted cid
            ++ " is not a text channel or not found in server "
            ++ JS.quoted (g_name guild)))
   | Rejected _ =>
       match filter (channel_name_matches cid) (g_channels guild) with
       | [] =>
           Threw (JsError
             ("Channel " ++ JS.quoted cid ++ " not found in server "
                ++ JS.quoted (g_name guild) ++ ". Available channels: "
                ++ text_channel_names (g_channels guild)))
       | [c] => Returned c
       | channels =>
           Threw (JsError
             ("Multiple channels found with name " ++ JS.quoted cid
                ++ " in server " ++ JS.quoted (g_name guild) ++ ": "
                ++ channel_candidates channels
                ++ ". Please specify the channel ID."))
       end
   end).
Proof.
  intros Hg. unfold findChannel. rewrite Hg. simpl.
  destruct (channels_fetch client cid) as [e|[channel|]]; simpl.
  - destruct (filter _ (g_channels guild)) as [|c [|c' cs]]; simpl;
      rewrite ?app_nil_r; reflexivity.
  - destruct (isTextChannel channel && _); simpl; reflexivity.
  - reflexivity.
Qed.

(** C3. Once the server is resolved, a channel fetched by ID is accepted
    only if it is a text channel of that server: a fetched channel that
    is not a text channel, or whose server differs from the resolved one,
    makes [findChannel] throw "is not a text channel or not found in
    server"; and whatever [findChannel] returns after a successful fetch
    is the fetched channel, a text channel of the resolved server. *)
Theorem findChannel_by_id_scoped client cid gid guild log :
  findGuild client gid = (log, Returned guild) ->
  (forall channel,
     channels_fetch client cid = Resolved (Some channel) ->
     isTextChannel channel = false \/ ch_guild_id channel <> g_id guild ->
     outcome (findChannel client cid gid) =
     Threw (JsError
       ("Channel " ++ JS.quoted cid ++ " is not a text channel or not found in server "
          ++ JS.quoted (g_name guild)))) /\
  (forall fetched c,
     channels_fetch client cid = Resolved fetched ->
     outcome (findChannel client cid gid) = Returned c ->
     fetched = Some c /\ isTextChannel c = true /\ ch_guild_id c = g_id guild) /\
  (forall c,
     outcome (findChannel client cid gid) = Returned c ->
     isTextChannel c = true /\
     (ch_guild_id c = g_id guild \/ In c (g_channels guild))).
Proof.
  intros Hg. rewrite (findChannel_resolved _ cid _ _ _ Hg). unfold outcome; simpl.
  split; [|split].
  - intros channel Hf Hbad. rewrite Hf.
    destruct (isTextChannel channel) eqn:Ht; simpl.
    + destruct Hbad as [Hbad|Hbad]; [discriminate|].
      apply String.eqb_neq in Hbad. now rewrite Hbad.
    + reflexivity.
  - intros fetched c Hf. rewrite Hf. destruct fetched as [channel|]; [|discriminate].
    destruct (isTextChannel channel && _) eqn:Hok; [|discriminate].
    intros H. inversion H; subst c. apply andb_true_iff in Hok as [Ht Hs].
    apply String.eqb_eq in Hs. auto.
  - intros c. destruct (channels_fetch client cid) as [e|[channel|]]; [| |discriminate].
    + destruct (filter _ (g_channels guild)) as [|c0 [|c1 cs]] eqn:Hf; try discriminate.
      intros H. inversion H; subst c0.
      assert (Hin : In c (filter (channel_name_matches cid) (g_channels guild)))
        by (rewrite Hf; now left).
      apply filter_In in Hin as [Hin Hm].
      split; [now apply channel_name_matches_text in Hm | now right].
    + destruct (isTextChannel channel && _) eqn:Hok; [|discriminate].
      intros H. inversion H; subst c. apply andb_true_iff in Hok as [Ht Hs].
      apply String.eqb_eq in Hs. auto.
Qed.

Lemma replace_first_absent s :
  has_sigil s = false -> JS.replace_first "#"%char s = s.
Proof.
  induction s as [|a r IH]; simpl; [reflexivity|].
  intros H. apply orb_false_iff in H as [Ha Hr]. now rewrite Ha, IH.
Qed.

Lemma channel_name_matches_names identifier c :
  (forall s, toLowerCase (String "#" s) = String "#" (toLowerCase s)) ->
  (forall s, has_sigil s = false -> has_sigil (toLowerCase s) = false) ->
  sigil_only_first identifier ->
  (channel_name_matches identifier c = true <-> names_channel identifier c).
Proof.
  intros Hfront Hnone Hs.
  assert (HL : (exists r, toLowerCase identifier = String "#" r) \/
               has_sigil (toLowerCase identifier) = false).
  { destruct identifier as [|a r]; [right; now apply Hnone|].
    simpl in Hs. destruct (Ascii.eqb a "#") eqn:Ha.
    - apply Ascii.eqb_eq in Ha. subst a. left. rewrite Hfront. now eexists.
    - right. apply Hnone. simpl. now rewrite Ha, Hs. }
  unfold channel_name_matches, names_channel.
  rewrite andb_true_iff, orb_true_iff, !String.eqb_eq.
  destruct HL as [[r HL]|HL].
  - rewrite HL. simpl. split.
    + intros [Ht [E|E]]; split; auto. right. now rewrite E.
    + intros [Ht [E|E]]; split; auto. right. now inversion E.
  - rewrite (replace_first_absent _ HL). split.
    + intros [Ht [E|E]]; auto.
    + intros [Ht [E|E]]; split; auto.
      rewrite <- E in HL. simpl in HL. discriminate HL.
Qed.


(** The filter of the code agrees with the spec's wording on every
    identifier that has no '#' after its first character; [replace]
    removes the first '#' wherever it stands, so an identifier such as
    "gen#eral" also matches the channel "general".  Of [toLowerCase] it
    takes that a leading '#' stays in front of the lower-cased rest and
    that lower-casing brings no '#' into a string that has none. *)
Lemma channel_name_matches_spec identifier c :
  (forall s, toLowerCase (String "#" s) = String "#" (toLowerCase s)) ->
  (forall s, has_sigil s = false -> has_sigil (toLowerCase s) = false) ->
  sigil_only_first identifier ->
  (channel_name_matches identifier c = true <-> names_channel identifier c).
Proof.
  apply channel_name_matches_names.
Qed.
(** C6, as the code has it.  When the fetch by ID is rejected,
    [findChannel] decides on the text channels of the resolved server
    whose lower-cased name equals the lower-cased identifier, as given
    or with its first '#' removed: one such channel is returned; two or
    more throw "Multiple channels found" listing each as [#name (id)];
    none throws "not found" listing every text channel of the server.
    A text channel matches an identifier that spells its name in any
    case, bare or behind a leading '#'; and for an identifier with no
    '#' after its first character the channels so counted are exactly
    the text channels it names up to case, bare or behind the sigil.
    (Of [toLowerCase] the last two take that a leading '#' stays in
    front of the lower-cased rest, and the last that lower-casing
    brings no '#' into a string that has none.) *)
Theorem findChannel_by_name client cid gid guild log e :
  findGuild client gid = (log, Returned guild) ->
  channels_fetch client cid = Rejected e ->
  let matches := filter (channel_name_matches cid) (g_channels guild) in
  (forall c, matches = [c] -> outcome (findChannel client cid gid) = Returned c) /\
  (2 <= length matches ->
   outcome (findChannel client cid gid) =
   Threw (JsError
     ("Multiple channels found with name " ++ JS.quoted cid ++ " in server "
        ++ JS.quoted (g_name guild) ++ ": "
        ++ JS.join ", " (map (fun c => "#" ++ ch_name c ++ " (" ++ ch_id c ++ ")") matches)
        ++ ". Please specify the channel ID."))) /\
  (matches = [] ->
   outcome (findChannel client cid gid) =
   Threw (JsError
     ("Channel " ++ JS.quoted cid ++ " not found in server " ++ JS.quoted (g_name guild)
        ++ ". Available channels: "
        ++ JS.join ", " (map (fun c => JS.quoted ("#" ++ ch_name c))
                             (filter isTextChannel (g_channels guild)))))) /\
  (forall c,
     In c matches <->
     In c (g_channels guild) /\ isTextChannel c = true /\
     (toLowerCase (ch_name c) = toLowerCase cid \/
      toLowerCase (ch_name c) = JS.replace_first "#"%char (toLowerCase cid))) /\
  ((forall s, toLowerCase (String "#" s) = String "#" (toLowerCase s)) ->
   forall c name,
     isTextChannel c = true ->
     toLowerCase (ch_name c) = toLowerCase name ->
     channel_name_matches name c = true /\
     channel_name_matches ("#" ++ name) c = true) /\
  ((forall s, toLowerCase (String "#" s) = String "#" (toLowerCase s)) ->
   (forall s, has_sigil s = false -> has_sigil (toLowerCase s) = false) ->
   sigil_only_first cid ->
   forall c, In c matches <-> In c (g_channels guild) /\ names_channel cid c).
Proof.
  intros Hg Hf matches.
  rewrite (findChannel_resolved _ cid _ _ _ Hg), Hf. unfold outcome; simpl.
  fold matches. split; [|split; [|split; [|split; [|split]]]].
  - intros c Hm. now rewrite Hm.
  - intros Hlen. destruct matches as [|c0 [|c1 cs]]; simpl in Hlen; try lia.
    reflexivity.
  - intros Hm. now rewrite Hm.
  - intros c. subst matches. rewrite filter_In. unfold channel_name_matches.
    rewrite andb_true_iff, orb_true_iff, !String.eqb_eq. tauto.
  - intros Hfront c name Ht Hname. unfold channel_name_matches. split.
    + rewrite Ht, Hname, String.eqb_refl. reflexivity.
    + change ("#" ++ name) with (String "#" name).
      rewrite Ht, Hfront, Hname. simpl. rewrite String.eqb_refl.
      now rewrite orb_true_r.
  - intros Hfront Hnone Hs c. subst matches. rewrite filter_In.
    now rewrite (channel_name_matches_names cid c Hfront Hnone Hs).
Qed.

(** ** Role resolution *)

Lemma findGuild_no_roles_fetch client gid :
  filter is_roles_fetch (calls (findGuild client gid)) = [].
Proof.
  rewrite findGuild_calls. destruct (omitted gid); [reflexivity|].
  destruct gid; reflexivity.
Qed.

(** C4. When neither the ID lookup nor the case-insensitive name lookup
    finds the identifier in the cached roles, [findRole] issues exactly
    one refresh of the server's roles, and its result is decided by the
    same two lookups over the role cache as the refresh leaves it (the
    refreshed roles, or the unchanged cache when the refresh is
    rejected): the role found is returned, and "not found", listing the
    names of all roles of that cache, is thrown only when both lookups
    find nothing there. *)
Theorem findRole_refresh_once client rid gid guild log :
  findGuild client gid = (log, Returned guild) ->
  roles_get rid (g_roles guild) = None ->
  roles_find_name rid (g_roles guild) = None ->
  let current :=
    match roles_fetch client guild with
    | inr refreshed => refreshed
    | inl _ => g_roles guild
    end in
  let r := findRole client rid gid in
  calls r = (log ++ [CRolesFetch (g_id guild)])%list /\
  length (filter is_roles_fetch (calls r)) = 1%nat /\
  outcome r =
    match JS.nullish (roles_get rid current) (roles_find_name rid current) with
    | Some role => Returned role
    | None =>
        Threw (JsError
          ("Role " ++ JS.quoted rid ++ " not found in server " ++ JS.quoted (g_name guild)
             ++ ". Available roles: "
             ++ JS.join ", " (map (fun r => JS.quoted (role_name r)) current)))
    end /\
  (forall e, outcome r = Threw e ->
             roles_get rid current = None /\ roles_find_name rid current = None).
Proof.
  intros Hg Hid Hname current r.
  assert (Hlog : filter is_roles_fetch log = []).
  { pose proof (findGuild_no_roles_fetch client gid) as H. now rewrite Hg in H. }
  assert (E : r = ((log ++ [CRolesFetch (g_id guild)])%list,
                   match JS.nullish (roles_get rid current) (roles_find_name rid current) with
                   | Some role => Returned role
                   | None =>
                       Threw (JsError
                         ("Role " ++ JS.quoted rid ++ " not found in server "
                            ++ JS.quoted (g_name guild) ++ ". Available roles: "
                            ++ role_names current))
                   end)).
  { subst r current. unfold findRole. rewrite Hg. simpl. rewrite Hid, Hname.
    destruct (roles_fetch client guild) as [rej|refreshed]; simpl.
    - rewrite Hid, Hname. simpl. rewrite ?app_nil_r. reflexivity.
    - destruct (JS.nullish _ _); simpl; rewrite ?app_nil_r; reflexivity. }
  rewrite E. unfold calls, outcome, role_names; simpl. repeat split.
  - rewrite filter_app, Hlog. reflexivity.
  - destruct (roles_get rid current); [discriminate H | reflexivity].
  - destruct (roles_get rid current); [discriminate H|]. simpl in H.
    destruct (roles_find_name rid current); [discriminate H | reflexivity].
Qed.

(** ** The log and the result of composed computations *)

Lemma calls_bind {A B} (m : M A) (k : A -> M B) :
  calls (bind m k) =
  (calls m ++ match outcome m with Returned a => calls (k a) | Threw _ => [] end)%list.
Proof.
  destruct m as [log [a|e]]; unfold calls, outcome; simpl.
  - now destruct (k a).
  - now rewrite app_nil_r.
Qed.

Lemma outcome_bind {A B} (m : M A) (k : A -> M B) :
  outcome (bind m k) =
  match outcome m with Returned a => outcome (k a) | Threw e => Threw e end.
Proof.
  destruct m as [log [a|e]]; unfold outcome; simpl; [now destruct (k a) | reflexivity].
Qed.

Lemma outcome_bind_returned {A B} (m : M A) (k : A -> M B) log a :
  m = (log, Returned a) -> outcome (bind m k) = outcome (k a).
Proof. intros ->. now rewrite outcome_bind. Qed.

Lemma calls_callTool client array_sort flags name args :
  calls (callTool client array_sort flags name args) =
  calls (handler client array_sort flags name args).
Proof.
  unfold callTool. destruct (handler _ _ _ name args) as [log [a|e]];
    unfold calls; simpl; [reflexivity | apply app_nil_r].
Qed.

Lemma outcome_callTool client array_sort flags name args :
  outcome (callTool client array_sort flags name args) =
  match outcome (handler client array_sort flags name args) with
  | Returned content => Returned content
  | Threw error => Threw (normalize error)
  end.
Proof.
  unfold callTool. now destruct (handler _ _ _ name args) as [log [a|e]].
Qed.

Lemma calls_parse {A} (s : Zod.Schema A) args : calls (Zod.parse s args) = [].
Proof. unfold Zod.parse. now destruct (s [] args). Qed.

Lemma promise_all_resolves_only {A B} (f : A -> M B) xs :
  (forall x, resolves_only (f x)) -> resolves_only (promise_all f xs).
Proof.
  intros Hf. induction xs as [|x xs IH]; simpl.
  - apply resolves_only_ret.
  - apply resolves_only_bind; [apply Hf|]. intros y.
    apply resolves_only_bind; [apply IH|]. intros ys. apply resolves_only_ret.
Qed.

Lemma promise_all_length {A B} (f : A -> M B) xs ys :
  outcome (promise_all f xs) = Returned ys -> length ys = length xs.
Proof.
  revert ys. induction xs as [|x xs IH]; simpl; intros ys.
  - unfold outcome; simpl. intros H. now inversion H.
  - rewrite outcome_bind. destruct (outcome (f x)) as [y|e]; [|discriminate].
    rewrite outcome_bind. destruct (outcome (promise_all f xs)) as [ys'|e];
      [|discriminate].
    unfold outcome; simpl. intros H. inversion H; subst. simpl. now rewrite (IH ys').
Qed.

(** ** Schemas *)

Lemma both_inr {A B C} (f : A -> B -> C) x y c :
  Zod.both f x y = inr c -> exists a b, x = inr a /\ y = inr b /\ c = f a b.
Proof.
  destruct x as [i|a], y as [j|b]; simpl; try discriminate.
  intros H. inversion H. now exists a, b.
Qed.

Lemma key_inr {A B} (sh : Zod.Shape (A -> B)) k s path data b :
  Zod.key sh k s path data = inr b ->
  exists f a, sh path data = inr f /\
              s (path ++ [PKey k])%list (prop k data) = inr a /\ b = f a.
Proof. unfold Zod.key. intros H. now apply both_inr in H. Qed.

Lemma number_min_max_bounds lo hi path v q :
  Zod.number_min_max lo hi path v = inr q ->
  (inject_Z (Z.of_nat lo) <= q /\ q <= inject_Z (Z.of_nat hi))%Q.
Proof.
  unfold Zod.number_min_max. destruct v as [[| |q'| | |]|]; try discriminate.
  destruct (Qle_bool (inject_Z (Z.of_nat lo)) q') eqn:Hlo;
    destruct (Qle_bool q' (inject_Z (Z.of_nat hi))) eqn:Hhi; simpl; try discriminate.
  intros H. inversion H; subst q'. split; now apply Qle_bool_iff.
Qed.

Lemma number_default lo hi d path q :
  Zod.default (Zod.number_min_max lo hi) (JNum d) path None = inr q -> q = d.
Proof.
  unfold Zod.default, Zod.number_min_max.
  destruct (_ ++ _)%list; [|discriminate]. intros H. now inversion H.
Qed.

Lemma ReadMessagesSchema_limit args a :
  ReadMessagesSchema [] args = inr a ->
  (1 <= rm_limit a /\ rm_limit a <= 100)%Q /\
  (forall data, args = Some (JObj data) -> prop "limit" data = None ->
                rm_limit a = 50%Q).
Proof.
  unfold ReadMessagesSchema, Zod.object.
  destruct args as [[| | | | |data]|]; try discriminate.
  intros H. apply key_inr in H as (f & limit & H & Hl & ->).
  apply key_inr in H as (f' & channel & H & _ & ->).
  apply key_inr in H as (f'' & server & H & _ & ->).
  inversion H; subst f''. simpl. split.
  - unfold Zod.default in Hl.
    destruct (prop "limit" data); now apply number_min_max_bounds in Hl.
  - intros data' E Hnone. inversion E; subst data'. simpl in Hl.
    rewrite Hnone in Hl. now apply number_default in Hl.
Qed.

Lemma ReadMultipleChannelsSchema_limit args a :
  ReadMultipleChannelsSchema [] args = inr a ->
  (1 <= rmc_limitPerChannel a /\ rmc_limitPerChannel a <= 50)%Q /\
  (forall data, args = Some (JObj data) -> prop "limitPerChannel" data = None ->
                rmc_limitPerChannel a = 10%Q).
Proof.
  unfold ReadMultipleChannelsSchema, Zod.object.
  destruct args as [[| | | | |data]|]; try discriminate.
  intros H. apply key_inr in H as (f & limit & H & Hl & ->).
  apply key_inr in H as (f' & channels & H & _ & ->).
  apply key_inr in H as (f'' & server & H & _ & ->).
  inversion H; subst f''. simpl. split.
  - unfold Zod.default in Hl.
    destruct (prop "limitPerChannel" data); now apply number_min_max_bounds in Hl.
  - intros data' E Hnone. inversion E; subst data'. simpl in Hl.
    rewrite Hnone in Hl. now apply number_default in Hl.
Qed.

(** ** Reading messages *)

Lemma gather_channel_run client limit channel :
  gather_channel client limit channel =
  ([CMessagesFetch (ch_id channel) limit],
   Returned match messages_fetch client channel limit with
            | inr messages => map (formatMessage channel) messages
            | inl e => [errorEntry channel (thrown_of e)]
            end).
Proof.
  unfold gather_channel. now destruct (messages_fetch client channel limit).
Qed.

(** The loop reads every target channel once and never throws. *)
Lemma gather_run client limit targetChannels :
  gather client limit targetChannels =
  (map (fun c => CMessagesFetch (ch_id c) limit) targetChannels,
   Returned (flat_map (fun c => match messages_fetch client c limit with
                                | inr messages => map (formatMessage c) messages
                                | inl e => [errorEntry c (thrown_of e)]
                                end) targetChannels)).
Proof.
  induction targetChannels as [|c cs IH]; simpl; [reflexivity|].
  rewrite gather_channel_run, IH. simpl. now rewrite app_nil_r.
Qed.

Lemma resolution_not_messages_fetch log c limit :
  Forall (fun c => is_resolution c = true) log -> ~ In (CMessagesFetch c limit) log.
Proof.
  intros H Hin. rewrite Forall_forall in H. apply H in Hin. discriminate.
Qed.

Lemma number_within lo hi path q :
  (inject_Z (Z.of_nat lo) <= q /\ q <= inject_Z (Z.of_nat hi))%Q ->
  Zod.number_min_max lo hi path (Some (JNum q)) = inr q.
Proof.
  intros [Hlo Hhi]. unfold Zod.number_min_max.
  apply Qle_bool_iff in Hlo. apply Qle_bool_iff in Hhi. now rewrite Hlo, Hhi.
Qed.

(** C9. Every message fetch issued by read-messages carries a limit
    between 1 and 100, which is 50 when the arguments have no [limit];
    every fetch issued by read-multiple-channels carries a limit between
    1 and 50, which is 10 when the arguments have no [limitPerChannel].
    Arguments without the limit are accepted and run with the default,
    and a limit within the range is used as given: read-messages on a
    channel that resolves issues its fetch with 50, or with the given
    limit; read-multiple-channels over all text channels reads each
    with 10, or with the given limit.  On any arguments, leaving the
    limit out is the same run (log and result) as giving the
    default. *)
Theorem limits_within_bounds client array_sort flags args channel limit :
  (In (CMessagesFetch channel limit)
      (calls (callTool client array_sort flags "read-messages" args)) ->
   (1 <= limit /\ limit <= 100)%Q /\
   (forall data, args = Some (JObj data) -> prop "limit" data = None -> limit = 50%Q)) /\
  (In (CMessagesFetch channel limit)
      (calls (callTool client array_sort flags "read-multiple-channels" args)) ->
   (1 <= limit /\ limit <= 50)%Q /\
   (forall data, args = Some (JObj data) -> prop "limitPerChannel" data = None ->
                 limit = 10%Q)) /\
  (forall data name server log target used,
     prop "channel" data = Some (JStr name) ->
     Zod.optional Zod.string [PKey "server"] (prop "server" data) = inr server ->
     prop "limit" data = None /\ used = 50%Q \/
     prop "limit" data = Some (JNum used) /\ (1 <= used /\ used <= 100)%Q ->
     findChannel client name server = (log, Returned target) ->
     calls (callTool client array_sort flags "read-messages" (Some (JObj data))) =
     (log ++ [CMessagesFetch (ch_id target) used])%list) /\
  (forall data server log guild used,
     prop "channels" data = None ->
     Zod.optional Zod.string [PKey "server"] (prop "server" data) = inr server ->
     prop "limitPerChannel" data = None /\ used = 10%Q \/
     prop "limitPerChannel" data = Some (JNum used) /\ (1 <= used /\ used <= 50)%Q ->
     findGuild client server = (log, Returned guild) ->
     calls (callTool client array_sort flags "read-multiple-channels"
              (Some (JObj data))) =
     (log ++ map (fun c => CMessagesFetch (ch_id c) used)
                 (filter isTextChannel (g_channels guild)))%list) /\
  (forall data,
     prop "limit" data = None ->
     callTool client array_sort flags "read-messages" (Some (JObj data)) =
     callTool client array_sort flags "read-messages"
       (Some (JObj (("limit", JNum 50) :: data)))) /\
  (forall data,
     prop "limitPerChannel" data = None ->
     callTool client array_sort flags "read-multiple-channels" (Some (JObj data)) =
     callTool client array_sort flags "read-multiple-channels"
       (Some (JObj (("limitPerChannel", JNum 10) :: data)))).
Proof.
  rewrite !calls_callTool. split; [|split; [|split; [|split; [|split]]]].
  - change (handler client array_sort flags "read-messages" args)
      with (read_messages client args).
    unfold read_messages, Zod.parse.
    destruct (ReadMessagesSchema [] args) as [issues|a] eqn:Hparse;
      [intros []|].
    rewrite calls_bind. unfold calls at 1, outcome at 1; simpl.
    rewrite calls_bind. intros Hin. apply in_app_or in Hin as [Hin|Hin].
    + exfalso. revert Hin. apply resolution_not_messages_fetch.
      apply findChannel_resolves_only.
    + destruct (outcome (findChannel _ _ _)) as [ch|e]; [|destruct Hin].
      assert (Hl : limit = rm_limit a).
      { destruct (messages_fetch client ch (rm_limit a));
          destruct Hin as [Hin|[]]; now inversion Hin. }
      subst limit. now apply ReadMessagesSchema_limit.
  - change (handler client array_sort flags "read-multiple-channels" args)
      with (read_multiple_channels client array_sort args).
    unfold read_multiple_channels, Zod.parse.
    destruct (ReadMultipleChannelsSchema [] args) as [issues|a] eqn:Hparse;
      [intros []|].
    rewrite calls_bind. unfold calls at 1, outcome at 1; simpl.
    rewrite calls_bind. intros Hin. apply in_app_or in Hin as [Hin|Hin].
    { exfalso. revert Hin. apply resolution_not_messages_fetch.
      apply findGuild_resolves_only. }
    destruct (outcome (findGuild _ _)) as [guild|e]; [|destruct Hin].
    rewrite calls_bind in Hin. apply in_app_or in Hin as [Hin|Hin].
    { exfalso. revert Hin. apply resolution_not_messages_fetch.
      destruct (rmc_channels a) as [[|id ids]|]; try apply resolves_only_ret.
      apply promise_all_resolves_only. intros x. apply findChannel_resolves_only. }
    match type of Hin with
    | In _ (match ?o with _ => _ end) => destruct o as [targets|e]; [|destruct Hin]
    end.
    destruct targets as [|c cs]; [destruct Hin|].
    rewrite gather_run in Hin. unfold bind, calls in Hin. simpl in Hin.
    rewrite app_nil_r in Hin.
    assert (Hl : limit = rmc_limitPerChannel a).
    { destruct Hin as [Hin|Hin]; [now inversion Hin|].
      apply in_map_iff in Hin as (c' & Hc' & _). now inversion Hc'. }
    subst limit. now apply ReadMultipleChannelsSchema_limit.
  - intros data name server log target used Hname Hserver Hlimit Hch.
    rewrite calls_callTool.
    change (handler client array_sort flags "read-messages" (Some (JObj data)))
      with (read_messages client (Some (JObj data))).
    assert (Hparse : ReadMessagesSchema [] (Some (JObj data)) =
                     inr {| rm_server := server; rm_channel := name; rm_limit := used |}).
    { unfold ReadMessagesSchema, Zod.object, server_key. unfold Zod.key. simpl.
      rewrite Hserver, Hname. simpl.
      destruct Hlimit as [[-> ->]|[-> Hrange]]; [reflexivity|].
      unfold Zod.default. now rewrite (number_within 1 100 _ used Hrange). }
    unfold read_messages, Zod.parse. rewrite Hparse. simpl. rewrite Hch. simpl.
    unfold calls.
    destruct (messages_fetch client target used); simpl; now rewrite ?app_nil_r.
  - intros data server log guild used Hchannels Hserver Hlimit Hg.
    rewrite calls_callTool.
    change (handler client array_sort flags "read-multiple-channels" (Some (JObj data)))
      with (read_multiple_channels client array_sort (Some (JObj data))).
    assert (Hparse : ReadMultipleChannelsSchema [] (Some (JObj data)) =
                     inr {| rmc_server := server; rmc_channels := None;
                            rmc_limitPerChannel := used |}).
    { unfold ReadMultipleChannelsSchema, Zod.object, server_key. unfold Zod.key. simpl.
      rewrite Hserver, Hchannels. simpl.
      destruct Hlimit as [[-> ->]|[-> Hrange]]; [reflexivity|].
      unfold Zod.default. now rewrite (number_within 1 50 _ used Hrange). }
    unfold read_multiple_channels, Zod.parse. rewrite Hparse. simpl. rewrite Hg. simpl.
    destruct (filter isTextChannel (g_channels guild)) as [|c cs] eqn:Ht.
    + unfold calls; simpl. now rewrite ?app_nil_r.
    + rewrite gather_run. unfold calls; simpl. now rewrite ?app_nil_r.
  - intros data Hlimit. unfold callTool. f_equal.
    change (handler client array_sort flags "read-messages" ?x)
      with (read_messages client x).
    unfold read_messages, Zod.parse. f_equal.
    unfold ReadMessagesSchema, Zod.object, server_key. unfold Zod.key.
    simpl. now rewrite Hlimit.
  - intros data Hlimit. unfold callTool. f_equal.
    change (handler client array_sort flags "read-multiple-channels" ?x)
      with (read_multiple_channels client array_sort x).
    unfold read_multiple_channels, Zod.parse. f_equal.
    unfold ReadMultipleChannelsSchema, Zod.object, server_key. unfold Zod.key.
    simpl. now rewrite Hlimit.
Qed.

(** ** Guards before mutation *)

Lemma resolver_log_pure {A} (m : M A) log r :
  resolves_only m -> m = (log, r) -> existsb is_mutation log = false.
Proof.
  intros H E. apply resolution_not_mutation. unfold resolves_only, calls in H.
  now rewrite E in H.
Qed.

Lemma has_role_In member role :
  has_role member role = true <-> In (role_id role) (m_roles member).
Proof.
  unfold has_role. rewrite existsb_exists. split.
  - intros (id & Hin & Heq). apply String.eqb_eq in Heq. now subst id.
  - intros Hin. exists (role_id role). split; [assumption | apply String.eqb_refl].
Qed.

(** Closes [existsb is_mutation log = false] for a log made of resolver
    logs found among the hypotheses. *)
Ltac pure_log :=
  rewrite ?existsb_app; simpl;
  repeat match goal with
    | H : findGuild _ _ = (?log, _) |- context [existsb is_mutation ?log] =>
        rewrite (resolver_log_pure _ _ _ (findGuild_resolves_only _ _) H)
    | H : findMember _ _ _ = (?log, _) |- context [existsb is_mutation ?log] =>
        rewrite (resolver_log_pure _ _ _ (findMember_resolves_only _ _ _) H)
    | H : findRole _ _ _ = (?log, _) |- context [existsb is_mutation ?log] =>
        rewrite (resolver_log_pure _ _ _ (findRole_resolves_only _ _ _) H)
    end;
  reflexivity.

(** C10. When the update-role arguments parse and carry none of
    [newName], [newColor], [newPermissions], [newMentionable], and the
    server and the role resolve, the tool throws "No update parameters
    provided for the role." and its log holds no mutation call: no
    [role.edit] is issued. *)
Theorem update_role_without_updates client array_sort flags data a guild role log1 log2 :
  UpdateRoleSchema [] (Some (JObj data)) = inr a ->
  prop "newName" data = None ->
  prop "newColor" data = None ->
  prop "newPermissions" data = None ->
  prop "newMentionable" data = None ->
  findGuild client (ua_server a) = (log1, Returned guild) ->
  findRole client (ua_role a) (Some (g_id guild)) = (log2, Returned role) ->
  let run := callTool client array_sort flags "update-role" (Some (JObj data)) in
  outcome run =
    Threw (JsError "Tool execution failed: No update parameters provided for the role.") /\
  existsb is_mutation (calls run) = false.
Proof.
  intros Hparse Hn Hc Hp Hm Hg Hr run. subst run.
  rewrite outcome_callTool, calls_callTool.
  change (handler client array_sort flags "update-role" (Some (JObj data)))
    with (update_role client flags (Some (JObj data))).
  unfold update_role, Zod.parse. rewrite Hparse.
  unfold UpdateRoleSchema, Zod.object in Hparse.
  apply key_inr in Hparse as (f5 & m & Hparse & Em & ->).
  apply key_inr in Hparse as (f4 & p & Hparse & Ep & ->).
  apply key_inr in Hparse as (f3 & c & Hparse & Ec & ->).
  apply key_inr in Hparse as (f2 & n & Hparse & En & ->).
  apply key_inr in Hparse as (f1 & r & Hparse & _ & ->).
  apply key_inr in Hparse as (f0 & s & Hparse & _ & ->).
  inversion Hparse; subst f0. simpl in *.
  rewrite Hn in En. rewrite Hc in Ec. rewrite Hp in Ep. rewrite Hm in Em.
  inversion En; inversion Ec; inversion Ep; inversion Em; subst n c p m.
  rewrite Hg. simpl. rewrite Hr. simpl. unfold outcome, calls; simpl.
  split; [reflexivity | pure_log].
Qed.

(** C7. Each mutating tool checks its guard before the remote call.
    With the arguments parsed and the entities resolved: assign-role for
    a member who holds the role throws "already has the role";
    remove-role for a member who lacks it throws "does not have the
    role"; create-channel when a text channel of the server has the same
    name up to case throws "A text channel named ... already exists";
    create-role when a role of the server has the same name up to case
    throws "A role named ... already exists".  In all four cases the log
    holds no mutation call. *)
Theorem guards_before_mutation client array_sort flags :
  (forall args a guild member role log1 log2 log3,
     AssignRoleSchema [] args = inr a ->
     findGuild client (ur_server a) = (log1, Returned guild) ->
     findMember client (ur_user a) (Some (g_id guild)) = (log2, Returned member) ->
     findRole client (ur_role a) (Some (g_id guild)) = (log3, Returned role) ->
     In (role_id role) (m_roles member) ->
     let run := callTool client array_sort flags "assign-role" args in
     outcome run =
       Threw (JsError ("Tool execution failed: User " ++ m_tag member
                         ++ " already has the role " ++ JS.quoted (role_name role) ++ "."))
     /\ existsb is_mutation (calls run) = false) /\
  (forall args a guild member role log1 log2 log3,
     RemoveRoleSchema [] args = inr a ->
     findGuild client (ur_server a) = (log1, Returned guild) ->
     findMember client (ur_user a) (Some (g_id guild)) = (log2, Returned member) ->
     findRole client (ur_role a) (Some (g_id guild)) = (log3, Returned role) ->
     ~ In (role_id role) (m_roles member) ->
     let run := callTool client array_sort flags "remove-role" args in
     outcome run =
       Threw (JsError ("Tool execution failed: User " ++ m_tag member
                         ++ " does not have the role " ++ JS.quoted (role_name role) ++ "."))
     /\ existsb is_mutation (calls run) = false) /\
  (forall args a guild log existing,
     CreateChannelSchema [] args = inr a ->
     findGuild client (cc_server a) = (log, Returned guild) ->
     In existing (g_channels guild) ->
     ch_type existing = GuildText ->
     toLowerCase (ch_name existing) = toLowerCase (cc_channelName a) ->
     let run := callTool client array_sort flags "create-channel" args in
     outcome run =
       Threw (JsError ("Tool execution failed: A text channel named "
                         ++ JS.quoted (cc_channelName a) ++ " already exists in server "
                         ++ JS.quoted (g_name guild) ++ "."))
     /\ existsb is_mutation (calls run) = false) /\
  (forall args a guild log existing,
     CreateRoleSchema [] args = inr a ->
     findGuild client (cr_server a) = (log, Returned guild) ->
     In existing (g_roles guild) ->
     toLowerCase (role_name existing) = toLowerCase (cr_roleName a) ->
     let run := callTool client array_sort flags "create-role" args in
     outcome run =
       Threw (JsError ("Tool execution failed: A role named "
                         ++ JS.quoted (cr_roleName a) ++ " already exists in server "
                         ++ JS.quoted (g_name guild) ++ "."))
     /\ existsb is_mutation (calls run) = false).
Proof.
  split; [|split; [|split]].
  - intros args a guild member role log1 log2 log3 Hp Hg Hm Hr Hin run. subst run.
    rewrite outcome_callTool, calls_callTool.
    change (handler client array_sort flags "assign-role" args)
      with (assign_role client args).
    unfold assign_role, Zod.parse. rewrite Hp. simpl. rewrite Hg. simpl.
    rewrite Hm. simpl. rewrite Hr. simpl.
    apply has_role_In in Hin. rewrite Hin. unfold outcome, calls; simpl.
    split; [reflexivity | pure_log].
  - intros args a guild member role log1 log2 log3 Hp Hg Hm Hr Hin run. subst run.
    rewrite outcome_callTool, calls_callTool.
    change (handler client array_sort flags "remove-role" args)
      with (remove_role client args).
    unfold remove_role, Zod.parse. rewrite Hp. simpl. rewrite Hg. simpl.
    rewrite Hm. simpl. rewrite Hr. simpl.
    destruct (has_role member role) eqn:Hhas;
      [apply has_role_In in Hhas; contradiction|].
    unfold outcome, calls; simpl. split; [reflexivity | pure_log].
  - intros args a guild log existing Hp Hg Hin Htext Hname run. subst run.
    rewrite outcome_callTool, calls_callTool.
    change (handler client array_sort flags "create-channel" args)
      with (create_channel client args).
    unfold create_channel, Zod.parse, JS.find. rewrite Hp. simpl. rewrite Hg. simpl.
    destruct (find _ (g_channels guild)) eqn:Hfind.
    + unfold outcome, calls; simpl. split; [reflexivity | pure_log].
    + apply (find_none _ _ Hfind) in Hin. simpl in Hin.
      rewrite Htext, Hname, String.eqb_refl in Hin. discriminate.
  - intros args a guild log existing Hp Hg Hin Hname run. subst run.
    rewrite outcome_callTool, calls_callTool.
    change (handler client array_sort flags "create-role" args)
      with (create_role client flags args).
    unfold create_role, Zod.parse, JS.find. rewrite Hp. simpl. rewrite Hg. simpl.
    destruct (find _ (g_roles guild)) eqn:Hfind.
    + unfold outcome, calls; simpl. split; [reflexivity | pure_log].
    + apply (find_none _ _ Hfind) in Hin. simpl in Hin.
      rewrite Hname, String.eqb_refl in Hin. discriminate.
Qed.

(** ** Validation comes first *)

Lemma reports_here {B} (sh : Zod.Shape (string -> B)) (k : string) data :
  prop k data = None -> reports (Zod.key sh k Zod.string [] data) k.
Proof.
  intros Hk. unfold Zod.key. rewrite Hk. simpl.
  destruct (sh [] data) as [i|f]; simpl.
  - apply in_or_app. right. now left.
  - now left.
Qed.

Lemma reports_later {A B} (sh : Zod.Shape (A -> B)) k (s : Zod.Schema A) data f :
  reports (sh [] data) f -> reports (Zod.key sh k s [] data) f.
Proof.
  unfold Zod.key. destruct (sh [] data) as [i|g]; simpl; [|intros []].
  intros Hin. destruct (s _ _); simpl; [apply in_or_app; now left | assumption].
Qed.

Lemma required_issue_string f : issue_string (required_issue f) = f ++ ": Required".
Proof. reflexivity. Qed.

(** A tool whose schema is [Zod.object shape] and whose first statement
    parses the arguments: a missing required key stops it there. *)
Lemma missing_key_stops {A} (shape : Zod.Shape A) (k : A -> M Content)
  (required : list string) data f :
  In f required -> prop f data = None ->
  (forall f', In f' required -> prop f' data = None -> reports (shape [] data) f') ->
  exists issues,
    bind (Zod.parse (Zod.object shape) (Some (JObj data))) k = ([], Threw (ZodError issues)) /\
    forall f', In f' required -> prop f' data = None ->
               In (f' ++ ": Required") (map issue_string issues).
Proof.
  intros Hf Hnone R. unfold Zod.parse, Zod.object.
  pose proof (R f Hf Hnone) as Rf.
  destruct (shape [] data) as [issues|a]; [|destruct Rf].
  exists issues. split; [reflexivity|].
  intros f' Hf' Hnone'. rewrite <- required_issue_string.
  apply in_map. exact (R f' Hf' Hnone').
Qed.

Ltac missing_key :=
  let f' := fresh "f" in
  let Hf := fresh "Hf" in
  let Hn := fresh "Hn" in
  intros f' Hf Hn; simpl in Hf;
  repeat match type of Hf with
    | _ \/ _ => destruct Hf as [Hf|Hf]
    end;
  try contradiction; subst f';
  repeat first [ apply reports_here; exact Hn | apply reports_later ].

Lemma never_zod_ret {A} (a : A) : never_zod (ret a).
Proof. intros issues. discriminate. Qed.

Lemma never_zod_throw {A} message : never_zod (@throw A (JsError message)).
Proof. intros issues. discriminate. Qed.

Lemma never_zod_await {A} c (answer : Rejection + A) : never_zod (await c answer).
Proof. intros issues. destruct answer as [[m|]|a]; discriminate. Qed.

Lemma never_zod_await_fetched {A} c (answer : Fetched A) :
  never_zod (await_fetched c answer).
Proof. intros issues. destruct answer as [[m|]|v]; discriminate. Qed.

Lemma never_zod_bind {A B} (m : M A) (k : A -> M B) :
  never_zod m -> (forall a, never_zod (k a)) -> never_zod (bind m k).
Proof.
  intros Hm Hk issues. rewrite outcome_bind.
  destruct (outcome m) as [a|e] eqn:E; [apply Hk|].
  intros H. apply (Hm issues). congruence.
Qed.

Lemma never_zod_try_catch {A} (m : M A) (h : Thrown -> M A) :
  (forall e, never_zod (h e)) -> never_zod (try_catch m h).
Proof.
  intros Hh issues. destruct m as [log [a|e]]; unfold outcome; simpl; [discriminate|].
  specialize (Hh e issues). unfold outcome in Hh. now destruct (h e).
Qed.

Create HintDb js_zod.
#[local] Hint Resolve never_zod_ret never_zod_throw never_zod_await
  never_zod_await_fetched : js_zod.

Ltac step_zod :=
  repeat first
    [ solve [auto with js_zod]
    | apply never_zod_bind; [|intros ?]
    | apply never_zod_try_catch; intros ?
    | progress cbv zeta
    | match goal with
      | |- never_zod (match ?x with _ => _ end) => destruct x
      | |- never_zod (if ?b then _ else _) => destruct b
      end ].

Lemma findGuild_never_zod client gid : never_zod (findGuild client gid).
Proof. unfold findGuild. step_zod. Qed.

#[local] Hint Resolve findGuild_never_zod : js_zod.

Lemma findChannel_never_zod client cid gid : never_zod (findChannel client cid gid).
Proof. unfold findChannel. step_zod. Qed.

Lemma findRole_never_zod client rid gid : never_zod (findRole client rid gid).
Proof. unfold findRole. step_zod. Qed.

Lemma findMember_never_zod client uid gid : never_zod (findMember client uid gid).
Proof. unfold findMember. step_zod. Qed.

Lemma validatePermissions_never_zod flags ps : never_zod (validatePermissions flags ps).
Proof. induction ps as [|p ps IH]; simpl; step_zod. Qed.

Lemma promise_all_never_zod {A B} (f : A -> M B) xs :
  (forall x, never_zod (f x)) -> never_zod (promise_all f xs).
Proof. intros Hf. induction xs as [|x xs IH]; simpl; step_zod. Qed.

Lemma gather_never_zod client limit targets : never_zod (gather client limit targets).
Proof. rewrite gather_run. intros issues. discriminate. Qed.

#[local] Hint Resolve findChannel_never_zod findRole_never_zod findMember_never_zod
  validatePermissions_never_zod gather_never_zod : js_zod.

(** After a successful parse nothing throws a [ZodError], so a tool that
    threw one stopped at its first statement. *)
Lemma zod_error_stops {A B} (s : Zod.Schema A) args (k : A -> M B) issues :
  (forall a, never_zod (k a)) ->
  outcome (bind (Zod.parse s args) k) = Threw (ZodError issues) ->
  calls (bind (Zod.parse s args) k) = [].
Proof.
  intros Hk. unfold Zod.parse. destruct (s [] args) as [i|a]; [reflexivity|].
  intros H. exfalso. apply (Hk a issues). rewrite outcome_bind in H. exact H.
Qed.

Lemma handler_zod_error_stops client array_sort flags name args issues :
  outcome (handler client array_sort flags name args) = Threw (ZodError issues) ->
  calls (handler client array_sort flags name args) = [].
Proof.
  unfold handler.
  repeat match goal with
    | |- context [if String.eqb name ?s then _ else _] => destruct (String.eqb name s)
    end;
  try (apply zod_error_stops; intros a; step_zod;
       apply promise_all_never_zod; intros x; apply findChannel_never_zod).
  discriminate.
Qed.

Ltac stop_at_parse required data f Hf Hnone :=
  match goal with
  | |- context [bind (Zod.parse (Zod.object ?shape) _) ?k] =>
      let issues := fresh "issues" in
      let E := fresh "E" in
      let Hall := fresh "Hall" in
      destruct (missing_key_stops shape k required data f Hf Hnone)
        as (issues & E & Hall);
      [ missing_key
      | exists issues; rewrite E; repeat split; exact Hall ]
  end.

(** C8. For every declared tool, arguments that lack one of its required
    fields stop the tool at schema validation: no resolver or
    collaborator call is logged, and the request fails with "Invalid
    arguments: " followed by all issues of the schema joined by ", ",
    among them "<field>: Required" for every required field that is
    missing.  For any tool name and any arguments, a validation error
    means that no call was made and leaves as an "Invalid arguments"
    error. *)
Theorem validation_before_resolution client array_sort flags name required data f :
  In (name, required) tools ->
  In f required ->
  prop f data = None ->
  (exists issues,
     handler client array_sort flags name (Some (JObj data)) =
       ([], Threw (ZodError issues)) /\
     callTool client array_sort flags name (Some (JObj data)) =
       ([], Threw (JsError
              ("Invalid arguments: " ++ JS.join ", " (map issue_string issues)))) /\
     (forall f', In f' required -> prop f' data = None ->
                 In (f' ++ ": Required") (map issue_string issues))) /\
  (forall name' args issues,
     outcome (handler client array_sort flags name' args) = Threw (ZodError issues) ->
     callTool client array_sort flags name' args =
       ([], Threw (JsError
              ("Invalid arguments: " ++ JS.join ", " (map issue_string issues))))).
Proof.
  intros Htool Hf Hnone. split.
  - unfold callTool. simpl in Htool.
    repeat match type of Htool with
      | _ \/ _ => destruct Htool as [Htool|Htool]
      end;
    try contradiction; inversion Htool; subst name required; clear Htool;
    try contradiction.
    + change (handler client array_sort flags "send-message" (Some (JObj data)))
        with (send_message client (Some (JObj data))).
      unfold send_message, SendMessageSchema, server_key.
      stop_at_parse ["channel"; "message"] data f Hf Hnone.
    + change (handler client array_sort flags "read-messages" (Some (JObj data)))
        with (read_messages client (Some (JObj data))).
      unfold read_messages, ReadMessagesSchema, server_key.
      stop_at_parse ["channel"] data f Hf Hnone.
    + change (handler client array_sort flags "create-channel" (Some (JObj data)))
        with (create_channel client (Some (JObj data))).
      unfold create_channel, CreateChannelSchema, server_key.
      stop_at_parse ["channelName"] data f Hf Hnone.
    + change (handler client array_sort flags "assign-role" (Some (JObj data)))
        with (assign_role client (Some (JObj data))).
      unfold assign_role, AssignRoleSchema, server_key.
      stop_at_parse ["user"; "role"] data f Hf Hnone.
    + change (handler client array_sort flags "remove-role" (Some (JObj data)))
        with (remove_role client (Some (JObj data))).
      unfold remove_role, RemoveRoleSchema, server_key.
      stop_at_parse ["user"; "role"] data f Hf Hnone.
    + change (handler client array_sort flags "create-role" (Some (JObj data)))
        with (create_role client flags (Some (JObj data))).
      unfold create_role, CreateRoleSchema, server_key.
      stop_at_parse ["roleName"] data f Hf Hnone.
    + change (handler client array_sort flags "delete-role" (Some (JObj data)))
        with (delete_role client (Some (JObj data))).
      unfold delete_role, DeleteRoleSchema, server_key.
      stop_at_parse ["role"] data f Hf Hnone.
    + change (handler client array_sort flags "update-role" (Some (JObj data)))
        with (update_role client flags (Some (JObj data))).
      unfold update_role, UpdateRoleSchema, server_key.
      stop_at_parse ["role"] data f Hf Hnone.
    + change (handler client array_sort flags "get-role-member-count" (Some (JObj data)))
        with (get_role_member_count client (Some (JObj data))).
      unfold get_role_member_count, GetRoleMemberCountSchema, server_key.
      stop_at_parse ["role"] data f Hf Hnone.
  - intros name' args issues Hz.
    pose proof (handler_zod_error_stops _ _ _ _ _ _ Hz) as Hc.
    unfold callTool. destruct (handler client array_sort flags name' args) as [log r].
    unfold outcome, calls in *. simpl in *. subst log r. reflexivity.
Qed.

(** ** Reading several channels *)

(** The items gathered for one target channel. *)
Lemma in_gathered client limit targets o :
  In o (flat_map (fun c => match messages_fetch client c limit with
                           | inr messages => map (formatMessage c) messages
                           | inl e => [errorEntry c (thrown_of e)]
                           end) targets) <->
  exists c, In c targets /\
            match messages_fetch client c limit with
            | inr messages => exists m, In m messages /\ o = formatMessage c m
            | inl e => o = errorEntry c (thrown_of e)
            end.
Proof.
  rewrite in_flat_map. split; intros (c & Hc & H); exists c; (split; [exact Hc|]);
    destruct (messages_fetch client c limit) as [e|messages].
  - destruct H as [H|[]]. now symmetry.
  - apply in_map_iff in H as (m & E & Hm). exists m. now split.
  - left. now symmetry.
  - destruct H as (m & Hm & ->). now apply in_map.
Qed.

(** C1, as the code has it.  With an explicit, non-empty list of
    channels and a sort that permutes its input: when every listed
    channel resolves, the tool returns, and its items are, up to order,
    the formatted messages of every channel whose read succeeded
    together with one error entry for every channel whose read failed;
    when a listed channel fails to resolve, the whole tool throws that
    resolution error, normalized. *)
Theorem read_multiple_partial_failure client array_sort flags args a guild log ids :
  (forall cmp l, Permutation (array_sort cmp l) l) ->
  ReadMultipleChannelsSchema [] args = inr a ->
  findGuild client (rmc_server a) = (log, Returned guild) ->
  rmc_channels a = Some ids ->
  ids <> [] ->
  let run := callTool client array_sort flags "read-multiple-channels" args in
  let resolution :=
    promise_all (fun id => findChannel client id (Some (g_id guild))) ids in
  let limit := rmc_limitPerChannel a in
  (forall targets,
     outcome resolution = Returned targets ->
     exists header body,
       outcome run = Returned (TextJson header body) /\
       (forall c messages m,
          In c targets -> messages_fetch client c limit = inr messages ->
          In m messages -> In (formatMessage c m) body) /\
       (forall c e,
          In c targets -> messages_fetch client c limit = inl e ->
          In (errorEntry c (thrown_of e)) body) /\
       Permutation body
         (flat_map (fun c => match messages_fetch client c limit with
                             | inr messages => map (formatMessage c) messages
                             | inl e => [errorEntry c (thrown_of e)]
                             end) targets)) /\
  (forall e, outcome resolution = Threw e -> outcome run = Threw (normalize e)).
Proof.
  intros Hperm Hparse Hg Hids Hne run resolution limit.
  assert (E : outcome (handler client array_sort flags "read-multiple-channels" args) =
              match outcome resolution with
              | Returned targets =>
                  Returned
                    (TextJson ("Fetched messages from " ++ JS.of_nat (length targets)
                                 ++ " channel(s) in " ++ JS.quoted (g_name guild) ++ ":"
                                 ++ JS.newline)
                       (array_sort compareFn
                          (flat_map (fun c => match messages_fetch client c limit with
                                              | inr messages => map (formatMessage c) messages
                                              | inl e => [errorEntry c (thrown_of e)]
                                              end) targets)))
              | Threw e => Threw e
              end).
  { change (handler client array_sort flags "read-multiple-channels" args)
      with (read_multiple_channels client array_sort args).
    unfold read_multiple_channels.
    rewrite (outcome_bind_returned _ _ [] a)
      by (unfold Zod.parse; now rewrite Hparse).
    rewrite (outcome_bind_returned _ _ log guild Hg), Hids.
    destruct ids as [|id ids']; [now contradiction Hne|].
    rewrite outcome_bind. fold resolution.
    destruct (outcome resolution) as [targets|e] eqn:Hres; [|reflexivity].
    apply promise_all_length in Hres.
    destruct targets as [|c cs]; [discriminate Hres|].
    rewrite outcome_bind, gather_run. reflexivity. }
  subst run. rewrite outcome_callTool, E. split.
  - intros targets Hres. rewrite Hres. eexists. eexists. split; [reflexivity|].
    repeat split.
    + intros c messages m Hc Hfetch Hm.
      apply (Permutation_in _ (Permutation_sym (Hperm _ _))).
      apply in_gathered. exists c. split; [exact Hc|]. rewrite Hfetch.
      exists m. now split.
    + intros c e Hc Hfetch.
      apply (Permutation_in _ (Permutation_sym (Hperm _ _))).
      apply in_gathered. exists c. split; [exact Hc|]. now rewrite Hfetch.
    + apply Hperm.
  - intros e Hres. now rewrite Hres.
Qed.

(** * Further properties of the resolvers *)

(** With an identifier, [findGuild] asks for the server by ID once: the
    server the fetch resolves with is returned as it is; when the fetch
    is rejected, the joined servers whose name equals the identifier up
    to case decide: one is returned, none throws "not found" listing all
    joined servers, several throw "Multiple servers found" listing each
    as [name (ID: id)]. *)
Theorem findGuild_by_identifier client id :
  id <> "" ->
  calls (findGuild client (Some id)) = [CGuildsFetch id] /\
  (forall g, guilds_fetch client id = Resolved (Some g) ->
             outcome (findGuild client (Some id)) = Returned g) /\
  (forall e, guilds_fetch client id = Rejected e ->
     let matches :=
       filter (fun g => String.eqb (toLowerCase (g_name g)) (toLowerCase id))
              (guilds_cache client) in
     (forall g, matches = [g] -> outcome (findGuild client (Some id)) = Returned g) /\
     (matches = [] ->
      outcome (findGuild client (Some id)) =
      Threw (JsError
        ("Server " ++ JS.quoted id ++ " not found. Available servers: "
           ++ JS.join ", " (map (fun g => JS.quoted (g_name g)) (guilds_cache client))))) /\
     ((2 <= length matches)%nat ->
      outcome (findGuild client (Some id)) =
      Threw (JsError
        ("Multiple servers found with name " ++ JS.quoted id ++ ": "
           ++ JS.join ", " (map (fun g => g_name g ++ " (ID: " ++ g_id g ++ ")") matches)
           ++ ". Please specify the server ID.")))).
Proof.
  intros Hid. split.
  - rewrite findGuild_calls. simpl. destruct id; [now contradiction Hid | reflexivity].
  - destruct id as [|a id]; [now contradiction Hid|]. unfold findGuild, outcome. split.
    + intros g Hf. rewrite Hf. reflexivity.
    + intros e Hf. rewrite Hf. cbv zeta. simpl. unfold guild_names.
      destruct (filter _ (guilds_cache client)) as [|g0 [|g1 gs]]; simpl;
        repeat split; try discriminate; try lia; try reflexivity.
      intros g Hm. now inversion Hm.
Qed.

(** The first element a [find] returns: nothing before it satisfies the
    test. *)
Lemma find_first {A} (p : A -> bool) xs x :
  List.find p xs = Some x ->
  p x = true /\
  exists before after, xs = (before ++ x :: after)%list /\
                       forall y, In y before -> p y = false.
Proof.
  induction xs as [|y xs IH]; simpl; [discriminate|].
  destruct (p y) eqn:Hy.
  - intros H. inversion H; subst y. split; [exact Hy|].
    exists [], xs. split; [reflexivity | intros z []].
  - intros H. destruct (IH H) as (Hx & before & after & -> & Hb).
    split; [exact Hx|]. exists (y :: before), after. split; [reflexivity|].
    intros z [<-|Hz]; [exact Hy | now apply Hb].
Qed.

(** A role found in the cache is returned without any refresh: by ID
    first; otherwise the first cached role, in cache order, whose name
    equals the identifier up to case, whether or not other roles share
    that name. *)
Theorem findRole_cache_hit client rid gid guild log :
  findGuild client gid = (log, Returned guild) ->
  (forall role, roles_get rid (g_roles guild) = Some role ->
     findRole client rid gid = (log, Returned role) /\ role_id role = rid) /\
  (forall role,
     roles_get rid (g_roles guild) = None ->
     roles_find_name rid (g_roles guild) = Some role ->
     findRole client rid gid = (log, Returned role) /\
     toLowerCase (role_name role) = toLowerCase rid /\
     exists before after,
       g_roles guild = (before ++ role :: after)%list /\
       forall r, In r before -> toLowerCase (role_name r) <> toLowerCase rid).
Proof.
  intros Hg. split.
  - intros role Hget. split.
    + unfold findRole. rewrite Hg. simpl. rewrite Hget. simpl.
      now rewrite app_nil_r.
    + apply find_first in Hget as [Hp _]. now apply String.eqb_eq in Hp.
  - intros role Hget Hname. split; [|].
    + unfold findRole. rewrite Hg. simpl. rewrite Hget, Hname. simpl.
      now rewrite app_nil_r.
    + apply find_first in Hname as (Hp & before & after & E & Hb).
      split; [now apply String.eqb_eq in Hp|].
      exists before, after. split; [exact E|].
      intros r Hr. apply Hb in Hr. now apply String.eqb_neq in Hr.
Qed.

(** The server is resolved first: when [findGuild] throws, the three
    scoped resolvers throw the same value and issue no further call. *)
Theorem guild_failure_stops_resolvers client gid log e :
  findGuild client gid = (log, Threw e) ->
  (forall cid, findChannel client cid gid = (log, Threw e)) /\
  (forall rid, findRole client rid gid = (log, Threw e)) /\
  (forall uid, findMember client uid gid = (log, Threw e)).
Proof.
  intros Hg. repeat split; intros x.
  - unfold findChannel. now rewrite Hg.
  - unfold findRole. now rewrite Hg.
  - unfold findMember. now rewrite Hg.
Qed.

Lemma remove_all_app cls s t :
  JS.remove_all cls (s ++ t) = JS.remove_all cls s ++ JS.remove_all cls t.
Proof.
  induction s as [|a s IH]; simpl; [reflexivity|].
  destruct (existsb (Ascii.eqb a) cls); simpl; now rewrite IH.
Qed.

Lemma append_empty_r s : s ++ "" = s.
Proof. induction s as [|a s IH]; simpl; [reflexivity | now rewrite IH]. Qed.

(** A user ID free of mention characters is what remains of its mention
    forms [<@id>] and [<@!id>]. *)
Lemma mention_stripped raw :
  JS.remove_all mention_chars raw = raw ->
  JS.remove_all mention_chars ("<@" ++ raw ++ ">") = raw /\
  JS.remove_all mention_chars ("<@!" ++ raw ++ ">") = raw.
Proof.
  intros H. rewrite !remove_all_app, H. simpl. split; apply append_empty_r.
Qed.

(** The first pass of [findMember].  The identifier is stripped of the
    characters [<], [@], [!], [>] and fetched by ID, so a raw ID and its
    mention forms issue the same fetch; the member that fetch resolves
    with is returned.  When the fetch misses, the cached members decide
    without a refresh: the first whose tag equals the identifier up to
    case, otherwise the first whose nickname or username does. *)
Theorem findMember_first_pass client uid gid guild log :
  findGuild client gid = (log, Returned guild) ->
  let cleaned := JS.remove_all mention_chars uid in
  let lower := toLowerCase uid in
  (forall member,
     members_fetch client guild cleaned = Resolved (Some member) ->
     findMember client uid gid =
     ((log ++ [CMembersFetch (g_id guild) (Some cleaned)])%list, Returned member)) /\
  ((forall member, members_fetch client guild cleaned <> Resolved (Some member)) ->
   (forall member,
      members_find_tag lower (g_members guild) = Some member ->
      findMember client uid gid =
      ((log ++ [CMembersFetch (g_id guild) (Some cleaned)])%list, Returned member)) /\
   (forall member,
      members_find_tag lower (g_members guild) = None ->
      members_find_name lower (g_members guild) = Some member ->
      findMember client uid gid =
      ((log ++ [CMembersFetch (g_id guild) (Some cleaned)])%list, Returned member))) /\
  (forall raw,
     JS.remove_all mention_chars raw = raw ->
     JS.remove_all mention_chars ("<@" ++ raw ++ ">") = raw /\
     JS.remove_all mention_chars ("<@!" ++ raw ++ ">") = raw).
Proof.
  intros Hg cleaned lower. split; [|split].
  - intros member Hf. unfold findMember. rewrite Hg. simpl. fold cleaned.
    rewrite Hf. simpl. now rewrite ?app_nil_r.
  - intros Hmiss. split.
    + intros member Htag. unfold findMember. rewrite Hg. simpl. fold cleaned lower.
      destruct (members_fetch client guild cleaned) as [e|[m|]] eqn:Hf; simpl.
      * rewrite Htag. simpl. now rewrite ?app_nil_r.
      * now contradiction (Hmiss m).
      * rewrite Htag. simpl. now rewrite ?app_nil_r.
    + intros member Htag Hname. unfold findMember. rewrite Hg. simpl.
      fold cleaned lower.
      destruct (members_fetch client guild cleaned) as [e|[m|]] eqn:Hf; simpl.
      * rewrite Htag, Hname. simpl. now rewrite ?app_nil_r.
      * now contradiction (Hmiss m).
      * rewrite Htag, Hname. simpl. now rewrite ?app_nil_r.
  - apply mention_stripped.
Qed.

(** The second pass of [findMember].  When the fetch by ID, the tag
    lookup and the nickname-or-username lookup all miss, the members are
    refreshed exactly once; the refreshed cache is searched by stripped
    ID, then tag, then nickname or username, and only when all three
    miss there, or when the refresh is rejected, "User ... not found" is
    thrown. *)
Theorem findMember_refresh_once client uid gid guild log :
  findGuild client gid = (log, Returned guild) ->
  let cleaned := JS.remove_all mention_chars uid in
  let lower := toLowerCase uid in
  (forall member, members_fetch client guild cleaned <> Resolved (Some member)) ->
  members_find_tag lower (g_members guild) = None ->
  members_find_name lower (g_members guild) = None ->
  let r := findMember client uid gid in
  let not_found :=
    Threw (JsError ("User " ++ JS.quoted uid ++ " not found in server "
                      ++ JS.quoted (g_name guild) ++ ".")) in
  calls r = (log ++ [CMembersFetch (g_id guild) (Some cleaned);
                     CMembersFetch (g_id guild) None])%list /\
  (forall refreshed,
     members_fetch_all client guild = inr refreshed ->
     outcome r =
     match JS.nullish (members_get cleaned refreshed)
             (JS.nullish (members_find_tag lower refreshed)
                         (members_find_name lower refreshed)) with
     | Some member => Returned member
     | None => not_found
     end) /\
  (forall e, members_fetch_all client guild = inl e -> outcome r = not_found).
Proof.
  intros Hg cleaned lower Hmiss Htag Hname r not_found.
  subst r not_found. unfold findMember. rewrite Hg. simpl. fold cleaned lower.
  destruct (members_fetch client guild cleaned) as [e0|[m|]];
    [| now contradiction (Hmiss m) |]; simpl; rewrite Htag, Hname;
    (destruct (members_fetch_all client guild) as [e|refreshed]; simpl;
     [ unfold calls, outcome; simpl; rewrite ?app_nil_r;
       repeat split; try discriminate
     | unfold calls, outcome;
       destruct (JS.nullish (members_get cleaned refreshed) _) eqn:Hn; simpl;
       rewrite ?app_nil_r; repeat split; try discriminate;
       intros refreshed' E; inversion E; subst refreshed'; now rewrite Hn ]).
Qed.

(** ** What the resolvers throw *)

Lemma throws_errors_ret {A} (a : A) : throws_errors (ret a).
Proof. intros e H. discriminate H. Qed.

Lemma throws_errors_throw {A} message : throws_errors (@throw A (JsError message)).
Proof. intros e H. inversion H. now exists message. Qed.

Lemma throws_errors_bind {A B} (m : M A) (k : A -> M B) :
  throws_errors m -> (forall a, throws_errors (k a)) -> throws_errors (bind m k).
Proof.
  intros Hm Hk e. rewrite outcome_bind.
  destruct (outcome m) as [a|e'] eqn:E; [apply Hk|].
  intros H. inversion H; subst e'. now apply Hm.
Qed.

Lemma throws_errors_try_catch {A} (m : M A) (h : Thrown -> M A) :
  (forall e, throws_errors (h e)) -> throws_errors (try_catch m h).
Proof.
  intros Hh e. destruct m as [log [a|e']]; unfold outcome; simpl; [discriminate|].
  specialize (Hh e' e). unfold outcome in Hh. now destruct (h e').
Qed.

Create HintDb js_throw.
#[local] Hint Resolve throws_errors_ret throws_errors_throw : js_throw.

Ltac step_throw :=
  repeat first
    [ solve [auto with js_throw]
    | apply throws_errors_bind; [|intros ?]
    | apply throws_errors_try_catch; intros ?
    | progress cbv zeta
    | match goal with
      | |- throws_errors (match ?x with _ => _ end) => destruct x
      | |- throws_errors (if ?b then _ else _) => destruct b
      end ].

Lemma findGuild_throws_errors client gid : throws_errors (findGuild client gid).
Proof. unfold findGuild. step_throw. Qed.

#[local] Hint Resolve findGuild_throws_errors : js_throw.

(** A rejection met inside a resolver is never passed on: whatever a
    resolver throws is an [Error] with one of the resolver's own
    messages, so the request handler reports it as "Tool execution
    failed: " followed by that message. *)
Theorem resolvers_throw_errors client gid id e :
  outcome (findGuild client gid) = Threw e \/
  outcome (findChannel client id gid) = Threw e \/
  outcome (findRole client id gid) = Threw e \/
  outcome (findMember client id gid) = Threw e ->
  exists message,
    e = JsError message /\
    normalize e = JsError ("Tool execution failed: " ++ message).
Proof.
  assert (Hc : throws_errors (findChannel client id gid))
    by (unfold findChannel; step_throw).
  assert (Hr : throws_errors (findRole client id gid))
    by (unfold findRole; step_throw).
  assert (Hm : throws_errors (findMember client id gid))
    by (unfold findMember; step_throw).
  intros [H|[H|[H|H]]];
    [ apply findGuild_throws_errors in H | apply Hc in H
    | apply Hr in H | apply Hm in H ];
    destruct H as [message ->]; now exists message.
Qed.

(** * Further properties of the tools *)

(** ** Mutating calls *)

Lemma mutations_bind {A B} (m : M A) (k : A -> M B) :
  mutations (bind m k) =
  (mutations m + match outcome m with
                 | Returned a => mutations (k a)
                 | Threw _ => 0
                 end)%nat.
Proof.
  unfold mutations. rewrite calls_bind, filter_app, length_app.
  now destruct (outcome m).
Qed.

Lemma mutations_try_catch {A} (m : M A) (h : Thrown -> M A) :
  mutations (try_catch m h) =
  (mutations m + match outcome m with
                 | Returned _ => 0
                 | Threw e => mutations (h e)
                 end)%nat.
Proof.
  unfold mutations, calls, outcome. destruct m as [log [a|e]]; simpl.
  - now rewrite Nat.add_0_r.
  - destruct (h e) as [log' r]. simpl. now rewrite filter_app, length_app.
Qed.

Lemma resolves_only_pure {A} (m : M A) : resolves_only m -> mutations m = 0%nat.
Proof.
  unfold resolves_only, mutations. induction 1 as [|c log Hc _ IH]; simpl;
    [reflexivity|].
  destruct c; simpl in *; try discriminate; exact IH.
Qed.

Lemma pure_bind {A B} (m : M A) (k : A -> M B) :
  mutations m = 0%nat -> (forall a, mutations (k a) = 0%nat) ->
  mutations (bind m k) = 0%nat.
Proof.
  intros Hm Hk. rewrite mutations_bind, Hm. destruct (outcome m); [apply Hk | reflexivity].
Qed.

Lemma pure_parse {A} (s : Zod.Schema A) args : mutations (Zod.parse s args) = 0%nat.
Proof. unfold mutations. now rewrite calls_parse. Qed.

Lemma pure_validatePermissions flags ps : mutations (validatePermissions flags ps) = 0%nat.
Proof.
  induction ps as [|p ps IH]; simpl; [reflexivity|].
  destruct (flag_value flags p); [|reflexivity].
  apply pure_bind; [exact IH | reflexivity].
Qed.

Lemma pure_gather client limit targets : mutations (gather client limit targets) = 0%nat.
Proof.
  rewrite gather_run. unfold mutations, calls. simpl.
  induction targets as [|c cs IH]; simpl; [reflexivity | exact IH].
Qed.

Lemma pure_await {A} c (answer : Rejection + A) :
  is_mutation c = false -> mutations (await c answer) = 0%nat.
Proof. intros H. unfold mutations, calls, await. simpl. now rewrite H. Qed.

Create HintDb js_pure.
#[local] Hint Resolve pure_parse pure_validatePermissions pure_gather : js_pure.
#[local] Hint Extern 1 (mutations (findGuild _ _) = 0%nat) =>
  apply resolves_only_pure, findGuild_resolves_only : js_pure.
#[local] Hint Extern 1 (mutations (findChannel _ _ _) = 0%nat) =>
  apply resolves_only_pure, findChannel_resolves_only : js_pure.
#[local] Hint Extern 1 (mutations (findRole _ _ _) = 0%nat) =>
  apply resolves_only_pure, findRole_resolves_only : js_pure.
#[local] Hint Extern 1 (mutations (findMember _ _ _) = 0%nat) =>
  apply resolves_only_pure, findMember_resolves_only : js_pure.
#[local] Hint Extern 1 (mutations (promise_all _ _) = 0%nat) =>
  apply resolves_only_pure, promise_all_resolves_only;
  intros ?; apply findChannel_resolves_only : js_pure.
#[local] Hint Extern 1 (mutations (await _ _) = 0%nat) =>
  apply pure_await; reflexivity : js_pure.
#[local] Hint Extern 1 (mutations (ret _) = 0%nat) => reflexivity : js_pure.
#[local] Hint Extern 1 (mutations (throw _) = 0%nat) => reflexivity : js_pure.

Ltac step_pure :=
  repeat first
    [ solve [auto with js_pure]
    | apply pure_bind; [|intros ?]
    | progress cbv zeta
    | match goal with
      | |- mutations (match ?x with _ => _ end) = 0%nat => destruct x
      | |- mutations (if ?b then _ else _) = 0%nat => destruct b
      end ].

(** The tools that read never issue a mutating call, whatever their
    arguments and whatever the collaborator answers. *)
Theorem reading_tools_never_mutate client array_sort flags name args :
  In name ["read-messages"; "list-channels"; "list-servers"; "read-multiple-channels";
           "list-roles"; "get-member-count"; "get-role-member-count"] ->
  existsb is_mutation (calls (callTool client array_sort flags name args)) = false.
Proof.
  intros Hname.
  assert (H0 : mutations (handler client array_sort flags name args) = 0%nat).
  { simpl in Hname.
    repeat match type of Hname with
      | _ \/ _ => destruct Hname as [Hname|Hname]
      end; try contradiction; subst name.
    - change (mutations (read_messages client args) = 0%nat).
      unfold read_messages. step_pure.
    - change (mutations (list_channels client args) = 0%nat).
      unfold list_channels. step_pure.
    - change (mutations (list_servers client args) = 0%nat).
      unfold list_servers. step_pure.
    - change (mutations (read_multiple_channels client array_sort args) = 0%nat).
      unfold read_multiple_channels. step_pure.
    - change (mutations (list_roles client args) = 0%nat).
      unfold list_roles. step_pure.
    - change (mutations (get_member_count client args) = 0%nat).
      unfold get_member_count. step_pure.
    - change (mutations (get_role_member_count client args) = 0%nat).
      unfold get_role_member_count. step_pure. }
  rewrite calls_callTool. unfold mutations in H0.
  apply length_zero_iff_nil in H0.
  destruct (existsb is_mutation _) eqn:E; [|reflexivity].
  apply existsb_exists in E as (c & Hin & Hc).
  assert (Hf : In c (filter is_mutation
                       (calls (handler client array_sort flags name args))))
    by (apply filter_In; now split).
  rewrite H0 in Hf. destruct Hf.
Qed.

Lemma no_mutations_iff log :
  length (filter is_mutation log) = 0%nat <-> existsb is_mutation log = false.
Proof.
  induction log as [|c log IH]; simpl; [tauto|].
  destruct (is_mutation c); simpl; [split; discriminate | exact IH].
Qed.

Lemma mutates_last_pure {A} (m : M A) : mutations m = 0%nat -> mutates_last m.
Proof. intros H. exists (calls m). split; [now apply no_mutations_iff | now left]. Qed.

Lemma mutates_last_bind {A B} (m : M A) (k : A -> M B) :
  mutations m = 0%nat -> (forall a, mutates_last (k a)) -> mutates_last (bind m k).
Proof.
  intros Hm Hk. apply no_mutations_iff in Hm. unfold mutates_last.
  rewrite calls_bind. destruct (outcome m) as [a|e].
  - destruct (Hk a) as (reads & Hr & [E|(c & Hc & E)]); rewrite E.
    + exists (calls m ++ reads)%list. split; [|now left].
      now rewrite existsb_app, Hm, Hr.
    + exists (calls m ++ reads)%list. split; [now rewrite existsb_app, Hm, Hr|].
      right. exists c. split; [exact Hc | now rewrite app_assoc].
  - exists (calls m). rewrite app_nil_r. split; [exact Hm | now left].
Qed.

Lemma mutates_last_await {A B} c (answer : Rejection + A) (f : A -> B) :
  mutates_last (bind (await c answer) (fun x => ret (f x))).
Proof.
  unfold mutates_last. destruct (is_mutation c) eqn:Hc.
  - exists []. split; [reflexivity|]. right. exists c. split; [exact Hc|].
    now destruct answer.
  - exists [c]. split; [simpl; now rewrite Hc|]. left. now destruct answer.
Qed.

Ltac step_last :=
  repeat first
    [ apply mutates_last_pure; solve [step_pure]
    | apply mutates_last_await
    | apply mutates_last_bind; [solve [step_pure] | intros ?]
    | progress cbv zeta
    | match goal with
      | |- mutates_last (match ?x with _ => _ end) => destruct x
      | |- mutates_last (if ?b then _ else _) => destruct b
      end ].

(** Every tool call, of any name and with any arguments, issues at most
    one mutating call, and that call is the last one of its log: no tool
    goes on to a second remote change, and no read follows a change. *)
Theorem mutation_comes_last client array_sort flags name args :
  exists reads,
    existsb is_mutation reads = false /\
    (calls (callTool client array_sort flags name args) = reads \/
     exists c, is_mutation c = true /\
               calls (callTool client array_sort flags name args) = (reads ++ [c])%list).
Proof.
  rewrite calls_callTool.
  change (mutates_last (handler client array_sort flags name args)).
  unfold handler.
  repeat match goal with
    | |- context [if String.eqb name ?s then _ else _] => destruct (String.eqb name s)
    end.
  - unfold send_message. step_last.
  - unfold read_messages. step_last.
  - unfold list_channels. step_last.
  - unfold list_servers. step_last.
  - unfold create_channel. step_last.
  - unfold read_multiple_channels. step_last.
  - unfold list_roles. step_last.
  - unfold assign_role. step_last.
  - unfold remove_role. step_last.
  - unfold create_role. step_last.
  - unfold delete_role. step_last.
  - unfold update_role. step_last.
  - unfold get_member_count. step_last.
  - unfold get_role_member_count. step_last.
  - step_last.
Qed.

(** ** Dispatch *)

(** A name that is not among the declared tools is refused with "Unknown
    tool" before anything is parsed or called. *)
Theorem unknown_tool_refused client array_sort flags name args :
  ~ In name (map fst tools) ->
  callTool client array_sort flags name args =
  ([], Threw (JsError ("Tool execution failed: Unknown tool: " ++ name))).
Proof.
  intros Hname. unfold callTool, handler.
  repeat match goal with
    | |- context [if String.eqb name ?s then _ else _] =>
        destruct (String.eqb_spec name s) as [->|_];
        [exfalso; apply Hname; simpl; tauto|]
    end.
  reflexivity.
Qed.

(** Every declared tool parses an arguments object first: called without
    one, it fails with the single issue "Required" at the root and makes
    no call, also when its schema requires no field. *)
Theorem declared_tools_need_arguments client array_sort flags name :
  In name (map fst tools) ->
  callTool client array_sort flags name None =
  ([], Threw (JsError "Invalid arguments: : Required")).
Proof.
  intros Hname. simpl in Hname.
  repeat match type of Hname with
    | _ \/ _ => destruct Hname as [Hname|Hname]
    end; try contradiction; subst name; reflexivity.
Qed.

(** ** Permission names *)

Lemma validatePermissions_calls flags ps : calls (validatePermissions flags ps) = [].
Proof.
  induction ps as [|p ps IH]; simpl; [reflexivity|].
  destruct (flag_value flags p); [|reflexivity].
  rewrite calls_bind, IH. simpl. now destruct (outcome _).
Qed.

Lemma validatePermissions_known flags ps :
  (forall p, In p ps -> flag_value flags p <> None) ->
  exists bs, outcome (validatePermissions flags ps) = Returned bs /\
             map Some bs = map (flag_value flags) ps.
Proof.
  induction ps as [|p ps IH]; simpl; intros Hall.
  - exists []. split; reflexivity.
  - destruct (flag_value flags p) as [bits|] eqn:Hp;
      [|exfalso; apply (Hall p); [now left | exact Hp]].
    destruct IH as (bs & Hbs & Hmap); [intros q Hq; apply Hall; now right|].
    exists (bits :: bs). rewrite outcome_bind, Hbs. split; [reflexivity|].
    simpl. now rewrite Hmap.
Qed.

Lemma validatePermissions_unknown flags known :
  forall ps p rest,
    ps = (known ++ p :: rest)%list ->
    (forall q, In q known -> flag_value flags q <> None) ->
    flag_value flags p = None ->
    outcome (validatePermissions flags ps) =
    Threw (JsError ("Invalid permission name: " ++ p ++ ". Valid permissions: "
                      ++ JS.join ", " (map fst flags))).
Proof.
  induction known as [|q known IH]; intros ps p rest -> Hk Hp.
  - simpl. now rewrite Hp.
  - simpl. destruct (flag_value flags q) as [bits|] eqn:Hq;
      [|exfalso; apply (Hk q); [now left | exact Hq]].
    rewrite outcome_bind.
    rewrite (IH _ p rest eq_refl); [reflexivity | | exact Hp].
    intros q' Hq'. apply Hk. now right.
Qed.

(** The first name of a list that is no key of the flag table. *)
Lemma first_unknown flags ps p :
  In p ps -> flag_value flags p = None ->
  exists known q rest,
    ps = (known ++ q :: rest)%list /\
    (forall x, In x known -> flag_value flags x <> None) /\
    flag_value flags q = None.
Proof.
  intros Hp Hflag. apply in_split in Hp as (l1 & l2 & ->).
  induction l1 as [|x l1 IH]; simpl.
  - exists [], p, l2. repeat split; [intros x [] | exact Hflag].
  - destruct (flag_value flags x) as [bits|] eqn:Hx.
    + destruct IH as (known & q & rest & E & Hk & Hq).
      exists (x :: known), q, rest. simpl. rewrite E. repeat split; [|exact Hq].
      intros y [<-|Hy]; [congruence | now apply Hk].
    + exists [], x, (l1 ++ p :: l2)%list. repeat split; [intros y [] | exact Hx].
Qed.

Lemma flag_value_none flags p :
  flag_value flags p = None <-> flag p flags = None /\ ~ In p inherited.
Proof.
  unfold flag_value. destruct (flag p flags) as [bits|].
  - split; [discriminate | intros [H _]; discriminate H].
  - destruct (existsb (String.eqb p) inherited) eqn:Hin.
    + split; [discriminate|]. intros [_ Hn]. exfalso. apply Hn.
      apply existsb_exists in Hin as (k & Hk & E). apply String.eqb_eq in E. now subst k.
    + split; [|reflexivity]. intros _. split; [reflexivity|]. intros Hp.
      assert (E : existsb (String.eqb p) inherited = true)
        by (apply existsb_exists; exists p; split; [exact Hp | apply String.eqb_refl]).
      congruence.
Qed.

(** [validatePermissions] makes no call.  A name passes when it is [in]
    the flag table: an own key, or a property the table inherits from
    [Object.prototype].  When every name passes, the values found under
    the names are returned in order: the flag of an own key, the
    inherited member otherwise.  When a name is neither, "Invalid
    permission name" is thrown for the first such name, followed by the
    list of the own keys. *)
Theorem validatePermissions_spec flags ps :
  calls (validatePermissions flags ps) = [] /\
  ((forall p, In p ps -> flag p flags <> None \/ In p inherited) ->
   exists values,
     outcome (validatePermissions flags ps) = Returned values /\
     map Some values = map (flag_value flags) ps /\
     (forall p bits, flag p flags = Some bits -> flag_value flags p = Some (Bits bits)) /\
     (forall p, flag p flags = None -> In p inherited ->
                flag_value flags p = Some (Inherited p))) /\
  (forall known p rest,
     ps = (known ++ p :: rest)%list ->
     (forall q, In q known -> flag q flags <> None \/ In q inherited) ->
     flag p flags = None -> ~ In p inherited ->
     outcome (validatePermissions flags ps) =
     Threw (JsError ("Invalid permission name: " ++ p ++ ". Valid permissions: "
                       ++ JS.join ", " (map fst flags)))).
Proof.
  assert (Hpass : forall p, flag p flags <> None \/ In p inherited ->
                            flag_value flags p <> None).
  { intros p Hp Hnone. apply flag_value_none in Hnone as [Hown Hinh].
    destruct Hp as [Hp|Hp]; [exact (Hp Hown) | exact (Hinh Hp)]. }
  split; [apply validatePermissions_calls|]. split.
  - intros Hall.
    destruct (validatePermissions_known flags ps) as (values & Hv & Hmap).
    + intros p Hp. apply Hpass. now apply Hall.
    + exists values. split; [exact Hv|]. split; [exact Hmap|]. split.
      * intros p bits Hown. unfold flag_value. now rewrite Hown.
      * intros p Hown Hinh. unfold flag_value. rewrite Hown.
        assert (E : existsb (String.eqb p) inherited = true)
          by (apply existsb_exists; exists p; split; [exact Hinh | apply String.eqb_refl]).
        now rewrite E.
  - intros known p rest E Hk Hown Hinh.
    apply (validatePermissions_unknown flags known ps p rest E).
    + intros q Hq. apply Hpass. now apply Hk.
    + apply flag_value_none. now split.
Qed.

(** ** A mutating call is issued only past its guard *)

Lemma in_bind_mutation {A B} (m : M A) (k : A -> M B) c :
  is_mutation c = true ->
  mutations m = 0%nat ->
  In c (calls (bind m k)) ->
  exists a, outcome m = Returned a /\ In c (calls (k a)).
Proof.
  intros Hc Hm. rewrite calls_bind. intros Hin. apply in_app_or in Hin as [Hin|Hin].
  - exfalso. apply no_mutations_iff in Hm.
    assert (E : existsb is_mutation (calls m) = true)
      by (apply existsb_exists; now exists c).
    congruence.
  - destruct (outcome m) as [a|e]; [now exists a | destruct Hin].
Qed.

Lemma parse_returned {A} (s : Zod.Schema A) args a :
  outcome (Zod.parse s args) = Returned a -> s [] args = inr a.
Proof.
  unfold Zod.parse. destruct (s [] args) as [i|a']; [discriminate|].
  intros H. now inversion H.
Qed.

Lemma in_await_ret {A B} c c' (answer : Rejection + A) (f : A -> B) :
  In c (calls (bind (await c' answer) (fun x => ret (f x)))) -> c = c'.
Proof.
  destruct answer; intros [H|[]]; now symmetry.
Qed.

Ltac past m Hc Hin a Ha :=
  apply (in_bind_mutation m) in Hin as (a & Ha & Hin); [| exact Hc | solve [step_pure]].

(** A role is added only to a resolved member who does not hold it, and
    removed only from a resolved member who holds it: any mutating call
    in the log of assign-role is [member.roles.add] of the resolved role
    on a member whose roles lack it, and any mutating call in the log of
    remove-role is [member.roles.remove] of a role the member holds. *)
Theorem role_membership_changes_are_guarded client array_sort flags args c :
  is_mutation c = true ->
  (In c (calls (callTool client array_sort flags "assign-role" args)) ->
   exists a guild member role,
     AssignRoleSchema [] args = inr a /\
     outcome (findGuild client (ur_server a)) = Returned guild /\
     outcome (findMember client (ur_user a) (Some (g_id guild))) = Returned member /\
     outcome (findRole client (ur_role a) (Some (g_id guild))) = Returned role /\
     c = CRolesAdd (m_id member) (role_id role) /\
     ~ In (role_id role) (m_roles member)) /\
  (In c (calls (callTool client array_sort flags "remove-role" args)) ->
   exists a guild member role,
     RemoveRoleSchema [] args = inr a /\
     outcome (findGuild client (ur_server a)) = Returned guild /\
     outcome (findMember client (ur_user a) (Some (g_id guild))) = Returned member /\
     outcome (findRole client (ur_role a) (Some (g_id guild))) = Returned role /\
     c = CRolesRemove (m_id member) (role_id role) /\
     In (role_id role) (m_roles member)).
Proof.
  intros Hc. rewrite !calls_callTool. split; intros Hin.
  - change (handler client array_sort flags "assign-role" args)
      with (assign_role client args) in Hin.
    unfold assign_role in Hin.
    past (Zod.parse AssignRoleSchema args) Hc Hin a Ha.
    past (findGuild client (ur_server a)) Hc Hin guild Hg.
    past (findMember client (ur_user a) (Some (g_id guild))) Hc Hin member Hm.
    past (findRole client (ur_role a) (Some (g_id guild))) Hc Hin role Hr.
    exists a, guild, member, role. apply parse_returned in Ha.
    destruct (has_role member role) eqn:Hhas; [destruct Hin|].
    apply in_await_ret in Hin. repeat split; try assumption.
    intros Hheld. apply has_role_In in Hheld. congruence.
  - change (handler client array_sort flags "remove-role" args)
      with (remove_role client args) in Hin.
    unfold remove_role in Hin.
    past (Zod.parse RemoveRoleSchema args) Hc Hin a Ha.
    past (findGuild client (ur_server a)) Hc Hin guild Hg.
    past (findMember client (ur_user a) (Some (g_id guild))) Hc Hin member Hm.
    past (findRole client (ur_role a) (Some (g_id guild))) Hc Hin role Hr.
    exists a, guild, member, role. apply parse_returned in Ha.
    destruct (has_role member role) eqn:Hhas; [|destruct Hin].
    apply in_await_ret in Hin. repeat split; try assumption.
    now apply has_role_In.
Qed.

(** A channel or a role is created only when the server holds none of
    that name: any mutating call in the log of create-channel is the
    creation of a channel with the name as given, in a resolved server
    none of whose text channels has that name up to case; any mutating
    call in the log of create-role is the creation of a role with the
    name as given, in a resolved server none of whose cached roles has
    that name up to case, with no permission name but those [in] the
    flag table, own keys or properties inherited from
    [Object.prototype]. *)
Theorem creations_are_guarded client array_sort flags args c :
  is_mutation c = true ->
  (In c (calls (callTool client array_sort flags "create-channel" args)) ->
   exists a guild,
     CreateChannelSchema [] args = inr a /\
     outcome (findGuild client (cc_server a)) = Returned guild /\
     c = CChannelsCreate (g_id guild) (cc_channelName a) /\
     forall existing,
       In existing (g_channels guild) -> ch_type existing = GuildText ->
       toLowerCase (ch_name existing) <> toLowerCase (cc_channelName a)) /\
  (In c (calls (callTool client array_sort flags "create-role" args)) ->
   exists a guild options,
     CreateRoleSchema [] args = inr a /\
     outcome (findGuild client (cr_server a)) = Returned guild /\
     c = CRolesCreate (g_id guild) options /\
     rc_name options = cr_roleName a /\
     (forall existing,
        In existing (g_roles guild) ->
        toLowerCase (role_name existing) <> toLowerCase (cr_roleName a)) /\
     (forall ps, cr_permissions a = Some ps ->
                 forall p, In p ps -> flag_value flags p <> None)).
Proof.
  intros Hc. rewrite !calls_callTool. split; intros Hin.
  - change (handler client array_sort flags "create-channel" args)
      with (create_channel client args) in Hin.
    unfold create_channel in Hin.
    past (Zod.parse CreateChannelSchema args) Hc Hin a Ha.
    past (findGuild client (cc_server a)) Hc Hin guild Hg.
    exists a, guild. apply parse_returned in Ha. cbv zeta in Hin. unfold JS.find in Hin.
    destruct (find _ (g_channels guild)) eqn:Hfind; [destruct Hin|].
    apply in_await_ret in Hin. repeat split; try assumption.
    intros existing Hex Htext Hname. apply (find_none _ _ Hfind) in Hex.
    simpl in Hex. rewrite Htext, Hname, String.eqb_refl in Hex. discriminate.
  - change (handler client array_sort flags "create-role" args)
      with (create_role client flags args) in Hin.
    unfold create_role in Hin.
    past (Zod.parse CreateRoleSchema args) Hc Hin a Ha.
    past (findGuild client (cr_server a)) Hc Hin guild Hg.
    apply parse_returned in Ha. cbv zeta in Hin. unfold JS.find in Hin.
    destruct (find _ (g_roles guild)) eqn:Hfind; [destruct Hin|].
    match type of Hin with
    | In _ (calls (bind ?m _)) => past m Hc Hin validated Hv
    end.
    apply in_await_ret in Hin.
    exists a, guild,
      {| rc_name := cr_roleName a; rc_color := cr_color a;
         rc_permissions := validated; rc_mentionable := cr_mentionable a |}.
    repeat split; try assumption.
    + intros existing Hex Hname. apply (find_none _ _ Hfind) in Hex.
      simpl in Hex. rewrite Hname, String.eqb_refl in Hex. discriminate.
    + intros ps Hps p Hp Hflag. rewrite Hps in Hv.
      destruct (first_unknown flags ps p Hp Hflag) as (known & q & rest & E & Hk & Hq).
      rewrite outcome_bind, (validatePermissions_unknown flags known ps q rest E Hk Hq)
        in Hv.
      discriminate Hv.
Qed.

(** ** Which channels are addressed *)

Lemma findChannel_returns_text client cid gid c :
  outcome (findChannel client cid gid) = Returned c ->
  exists guild,
    outcome (findGuild client gid) = Returned guild /\
    isTextChannel c = true /\
    (ch_guild_id c = g_id guild \/ In c (g_channels guild)).
Proof.
  destruct (findGuild client gid) as [log [guild|e]] eqn:Hg.
  - rewrite (findChannel_resolved _ cid _ _ _ Hg). unfold outcome; simpl.
    intros H. exists guild. split; [reflexivity|].
    destruct (channels_fetch client cid) as [e|[channel|]]; [| |discriminate].
    + destruct (filter _ (g_channels guild)) as [|c0 [|c1 cs]] eqn:Hf; try discriminate.
      inversion H; subst c0.
      assert (Hin : In c (filter (channel_name_matches cid) (g_channels guild)))
        by (rewrite Hf; now left).
      apply filter_In in Hin as [Hin Hm].
      split; [now apply channel_name_matches_text in Hm | now right].
    + destruct (isTextChannel channel && _) eqn:Hok; [|discriminate].
      inversion H; subst c. apply andb_true_iff in Hok as [Ht Hs].
      apply String.eqb_eq in Hs. auto.
  - unfold findChannel. rewrite Hg. discriminate.
Qed.

Lemma promise_all_each {A B} (f : A -> M B) xs ys :
  outcome (promise_all f xs) = Returned ys ->
  forall y, In y ys -> exists x, In x xs /\ outcome (f x) = Returned y.
Proof.
  revert ys. induction xs as [|x xs IH]; simpl; intros ys.
  - unfold outcome; simpl. intros H. inversion H. intros y [].
  - rewrite outcome_bind. destruct (outcome (f x)) as [y0|e] eqn:Hx; [|discriminate].
    rewrite outcome_bind. destruct (outcome (promise_all f xs)) as [ys'|e] eqn:Hxs;
      [|discriminate].
    unfold outcome; simpl. intros H. inversion H; subst ys.
    intros y [<-|Hy].
    + exists x. split; [now left | exact Hx].
    + destruct (IH ys' eq_refl y Hy) as (x' & Hx' & Hfx').
      exists x'. split; [now right | exact Hfx'].
Qed.

(** Messages are sent to and read from text channels only, and only
    from the channels the resolvers returned.  The one [send] of
    send-message goes, with the message as given, to the text channel
    [findChannel] returned for the parsed arguments; the one fetch of
    read-messages reads, with the parsed limit, the text channel
    [findChannel] returned; every fetch of read-multiple-channels reads,
    with the parsed limit, one of its target channels, a text channel
    that is either a cached channel of the resolved server or the
    channel [findChannel] returned for one of the listed identifiers. *)
Theorem only_text_channels_are_addressed client array_sort flags args :
  (forall cid message,
     In (CSend cid message) (calls (callTool client array_sort flags "send-message" args)) ->
     exists a channel,
       SendMessageSchema [] args = inr a /\
       outcome (findChannel client (sm_channel a) (sm_server a)) = Returned channel /\
       cid = ch_id channel /\ message = sm_message a /\
       isTextChannel channel = true) /\
  (forall cid limit,
     In (CMessagesFetch cid limit)
        (calls (callTool client array_sort flags "read-messages" args)) ->
     exists a channel,
       ReadMessagesSchema [] args = inr a /\
       outcome (findChannel client (rm_channel a) (rm_server a)) = Returned channel /\
       cid = ch_id channel /\ limit = rm_limit a /\
       isTextChannel channel = true) /\
  (forall cid limit,
     In (CMessagesFetch cid limit)
        (calls (callTool client array_sort flags "read-multiple-channels" args)) ->
     exists a guild channel,
       ReadMultipleChannelsSchema [] args = inr a /\
       outcome (findGuild client (rmc_server a)) = Returned guild /\
       cid = ch_id channel /\ limit = rmc_limitPerChannel a /\
       isTextChannel channel = true /\
       match rmc_channels a with
       | Some ((_ :: _) as channelIdentifiers) =>
           exists id, In id channelIdentifiers /\
                      outcome (findChannel client id (Some (g_id guild))) = Returned channel
       | _ => In channel (g_channels guild)
       end).
Proof.
  split; [|split].
  - intros cid message Hin. rewrite calls_callTool in Hin.
    change (handler client array_sort flags "send-message" args)
      with (send_message client args) in Hin.
    unfold send_message in Hin.
    assert (Hc : is_mutation (CSend cid message) = true) by reflexivity.
    past (Zod.parse SendMessageSchema args) Hc Hin a Ha.
    past (findChannel client (sm_channel a) (sm_server a)) Hc Hin channel Hch.
    apply in_await_ret in Hin. inversion Hin; subst.
    exists a, channel. apply parse_returned in Ha.
    destruct (findChannel_returns_text _ _ _ _ Hch) as (guild & _ & Ht & _).
    repeat split; assumption.
  - intros cid limit Hin. rewrite calls_callTool in Hin.
    change (handler client array_sort flags "read-messages" args)
      with (read_messages client args) in Hin.
    unfold read_messages in Hin.
    rewrite calls_bind, calls_parse in Hin. simpl in Hin.
    destruct (outcome (Zod.parse ReadMessagesSchema args)) as [a|e] eqn:Ha;
      [|destruct Hin].
    apply parse_returned in Ha.
    rewrite calls_bind in Hin. apply in_app_or in Hin as [Hin|Hin].
    { exfalso. revert Hin. apply resolution_not_messages_fetch.
      apply findChannel_resolves_only. }
    destruct (outcome (findChannel _ _ _)) as [channel|e] eqn:Hch; [|destruct Hin].
    apply in_await_ret in Hin. inversion Hin; subst.
    exists a, channel.
    destruct (findChannel_returns_text _ _ _ _ Hch) as (guild & _ & Ht & _).
    repeat split; assumption.
  - intros cid limit Hin. rewrite calls_callTool in Hin.
    change (handler client array_sort flags "read-multiple-channels" args)
      with (read_multiple_channels client array_sort args) in Hin.
    unfold read_multiple_channels in Hin.
    rewrite calls_bind, calls_parse in Hin. simpl in Hin.
    destruct (outcome (Zod.parse ReadMultipleChannelsSchema args)) as [a|e] eqn:Ha;
      [|destruct Hin].
    apply parse_returned in Ha.
    rewrite calls_bind in Hin. apply in_app_or in Hin as [Hin|Hin].
    { exfalso. revert Hin. apply resolution_not_messages_fetch.
      apply findGuild_resolves_only. }
    destruct (outcome (findGuild _ _)) as [guild|e] eqn:Hg; [|destruct Hin].
    rewrite calls_bind in Hin. apply in_app_or in Hin as [Hin|Hin].
    { exfalso. revert Hin. apply resolution_not_messages_fetch.
      destruct (rmc_channels a) as [[|id ids]|]; try apply resolves_only_ret.
      apply promise_all_resolves_only. intros x. apply findChannel_resolves_only. }
    match type of Hin with
    | In _ (match outcome ?m with _ => _ end) =>
        destruct (outcome m) as [targets|e] eqn:Htargets; [|destruct Hin]
    end.
    assert (Hfrom : forall c, In c targets ->
              isTextChannel c = true /\
              match rmc_channels a with
              | Some ((_ :: _) as channelIdentifiers) =>
                  exists id, In id channelIdentifiers /\
                             outcome (findChannel client id (Some (g_id guild))) = Returned c
              | _ => In c (g_channels guild)
              end).
    { intros c Hc. destruct (rmc_channels a) as [[|id ids]|].
      - unfold outcome in Htargets; simpl in Htargets. inversion Htargets; subst.
        apply filter_In in Hc. tauto.
      - destruct (promise_all_each _ _ _ Htargets c Hc) as (x & Hx & Hfx).
        destruct (findChannel_returns_text _ _ _ _ Hfx) as (g & _ & Ht & _).
        split; [exact Ht|]. now exists x.
      - unfold outcome in Htargets; simpl in Htargets. inversion Htargets; subst.
        apply filter_In in Hc. tauto. }
    destruct targets as [|c0 cs]; [destruct Hin|].
    rewrite calls_bind, gather_run in Hin. unfold calls at 1, outcome in Hin.
    simpl in Hin. rewrite app_nil_r in Hin.
    change (In (CMessagesFetch cid limit)
              (map (fun c => CMessagesFetch (ch_id c) (rmc_limitPerChannel a))
                   (c0 :: cs))) in Hin.
    apply in_map_iff in Hin as (c & E & Hc). inversion E; subst.
    destruct (Hfrom c Hc) as [Ht Hsrc].
    exists a, guild, c. repeat split; assumption.
Qed.

(** ** Reading all channels *)

(** With [channels] absent or empty, read-multiple-channels resolves no
    channel by identifier: it reads every text channel of the resolved
    server once, in cache order, with the per-channel limit; when the
    server has no text channel it reads nothing and answers "No text
    channels found or specified". *)
Theorem read_multiple_defaults_to_all_text_channels
  client array_sort flags args a guild log :
  ReadMultipleChannelsSchema [] args = inr a ->
  rmc_channels a = None \/ rmc_channels a = Some [] ->
  findGuild client (rmc_server a) = (log, Returned guild) ->
  let run := callTool client array_sort flags "read-multiple-channels" args in
  let targets := filter isTextChannel (g_channels guild) in
  calls run =
    (log ++ map (fun c => CMessagesFetch (ch_id c) (rmc_limitPerChannel a)) targets)%list /\
  (targets = [] ->
   outcome run =
   Returned (Text ("No text channels found or specified in server "
                     ++ JS.quoted (g_name guild) ++ "."))) /\
  (targets <> [] ->
   exists body,
     outcome run =
     Returned (TextJson ("Fetched messages from " ++ JS.of_nat (length targets)
                           ++ " channel(s) in " ++ JS.quoted (g_name guild) ++ ":"
                           ++ JS.newline) body)).
Proof.
  intros Hparse Hch Hg run targets. subst run.
  rewrite calls_callTool, outcome_callTool.
  change (handler client array_sort flags "read-multiple-channels" args)
    with (read_multiple_channels client array_sort args).
  unfold read_multiple_channels, Zod.parse. rewrite Hparse. simpl. rewrite Hg. simpl.
  assert (E : match rmc_channels a with
              | Some ((_ :: _) as channelIdentifiers) =>
                  promise_all (fun id => findChannel client id (Some (g_id guild)))
                              channelIdentifiers
              | _ => ret (filter isTextChannel (g_channels guild))
              end = ret targets)
    by (destruct Hch as [-> | ->]; reflexivity).
  rewrite E. simpl. fold targets.
  destruct targets as [|c cs] eqn:Ht.
  - unfold calls, outcome; simpl. rewrite ?app_nil_r.
    split; [reflexivity|].
    split; [intros _; reflexivity | intros H; now contradiction H].
  - rewrite gather_run. unfold calls, outcome; simpl. rewrite ?app_nil_r.
    split; [reflexivity|].
    split; [intros H; discriminate H | intros _; eexists; reflexivity].
Qed.

(** ** Updating a role *)

(** Any mutating call of update-role is one [role.edit] on the resolved
    role.  Its update object carries the new name, color and mentionable
    flag exactly as given, absent when not given, and what the flag
    table holds under the given permission names, a flag under an own
    key and the inherited member under a name of [Object.prototype]; at
    least one of the four is present. *)
Theorem update_role_edits_what_is_given client array_sort flags args c :
  is_mutation c = true ->
  In c (calls (callTool client array_sort flags "update-role" args)) ->
  exists a guild role updates,
    UpdateRoleSchema [] args = inr a /\
    outcome (findGuild client (ua_server a)) = Returned guild /\
    outcome (findRole client (ua_role a) (Some (g_id guild))) = Returned role /\
    c = CRoleEdit (role_id role) updates /\
    up_name updates = ua_newName a /\
    up_color updates = ua_newColor a /\
    up_mentionable updates = ua_newMentionable a /\
    match ua_newPermissions a with
    | None => up_permissions updates = None
    | Some ps => exists bs, up_permissions updates = Some bs /\
                            map Some bs = map (flag_value flags) ps
    end /\
    no_updates updates = false.
Proof.
  intros Hc. rewrite calls_callTool. intros Hin.
  change (handler client array_sort flags "update-role" args)
    with (update_role client flags args) in Hin.
  unfold update_role in Hin.
  past (Zod.parse UpdateRoleSchema args) Hc Hin a Ha.
  past (findGuild client (ua_server a)) Hc Hin guild Hg.
  past (findRole client (ua_role a) (Some (g_id guild))) Hc Hin role Hr.
  match type of Hin with
  | In _ (calls (bind ?m _)) => past m Hc Hin permissions Hp
  end.
  cbv zeta in Hin. apply parse_returned in Ha.
  match type of Hin with
  | In _ (calls (if no_updates ?u then _ else _)) =>
      destruct (no_updates u) eqn:Hno; [destruct Hin|];
      exists a, guild, role, u
  end.
  apply in_await_ret in Hin. repeat split; try assumption.
  simpl. destruct (ua_newPermissions a) as [ps|].
  - rewrite outcome_bind in Hp.
    destruct (outcome (validatePermissions flags ps)) as [bs|e] eqn:Hv; [|discriminate].
    unfold outcome in Hp; simpl in Hp. inversion Hp; subst permissions.
    exists bs. split; [reflexivity|].
    destruct (validatePermissions_known flags ps) as (bs' & Hbs' & Hmap).
    + intros p Hin' Hflag.
      destruct (first_unknown flags ps p Hin' Hflag) as (known & q & rest & E & Hk & Hq).
      rewrite (validatePermissions_unknown flags known ps q rest E Hk Hq) in Hv.
      discriminate Hv.
    + rewrite Hv in Hbs'. inversion Hbs'; subst bs'. exact Hmap.
  - unfold outcome in Hp; simpl in Hp. now inversion Hp.
Qed.

(** ** What validation lets through and what it stops *)

Lemma prop_cons_other s k v data :
  s <> k -> prop s ((k, v) :: data) = prop s data.
Proof. intros H. simpl. apply String.eqb_neq in H. now rewrite H. Qed.

Ltac ignore_key Hk :=
  unfold Zod.parse, Zod.object, server_key; unfold Zod.key;
  rewrite ?prop_cons_other by (intros <-; apply Hk; simpl; tauto);
  reflexivity.

(** A key that no schema declares changes nothing: for every tool name,
    the arguments with such a key added give the same log and the same
    result as the arguments without it.  In particular list-servers
    accepts any such key. *)
Theorem undeclared_keys_are_ignored client array_sort flags name k v data :
  ~ In k schema_keys ->
  callTool client array_sort flags name (Some (JObj ((k, v) :: data))) =
  callTool client array_sort flags name (Some (JObj data)).
Proof.
  intros Hk. unfold callTool. f_equal. unfold handler.
  repeat match goal with
    | |- context [if String.eqb name ?s then _ else _] => destruct (String.eqb name s)
    end.
  - unfold send_message, SendMessageSchema. ignore_key Hk.
  - unfold read_messages, ReadMessagesSchema. ignore_key Hk.
  - unfold list_channels, ListChannelsSchema. ignore_key Hk.
  - unfold list_servers, ListServersSchema. ignore_key Hk.
  - unfold create_channel, CreateChannelSchema. ignore_key Hk.
  - unfold read_multiple_channels, ReadMultipleChannelsSchema. ignore_key Hk.
  - unfold list_roles, ListRolesSchema. ignore_key Hk.
  - unfold assign_role, AssignRoleSchema. ignore_key Hk.
  - unfold remove_role, RemoveRoleSchema. ignore_key Hk.
  - unfold create_role, CreateRoleSchema. ignore_key Hk.
  - unfold delete_role, DeleteRoleSchema. ignore_key Hk.
  - unfold update_role, UpdateRoleSchema. ignore_key Hk.
  - unfold get_member_count, GetMemberCountSchema. ignore_key Hk.
  - unfold get_role_member_count, GetRoleMemberCountSchema. ignore_key Hk.
  - reflexivity.
Qed.

Lemma raises_here {A B} (sh : Zod.Shape (A -> B)) k (s : Zod.Schema A) data issues issue :
  s [PKey k] (prop k data) = inl issues -> In issue issues ->
  raises (Zod.key sh k s [] data) issue.
Proof.
  intros Hs Hin. unfold Zod.key. simpl. rewrite Hs.
  destruct (sh [] data) as [i|f]; simpl; [apply in_or_app; now right | exact Hin].
Qed.

Lemma raises_later {A B} (sh : Zod.Shape (A -> B)) k (s : Zod.Schema A) data issue :
  raises (sh [] data) issue -> raises (Zod.key sh k s [] data) issue.
Proof.
  unfold Zod.key. destruct (sh [] data) as [i|g]; simpl; [|intros []].
  intros Hin. destruct (s _ _); simpl; [apply in_or_app; now left | assumption].
Qed.

Lemma raised_issue_stops {A} (shape : Zod.Shape A) (k : A -> M Content) data issue :
  raises (shape [] data) issue ->
  exists issues,
    try_catch (bind (Zod.parse (Zod.object shape) (Some (JObj data))) k)
              (fun error => throw (normalize error)) =
    ([], Threw (JsError ("Invalid arguments: " ++ JS.join ", " (map issue_string issues)))) /\
    In (issue_string issue) (map issue_string issues).
Proof.
  unfold Zod.parse, Zod.object, raises.
  destruct (shape [] data) as [issues|a]; [|intros []].
  intros Hin. exists issues. split; [reflexivity | now apply in_map].
Qed.

Lemma number_below lo hi path q :
  (q < inject_Z (Z.of_nat lo))%Q ->
  exists issues,
    Zod.number_min_max lo hi path (Some (JNum q)) = inl issues /\
    In {| issue_path := path;
          issue_message := "Number must be greater than or equal to " ++ JS.of_nat lo |}
       issues.
Proof.
  intros Hq. unfold Zod.number_min_max.
  destruct (Qle_bool (inject_Z (Z.of_nat lo)) q) eqn:Hlo.
  - apply Qle_bool_iff in Hlo. exfalso. now apply (Qlt_not_le _ _ Hq).
  - simpl. eexists. split; [reflexivity | now left].
Qed.

Lemma number_above lo hi path q :
  (inject_Z (Z.of_nat hi) < q)%Q ->
  exists issues,
    Zod.number_min_max lo hi path (Some (JNum q)) = inl issues /\
    In {| issue_path := path;
          issue_message := "Number must be less than or equal to " ++ JS.of_nat hi |}
       issues.
Proof.
  intros Hq. unfold Zod.number_min_max.
  destruct (Qle_bool q (inject_Z (Z.of_nat hi))) eqn:Hhi.
  - apply Qle_bool_iff in Hhi. exfalso. now apply (Qlt_not_le _ _ Hq).
  - destruct (Qle_bool (inject_Z (Z.of_nat lo)) q); simpl;
      eexists; (split; [reflexivity|]); simpl; auto.
Qed.

(** A limit outside its range stops the tool at validation, before any
    call: read-messages rejects a [limit] below 1 or above 100, and
    read-multiple-channels a [limitPerChannel] below 1 or above 50, each
    with the issue naming the key and the bound; nothing is clamped. *)
Theorem limit_out_of_range_is_rejected client array_sort flags data q :
  (prop "limit" data = Some (JNum q) ->
   (q < 1 \/ 100 < q)%Q ->
   exists issues,
     callTool client array_sort flags "read-messages" (Some (JObj data)) =
     ([], Threw (JsError ("Invalid arguments: " ++ JS.join ", " (map issue_string issues))))
     /\
     In (if Qle_bool 1 q then "limit: Number must be less than or equal to 100"
         else "limit: Number must be greater than or equal to 1")
        (map issue_string issues)) /\
  (prop "limitPerChannel" data = Some (JNum q) ->
   (q < 1 \/ 50 < q)%Q ->
   exists issues,
     callTool client array_sort flags "read-multiple-channels" (Some (JObj data)) =
     ([], Threw (JsError ("Invalid arguments: " ++ JS.join ", " (map issue_string issues))))
     /\
     In (if Qle_bool 1 q
         then "limitPerChannel: Number must be less than or equal to 50"
         else "limitPerChannel: Number must be greater than or equal to 1")
        (map issue_string issues)).
Proof.
  split; intros Hl Hrange; unfold callTool.
  - change (handler client array_sort flags "read-messages" (Some (JObj data)))
      with (read_messages client (Some (JObj data))).
    unfold read_messages, ReadMessagesSchema.
    destruct (Qle_bool 1 q) eqn:Hle.
    + assert (Hq : (100 < q)%Q).
      { destruct Hrange as [Hq|Hq]; [|exact Hq].
        apply Qle_bool_iff in Hle. exfalso. now apply (Qlt_not_le _ _ Hq). }
      destruct (number_above 1 100 [PKey "limit"] q Hq) as (issues & E & Hin).
      apply raised_issue_stops with
        (issue := {| issue_path := [PKey "limit"];
                     issue_message := "Number must be less than or equal to 100" |}).
      eapply raises_here; [|exact Hin]. rewrite Hl. exact E.
    + assert (Hq : (q < 1)%Q).
      { apply Qnot_le_lt. intros H. apply Qle_bool_iff in H. congruence. }
      destruct (number_below 1 100 [PKey "limit"] q Hq) as (issues & E & Hin).
      apply raised_issue_stops with
        (issue := {| issue_path := [PKey "limit"];
                     issue_message := "Number must be greater than or equal to 1" |}).
      eapply raises_here; [|exact Hin]. rewrite Hl. exact E.
  - change (handler client array_sort flags "read-multiple-channels" (Some (JObj data)))
      with (read_multiple_channels client array_sort (Some (JObj data))).
    unfold read_multiple_channels, ReadMultipleChannelsSchema.
    destruct (Qle_bool 1 q) eqn:Hle.
    + assert (Hq : (50 < q)%Q).
      { destruct Hrange as [Hq|Hq]; [|exact Hq].
        apply Qle_bool_iff in Hle. exfalso. now apply (Qlt_not_le _ _ Hq). }
      destruct (number_above 1 50 [PKey "limitPerChannel"] q Hq) as (issues & E & Hin).
      apply raised_issue_stops with
        (issue := {| issue_path := [PKey "limitPerChannel"];
                     issue_message := "Number must be less than or equal to 50" |}).
      eapply raises_here; [|exact Hin]. rewrite Hl. exact E.
    + assert (Hq : (q < 1)%Q).
      { apply Qnot_le_lt. intros H. apply Qle_bool_iff in H. congruence. }
      destruct (number_below 1 50 [PKey "limitPerChannel"] q Hq) as (issues & E & Hin).
      apply raised_issue_stops with
        (issue := {| issue_path := [PKey "limitPerChannel"];
                     issue_message := "Number must be greater than or equal to 1" |}).
      eapply raises_here; [|exact Hin]. rewrite Hl. exact E.
Qed.

(** * The sort on a consistent comparator

    On elements where the comparator is the difference of a key, the
    short-array sort returns its input in non-decreasing key order. *)

Section SortOrders.

Context {A : Type}.
Variable comparefn : A -> A -> Z.
Variable key : A -> Z.
Variable P : A -> Prop.
Hypothesis comparefn_key :
  forall a b, P a -> P b -> comparefn a b = (key a - key b)%Z.

Let ascending (a b : A) : Prop := (key a <= key b)%Z.
Let falling (a b : A) : Prop := (key b < key a)%Z.

Lemma strongly_sorted_app (R : A -> A -> Prop) l1 l2 :
  StronglySorted R l1 -> StronglySorted R l2 ->
  (forall x y, In x l1 -> In y l2 -> R x y) ->
  StronglySorted R (l1 ++ l2).
Proof.
  induction l1 as [|a l1 IH]; simpl; intros H1 H2 H12; [exact H2|].
  apply StronglySorted_inv in H1 as [H1 Ha]. constructor.
  - apply IH; [exact H1 | exact H2 | intros x y Hx Hy; apply H12; [now right | exact Hy]].
  - apply Forall_app. split; [exact Ha|].
    apply Forall_forall. intros y Hy. apply H12; [now left | exact Hy].
Qed.

Lemma strongly_sorted_app_inv (R : A -> A -> Prop) l1 l2 :
  StronglySorted R (l1 ++ l2) ->
  StronglySorted R l1 /\ StronglySorted R l2 /\
  (forall x y, In x l1 -> In y l2 -> R x y).
Proof.
  induction l1 as [|a l1 IH]; simpl; intros H.
  - repeat split; [constructor | exact H | intros x y []].
  - apply StronglySorted_inv in H as [H Ha]. destruct (IH H) as (H1 & H2 & H12).
    apply Forall_app in Ha as [Ha1 Ha2]. repeat split.
    + now constructor.
    + exact H2.
    + intros x y [<-|Hx] Hy; [|now apply H12].
      rewrite Forall_forall in Ha2. now apply Ha2.
Qed.

Lemma strongly_sorted_rev (R : A -> A -> Prop) l :
  StronglySorted R l -> StronglySorted (fun a b => R b a) (rev l).
Proof.
  induction 1 as [|a l Hl IH Ha]; simpl; [constructor|].
  apply strongly_sorted_app; [exact IH | repeat constructor |].
  intros x y Hx [<-|[]]. apply in_rev in Hx.
  rewrite Forall_forall in Ha. now apply Ha.
Qed.

Lemma falling_transitive : Relations_1.Transitive falling.
Proof. intros a b c. unfold falling. lia. Qed.

Lemma ascending_transitive : Relations_1.Transitive ascending.
Proof. intros a b c. unfold ascending. lia. Qed.

Lemma extend_run_sorted (descending : bool) rest :
  forall previous,
    P previous -> Forall P rest ->
    Sorted (if descending then falling else ascending)
           (previous :: fst (V8.extend_run comparefn descending previous rest)).
Proof.
  induction rest as [|current rest IH]; intros previous Hp Hrest; simpl.
  - repeat constructor.
  - apply Forall_cons_iff in Hrest as [Hc Hrest].
    destruct (if descending then _ else _) eqn:Hbreak; simpl.
    + repeat constructor.
    + specialize (IH current Hc Hrest).
      destruct (V8.extend_run comparefn descending current rest) as [run tail].
      simpl in *. constructor; [exact IH|]. constructor.
      rewrite (comparefn_key _ _ Hc Hp) in Hbreak.
      destruct descending; unfold falling, ascending; lia.
Qed.

Lemma extend_run_keeps (descending : bool) rest :
  forall previous,
    Forall P rest ->
    Forall P (fst (V8.extend_run comparefn descending previous rest)) /\
    Forall P (snd (V8.extend_run comparefn descending previous rest)).
Proof.
  induction rest as [|current rest IH]; intros previous Hrest; simpl.
  - split; constructor.
  - pose proof Hrest as Hall. apply Forall_cons_iff in Hrest as [Hc Hrest].
    destruct (if descending then _ else _); simpl; [split; [constructor | exact Hall]|].
    specialize (IH current Hrest).
    destruct (V8.extend_run comparefn descending current rest) as [run tail].
    simpl in *. destruct IH as [Hrun Htail]. split; [now constructor | exact Htail].
Qed.

Lemma count_and_make_run_sorted xs :
  Forall P xs ->
  StronglySorted ascending (fst (V8.count_and_make_run comparefn xs)) /\
  Forall P (fst (V8.count_and_make_run comparefn xs)) /\
  Forall P (snd (V8.count_and_make_run comparefn xs)).
Proof.
  intros Hxs. destruct xs as [|high [|low rest]]; simpl.
  - repeat split; constructor.
  - repeat split; [repeat constructor | exact Hxs | constructor].
  - apply Forall_cons_iff in Hxs as [Hh Hxs].
    apply Forall_cons_iff in Hxs as [Hl Hrest].
    pose proof (extend_run_sorted (comparefn low high <? 0)%Z rest low Hl Hrest) as Hs.
    pose proof (extend_run_keeps (comparefn low high <? 0)%Z rest low Hrest)
      as [Hrun Htail].
    destruct (V8.extend_run comparefn _ low rest) as [run tail]. simpl in *.
    assert (Hall : Forall P (high :: low :: run)) by (repeat constructor; assumption).
    destruct (comparefn low high <? 0)%Z eqn:Hd; simpl.
    + repeat split; [| apply Forall_rev in Hall; exact Hall | exact Htail].
      assert (Hw : StronglySorted falling (high :: low :: run)).
      { apply Sorted_StronglySorted; [exact falling_transitive|].
        constructor; [exact Hs|]. constructor.
        rewrite (comparefn_key _ _ Hl Hh) in Hd. unfold falling. lia. }
      apply strongly_sorted_rev in Hw. simpl in Hw.
      clear - Hw. induction Hw as [|a l Hl IH Ha]; constructor; [exact IH|].
      eapply Forall_impl; [|exact Ha]. intros b. unfold falling, ascending. lia.
    + repeat split; [| exact Hall | exact Htail].
      apply Sorted_StronglySorted; [exact ascending_transitive|].
      constructor; [exact Hs|]. constructor.
      rewrite (comparefn_key _ _ Hl Hh) in Hd. unfold ascending. lia.
Qed.

(** Sortedness, by positions. *)
Lemma strongly_sorted_nth sorted :
  StronglySorted ascending sorted ->
  forall i j x y, (i <= j)%nat ->
    nth_error sorted i = Some x -> nth_error sorted j = Some y -> ascending x y.
Proof.
  induction 1 as [|a l Hl IH Ha]; intros i j x y Hij Hi Hj.
  - destruct i; discriminate.
  - destruct i as [|i], j as [|j]; simpl in *; try lia.
    + inversion Hi; inversion Hj; subst. unfold ascending. lia.
    + inversion Hi; subst. rewrite Forall_forall in Ha. apply Ha.
      eapply nth_error_In. exact Hj.
    + apply (IH i j); [lia | exact Hi | exact Hj].
Qed.

(** The binary search stops where the pivot belongs: keys up to the
    pivot's before, larger keys from there on. *)
Lemma search_spec pivot sorted :
  P pivot -> Forall P sorted -> StronglySorted ascending sorted ->
  forall fuel left right,
    (right - left <= fuel)%nat -> (left <= right <= length sorted)%nat ->
    (forall i x, (i < left)%nat -> nth_error sorted i = Some x -> ascending x pivot) ->
    (forall i x, (right <= i)%nat -> nth_error sorted i = Some x ->
                 (key pivot < key x)%Z) ->
    let pos := V8.search comparefn fuel pivot sorted left right in
    (pos <= length sorted)%nat /\
    (forall i x, (i < pos)%nat -> nth_error sorted i = Some x -> ascending x pivot) /\
    (forall i x, (pos <= i)%nat -> nth_error sorted i = Some x ->
                 (key pivot < key x)%Z).
Proof.
  intros Hp Hall Hsorted. induction fuel as [|fuel IH]; intros left right Hfuel Hlr Hlo Hhi.
  - simpl. assert (left = right) by lia. subst right. repeat split; [lia | exact Hlo | exact Hhi].
  - simpl. destruct (left <? right)%nat eqn:Hlt.
    + apply Nat.ltb_lt in Hlt.
      assert (Hpos : (0 < right - left)%nat) by lia.
      pose proof (Nat.lt_div2 (right - left) Hpos) as Hhalf.
      remember (Nat.div2 (right - left)) as half eqn:Ehalf. clear Ehalf.
      set (mid := (left + half)%nat) in *.
      assert (Hmid : (left <= mid < right)%nat) by (subst mid; lia).
      destruct (nth_error sorted mid) as [x|] eqn:Hx.
      * assert (Px : P x).
        { rewrite Forall_forall in Hall. apply Hall. eapply nth_error_In. exact Hx. }
        rewrite (comparefn_key _ _ Hp Px).
        destruct (key pivot - key x <? 0)%Z eqn:Hcmp.
        -- apply IH; [lia | lia | exact Hlo |].
           intros i y Hi Hy.
           pose proof (strongly_sorted_nth sorted Hsorted mid i x y Hi Hx Hy) as Hxy.
           unfold ascending in Hxy. lia.
        -- apply IH; [lia | lia | | exact Hhi].
           intros i y Hi Hy.
           pose proof (strongly_sorted_nth sorted Hsorted i mid y x ltac:(lia) Hy Hx)
             as Hyx.
           unfold ascending in *. lia.
      * exfalso. apply nth_error_None in Hx. lia.
    + apply Nat.ltb_ge in Hlt. assert (left = right) by lia. subst right.
      repeat split; [lia | exact Hlo | exact Hhi].
Qed.

Lemma place_sorted sorted pivot :
  P pivot -> Forall P sorted -> StronglySorted ascending sorted ->
  StronglySorted ascending (V8.place comparefn sorted pivot) /\
  Forall P (V8.place comparefn sorted pivot).
Proof.
  intros Hp Hall Hsorted. unfold V8.place, V8.insert_at.
  destruct (search_spec pivot sorted Hp Hall Hsorted (length sorted) 0 (length sorted))
    as (Hpos & Hbefore & Hafter).
  - lia.
  - lia.
  - intros i x Hi. lia.
  - intros i x Hi Hx. exfalso.
    assert (nth_error sorted i = None) by (apply nth_error_None; lia). congruence.
  - set (pos := V8.search comparefn (length sorted) pivot sorted 0 (length sorted)) in *.
    pose proof (firstn_skipn pos sorted) as Hsplit.
    rewrite <- Hsplit in Hsorted.
    apply strongly_sorted_app_inv in Hsorted as (H1 & H2 & H12).
    assert (Hfirst : forall x, In x (firstn pos sorted) -> ascending x pivot).
    { intros x Hx. apply In_nth_error in Hx as [i Hi].
      rewrite nth_error_firstn in Hi.
      destruct (i <? pos)%nat eqn:Hlt; [|discriminate].
      apply Nat.ltb_lt in Hlt. now apply (Hbefore i). }
    assert (Hlast : forall y, In y (skipn pos sorted) -> (key pivot < key y)%Z).
    { intros y Hy. apply In_nth_error in Hy as [i Hi].
      rewrite nth_error_skipn in Hi. apply (Hafter (pos + i)%nat); [lia | exact Hi]. }
    split.
    + apply strongly_sorted_app; [exact H1 | |].
      * constructor; [exact H2|]. apply Forall_forall. intros y Hy.
        apply Hlast in Hy. unfold ascending. lia.
      * intros x y Hx [<-|Hy]; [now apply Hfirst | now apply H12].
    + rewrite <- Hsplit in Hall. apply Forall_app in Hall as [Ha1 Ha2].
      apply Forall_app. split; [exact Ha1 | now constructor].
Qed.

Lemma binary_insertion_sort_sorted rest :
  forall run,
    Forall P run -> Forall P rest -> StronglySorted ascending run ->
    StronglySorted ascending (V8.binary_insertion_sort comparefn run rest).
Proof.
  unfold V8.binary_insertion_sort.
  induction rest as [|pivot rest IH]; intros run Hrun Hrest Hs; simpl; [exact Hs|].
  apply Forall_cons_iff in Hrest as [Hp Hrest].
  destruct (place_sorted run pivot Hp Hrun Hs) as [Hs' Hall'].
  now apply IH.
Qed.

Lemma sort_sorted xs :
  Forall P xs ->
  StronglySorted (fun a b => (key a <= key b)%Z) (V8.sort comparefn xs).
Proof.
  intros Hxs. unfold V8.sort.
  destruct (count_and_make_run_sorted xs Hxs) as (Hs & Hrun & Hrest).
  destruct (V8.count_and_make_run comparefn xs) as [run rest]. simpl in *.
  now apply binary_insertion_sort_sorted.
Qed.

End SortOrders.

(** ** Newest first, when every read succeeds *)

Lemma compareFn_age a b :
  has_timestamp a = true -> has_timestamp b = true ->
  compareFn a b = (age a - age b)%Z.
Proof.
  unfold has_timestamp, compareFn, age.
  destruct (timestamp a), (timestamp b); try discriminate. intros _ _. lia.
Qed.

Lemma newest_first_of_sorted items :
  Forall (fun o => has_timestamp o = true) items ->
  StronglySorted (fun a b => (age a <= age b)%Z) items ->
  newest_first items = true.
Proof.
  intros Hall Hs. induction Hs as [|a l Hl IH Ha]; simpl; [reflexivity|].
  apply Forall_cons_iff in Hall as [Hta Hall]. rewrite (IH Hall), andb_true_r.
  apply forallb_forall. intros b Hb.
  rewrite Forall_forall in Ha, Hall. specialize (Ha b Hb). specialize (Hall b Hb).
  unfold precedes, has_timestamp, age in *.
  destruct (timestamp a), (timestamp b); try discriminate.
  apply Z.leb_le. lia.
Qed.

Lemma formatMessage_has_timestamp c m : has_timestamp (formatMessage c m) = true.
Proof. reflexivity. Qed.

(** The result of read-multiple-channels once its target channels are
    known and not empty. *)
Lemma read_multiple_outcome client array_sort flags args a guild log targets :
  ReadMultipleChannelsSchema [] args = inr a ->
  findGuild client (rmc_server a) = (log, Returned guild) ->
  outcome (match rmc_channels a with
           | Some ((_ :: _) as channelIdentifiers) =>
               promise_all (fun id => findChannel client id (Some (g_id guild)))
                           channelIdentifiers
           | _ => ret (filter isTextChannel (g_channels guild))
           end) = Returned targets ->
  targets <> [] ->
  outcome (callTool client array_sort flags "read-multiple-channels" args) =
  Returned
    (TextJson ("Fetched messages from " ++ JS.of_nat (length targets)
                 ++ " channel(s) in " ++ JS.quoted (g_name guild) ++ ":" ++ JS.newline)
       (array_sort compareFn
          (flat_map (fun c => match messages_fetch client c (rmc_limitPerChannel a) with
                              | inr messages => map (formatMessage c) messages
                              | inl e => [errorEntry c (thrown_of e)]
                              end) targets))).
Proof.
  intros Hparse Hg Htargets Hne. rewrite outcome_callTool.
  change (handler client array_sort flags "read-multiple-channels" args)
    with (read_multiple_channels client array_sort args).
  unfold read_multiple_channels.
  rewrite (outcome_bind_returned _ _ [] a) by (unfold Zod.parse; now rewrite Hparse).
  rewrite (outcome_bind_returned _ _ log guild Hg).
  rewrite outcome_bind, Htargets.
  destruct targets as [|c cs]; [now contradiction Hne|].
  rewrite outcome_bind, gather_run. reflexivity.
Qed.

(** When the read of every target channel succeeds and fewer than 64
    items are gathered, the items returned by read-multiple-channels
    under V8's sort are all the formatted messages, newest first. *)
Theorem reads_without_failure_come_newest_first client flags args a guild log targets :
  ReadMultipleChannelsSchema [] args = inr a ->
  findGuild client (rmc_server a) = (log, Returned guild) ->
  outcome (match rmc_channels a with
           | Some ((_ :: _) as channelIdentifiers) =>
               promise_all (fun id => findChannel client id (Some (g_id guild)))
                           channelIdentifiers
           | _ => ret (filter isTextChannel (g_channels guild))
           end) = Returned targets ->
  targets <> [] ->
  (forall c, In c targets ->
             exists messages,
               messages_fetch client c (rmc_limitPerChannel a) = inr messages) ->
  let gathered :=
    flat_map (fun c => match messages_fetch client c (rmc_limitPerChannel a) with
                       | inr messages => map (formatMessage c) messages
                       | inl e => [errorEntry c (thrown_of e)]
                       end) targets in
  (length gathered < 64)%nat ->
  exists header body,
    outcome (callTool client (@V8.sort Obj) flags "read-multiple-channels" args) =
      Returned (TextJson header body) /\
    Permutation body gathered /\
    newest_first body = true.
Proof.
  intros Hparse Hg Htargets Hne Hreads gathered _.
  rewrite (read_multiple_outcome _ _ _ _ _ _ _ _ Hparse Hg Htargets Hne).
  fold gathered. eexists. eexists. split; [reflexivity|].
  split; [apply sort_perm|].
  assert (Hall : Forall (fun o => has_timestamp o = true) gathered).
  { apply Forall_forall. intros o Ho. apply in_gathered in Ho as (c & Hc & Ho).
    destruct (Hreads c Hc) as [messages Hm]. rewrite Hm in Ho.
    destruct Ho as (m & _ & ->). apply formatMessage_has_timestamp. }
  apply newest_first_of_sorted.
  - apply Forall_forall. intros o Ho.
    rewrite Forall_forall in Hall. apply Hall.
    apply (Permutation_in _ (sort_perm compareFn gathered)). exact Ho.
  - apply (sort_sorted compareFn age (fun o => has_timestamp o = true) compareFn_age).
    exact Hall.
Qed.

(** ** Counting the holders of a role *)

(** When the server and the role resolve, get-role-member-count
    refreshes the members once and reports how many members of the
    refreshed cache hold the resolved role; a rejected refresh fails the
    tool with the collaborator's message. *)
Theorem get_role_member_count_counts_holders client array_sort flags args a guild role
  log1 log2 :
  GetRoleMemberCountSchema [] args = inr a ->
  findGuild client (ra_server a) = (log1, Returned guild) ->
  findRole client (ra_role a) (Some (g_id guild)) = (log2, Returned role) ->
  let run := callTool client array_sort flags "get-role-member-count" args in
  calls run = (log1 ++ log2 ++ [CMembersFetch (g_id guild) None])%list /\
  (forall refreshed,
     members_fetch_all client guild = inr refreshed ->
     outcome run =
     Returned (Text ("There are "
                       ++ JS.of_nat (length (filter (fun m => existsb (String.eqb (role_id role))
                                                                      (m_roles m))
                                                    refreshed))
                       ++ " members with the role " ++ JS.quoted (role_name role)
                       ++ " in server " ++ JS.quoted (g_name guild) ++ "."))) /\
  (forall message,
     members_fetch_all client guild = inl (RejError message) ->
     outcome run = Threw (JsError ("Tool execution failed: " ++ message))).
Proof.
  intros Hparse Hg Hr run. subst run. rewrite calls_callTool, outcome_callTool.
  change (handler client array_sort flags "get-role-member-count" args)
    with (get_role_member_count client args).
  unfold get_role_member_count, Zod.parse. rewrite Hparse. simpl.
  rewrite Hg. simpl. rewrite Hr. simpl. unfold calls, outcome.
  destruct (members_fetch_all client guild) as [[message|]|refreshed]; simpl;
    rewrite ?app_nil_r; (split; [reflexivity|]); split;
    try discriminate; intros x E; inversion E; subst; reflexivity.
Qed.

(** ** The three kinds of failure *)

Lemma follow_ret {A} (a : A) : non_errors_follow_calls (ret a).
Proof. intros H. discriminate H. Qed.

Lemma follow_throw_error {A} message : non_errors_follow_calls (@throw A (JsError message)).
Proof. intros H. discriminate H. Qed.

Lemma follow_throw_zod {A} issues : non_errors_follow_calls (@throw A (ZodError issues)).
Proof. intros H. discriminate H. Qed.

Lemma follow_await {A} c (answer : Rejection + A) : non_errors_follow_calls (await c answer).
Proof. intros _. discriminate. Qed.

Lemma follow_bind {A B} (m : M A) (k : A -> M B) :
  non_errors_follow_calls m -> (forall a, non_errors_follow_calls (k a)) ->
  non_errors_follow_calls (bind m k).
Proof.
  unfold non_errors_follow_calls. intros Hm Hk. rewrite outcome_bind, calls_bind.
  destruct (outcome m) as [a|e] eqn:Ho.
  - intros H E. apply app_eq_nil in E as [_ E]. now apply (Hk a).
  - intros H E. apply app_eq_nil in E as [E _]. apply Hm; [congruence | exact E].
Qed.

Lemma follow_of_errors {A} (m : M A) : throws_errors m -> non_errors_follow_calls m.
Proof. intros H E. apply H in E as [message E]. discriminate E. Qed.

Lemma follow_parse {A} (s : Zod.Schema A) args : non_errors_follow_calls (Zod.parse s args).
Proof. unfold Zod.parse. destruct (s [] args); intros H; discriminate H. Qed.

Lemma validatePermissions_throws_errors flags ps :
  throws_errors (validatePermissions flags ps).
Proof. induction ps as [|p ps IH]; simpl; step_throw. Qed.

Lemma promise_all_throws_errors {A B} (f : A -> M B) xs :
  (forall x, throws_errors (f x)) -> throws_errors (promise_all f xs).
Proof. intros Hf. induction xs as [|x xs IH]; simpl; step_throw. Qed.

Lemma gather_follow client limit targets :
  non_errors_follow_calls (gather client limit targets).
Proof. rewrite gather_run. intros H. discriminate H. Qed.

Create HintDb js_follow.
#[local] Hint Resolve follow_ret follow_throw_error follow_throw_zod follow_await
  follow_parse gather_follow : js_follow.
#[local] Hint Extern 1 (non_errors_follow_calls (findGuild _ _)) =>
  apply follow_of_errors, findGuild_throws_errors : js_follow.
#[local] Hint Extern 1 (non_errors_follow_calls (findChannel _ _ _)) =>
  apply follow_of_errors; unfold findChannel; step_throw : js_follow.
#[local] Hint Extern 1 (non_errors_follow_calls (findRole _ _ _)) =>
  apply follow_of_errors; unfold findRole; step_throw : js_follow.
#[local] Hint Extern 1 (non_errors_follow_calls (findMember _ _ _)) =>
  apply follow_of_errors; unfold findMember; step_throw : js_follow.
#[local] Hint Extern 1 (non_errors_follow_calls (validatePermissions _ _)) =>
  apply follow_of_errors, validatePermissions_throws_errors : js_follow.
#[local] Hint Extern 1 (non_errors_follow_calls (promise_all _ _)) =>
  apply follow_of_errors, promise_all_throws_errors; intros ?;
  unfold findChannel; step_throw : js_follow.

Ltac step_follow :=
  repeat first
    [ solve [auto with js_follow]
    | apply follow_bind; [|intros ?]
    | progress cbv zeta
    | match goal with
      | |- non_errors_follow_calls (match ?x with _ => _ end) => destruct x
      | |- non_errors_follow_calls (if ?b then _ else _) => destruct b
      end ].

Lemma handler_non_errors_follow_calls client array_sort flags name args :
  non_errors_follow_calls (handler client array_sort flags name args).
Proof.
  unfold handler.
  repeat match goal with
    | |- context [if String.eqb name ?s then _ else _] => destruct (String.eqb name s)
    end.
  - unfold send_message. step_follow.
  - unfold read_messages. step_follow.
  - unfold list_channels. step_follow.
  - unfold list_servers. step_follow.
  - unfold create_channel. step_follow.
  - unfold read_multiple_channels. step_follow.
  - unfold list_roles. step_follow.
  - unfold assign_role. step_follow.
  - unfold remove_role. step_follow.
  - unfold create_role. step_follow.
  - unfold delete_role. step_follow.
  - unfold update_role. step_follow.
  - unfold get_member_count. step_follow.
  - unfold get_role_member_count. step_follow.
  - step_follow.
Qed.

(** Whatever a tool call throws is an [Error] of one of three kinds:
    "Invalid arguments: ...", thrown before any call; "Tool execution
    failed: " followed by the message of the error met; or "An unknown
    error occurred during tool execution.", which arises only after a
    remote call. *)
Theorem failures_are_of_three_kinds client array_sort flags name args e :
  outcome (callTool client array_sort flags name args) = Threw e ->
  (exists issues,
     e = JsError ("Invalid arguments: " ++ JS.join ", " (map issue_string issues)) /\
     calls (callTool client array_sort flags name args) = []) \/
  (exists message, e = JsError ("Tool execution failed: " ++ message)) \/
  (e = JsError "An unknown error occurred during tool execution." /\
   calls (callTool client array_sort flags name args) <> []).
Proof.
  rewrite outcome_callTool, calls_callTool.
  destruct (outcome (handler client array_sort flags name args)) as [content|e0] eqn:H;
    [discriminate|].
  intros E. inversion E; subst e. destruct e0 as [issues|message|]; simpl.
  - left. exists issues. split; [reflexivity|].
    now apply handler_zod_error_stops with (issues := issues).
  - right. left. now exists message.
  - right. right. split; [reflexivity|].
    now apply handler_non_errors_follow_calls.
Qed.

(** ** Deleting a role *)

(** Any mutating call of delete-role is the deletion of the role that
    [findRole] returned for the given identifier in the resolved server;
    when the role does not resolve, nothing is deleted. *)
Theorem delete_role_deletes_the_resolved_role client array_sort flags args c :
  is_mutation c = true ->
  In c (calls (callTool client array_sort flags "delete-role" args)) ->
  exists a guild role,
    DeleteRoleSchema [] args = inr a /\
    outcome (findGuild client (ra_server a)) = Returned guild /\
    outcome (findRole client (ra_role a) (Some (g_id guild))) = Returned role /\
    c = CRoleDelete (role_id role).
Proof.
  intros Hc. rewrite calls_callTool. intros Hin.
  change (handler client array_sort flags "delete-role" args)
    with (delete_role client args) in Hin.
  unfold delete_role in Hin.
  past (Zod.parse DeleteRoleSchema args) Hc Hin a Ha.
  past (findGuild client (ra_server a)) Hc Hin guild Hg.
  past (findRole client (ra_role a) (Some (g_id guild))) Hc Hin role Hr.
  apply in_await_ret in Hin. apply parse_returned in Ha.
  exists a, guild, role. repeat split; assumption.
Qed.

End Engine.

(** * The code on the example server *)

(** The names of the example server are ASCII strings, on which
    [toLowerCase] is [JS.toLowerCase_ascii]; the permission table
    inherits the properties of [Object.prototype]. *)

Lemma lower_ascii_sigil a : Ascii.eqb (JS.lower_ascii a) "#" = Ascii.eqb a "#".
Proof.
  destruct a as [[] [] [] [] [] [] [] []]; reflexivity.
Qed.

Lemma toLowerCase_ascii_sigil s :
  has_sigil s = false -> has_sigil (JS.toLowerCase_ascii s) = false.
Proof.
  induction s as [|a r IH]; simpl; [reflexivity|].
  rewrite lower_ascii_sigil. intros H. apply orb_false_iff in H as [Ha Hr].
  now rewrite Ha, IH.
Qed.

Lemma findGuild_omitted_witness :
  findGuild JS.toLowerCase_ascii Example.client None = ([], Returned Example.server).
Proof.
  apply (proj1 (findGuild_omitted JS.toLowerCase_ascii Example.client None eq_refl)
      Example.server).
  reflexivity.
Defined.

Lemma findChannel_by_id_scoped_witness :
  outcome (findChannel JS.toLowerCase_ascii Example.client "901" None) =
  Threw (JsError
    ("Channel " ++ JS.quoted "901" ++ " is not a text channel or not found in server "
       ++ JS.quoted "Test Server")).
Proof.
  apply (proj1 (findChannel_by_id_scoped JS.toLowerCase_ascii Example.client "901" None
      Example.server []
                  eq_refl) Example.elsewhere eq_refl).
  right. discriminate.
Defined.

(** C6, as the claim states it, fails on an identifier with a '#' after
    its first character.  No channel of the example server has the name
    "gen#eral" up to case, bare or behind the sigil, so the claim counts
    no match and promises "not found"; the code removes the '#' in the
    middle and returns the channel "general". *)
Lemma findChannel_sigil_in_the_middle :
  channels_fetch Example.client "gen#eral" = Rejected (RejError "Unknown") /\
  (forall c, In c (g_channels Example.server) ->
             ~ names_channel JS.toLowerCase_ascii "gen#eral" c) /\
  filter (channel_name_matches JS.toLowerCase_ascii "gen#eral")
         (g_channels Example.server) = [Example.general] /\
  findChannel JS.toLowerCase_ascii Example.client "gen#eral" None =
  ([CChannelsFetch "gen#eral"], Returned Example.general).
Proof.
  split; [reflexivity|]. split; [|split; reflexivity].
  intros c Hc [_ [E|E]]; simpl in Hc;
    repeat (destruct Hc as [<-|Hc]; [discriminate E|]); exact Hc.
Qed.

Lemma findChannel_by_name_witness :
  outcome (findChannel JS.toLowerCase_ascii Example.client "#General" None) =
    Returned Example.general /\
  channel_name_matches JS.toLowerCase_ascii "GENERAL" Example.general = true /\
  channel_name_matches JS.toLowerCase_ascii ("#" ++ "GENERAL") Example.general = true /\
  (In Example.general
      (filter (channel_name_matches JS.toLowerCase_ascii "#General")
              (g_channels Example.server)) <->
   In Example.general (g_channels Example.server) /\
   names_channel JS.toLowerCase_ascii "#General" Example.general).
Proof.
  destruct (findChannel_by_name JS.toLowerCase_ascii Example.client "#General" None
              Example.server [] (RejError "Unknown") eq_refl eq_refl)
    as (Hone & _ & _ & _ & Hsigil & Hnames).
  split; [|split; [|split]].
  - apply (Hone Example.general). reflexivity.
  - apply (Hsigil (fun s => eq_refl) Example.general "GENERAL"); reflexivity.
  - apply (Hsigil (fun s => eq_refl) Example.general "GENERAL"); reflexivity.
  - apply (Hnames (fun s => eq_refl) toLowerCase_ascii_sigil eq_refl Example.general).
Defined.

Lemma findRole_refresh_once_witness :
  outcome (findRole JS.toLowerCase_ascii Example.client "newcomer" None) = Returned
      Example.newcomer.
Proof.
  apply (findRole_refresh_once JS.toLowerCase_ascii Example.client "newcomer" None
      Example.server []
           eq_refl eq_refl eq_refl).
Defined.

Lemma limits_within_bounds_witness :
  let run := callTool JS.toLowerCase_ascii Example.inherited Example.client
               (@V8.sort Obj) Example.flags in
  calls (run "read-messages" (Some (JObj [("channel", JStr "general")]))) =
    [CChannelsFetch "general"; CMessagesFetch "201" 50] /\
  calls (run "read-messages"
           (Some (JObj [("channel", JStr "general"); ("limit", JNum 100)]))) =
    [CChannelsFetch "general"; CMessagesFetch "201" 100] /\
  calls (run "read-multiple-channels" (Some (JObj []))) =
    [CMessagesFetch "201" 10; CMessagesFetch "202" 10; CMessagesFetch "204" 10] /\
  ((1 <= 50 /\ 50 <= 100)%Q /\
   (forall data, Some (JObj [("channel", JStr "general")]) = Some (JObj data) ->
                 prop "limit" data = None -> 50%Q = 50%Q)).
Proof.
  intros run.
  pose proof (limits_within_bounds JS.toLowerCase_ascii Example.inherited Example.client
                (@V8.sort Obj) Example.flags
                (Some (JObj [("channel", JStr "general")])) "201" 50%Q)
    as (Hbound & _ & Hone & Hmany & _).
  split; [|split; [|split]].
  - apply (Hone [("channel", JStr "general")] "general" None
             [CChannelsFetch "general"] Example.general 50%Q);
      try reflexivity.
    left. split; reflexivity.
  - apply (Hone [("channel", JStr "general"); ("limit", JNum 100)] "general" None
             [CChannelsFetch "general"] Example.general 100%Q);
      try reflexivity.
    right. split; [reflexivity|]. split; discriminate.
  - apply (Hmany [] None [] Example.server 10%Q); try reflexivity.
    left. split; reflexivity.
  - apply Hbound. vm_compute. right. left. reflexivity.
Defined.

Lemma update_role_without_updates_witness :
  outcome (callTool JS.toLowerCase_ascii Example.inherited Example.client (@V8.sort Obj)
      Example.flags "update-role"
             (Some (JObj [("role", JStr "helper")]))) =
  Threw (JsError "Tool execution failed: No update parameters provided for the role.").
Proof.
  apply (update_role_without_updates JS.toLowerCase_ascii Example.inherited Example.client
      (@V8.sort Obj) Example.flags
           [("role", JStr "helper")]
           {| ua_server := None; ua_role := "helper"; ua_newName := None;
              ua_newColor := None; ua_newPermissions := None;
              ua_newMentionable := None |}
           Example.server Example.helper [] [CGuildsFetch "100"]
           eq_refl eq_refl eq_refl eq_refl eq_refl eq_refl eq_refl).
Defined.

Lemma guards_before_mutation_witness :
  let run := callTool JS.toLowerCase_ascii Example.inherited Example.client (@V8.sort Obj)
      Example.flags "assign-role"
               (Some (JObj [("user", JStr "<@401>"); ("role", JStr "moderator")])) in
  outcome run =
    Threw (JsError ("Tool execution failed: User " ++ "alice#0001"
                      ++ " already has the role " ++ JS.quoted "Moderator" ++ "."))
  /\ existsb is_mutation (calls run) = false.
Proof.
  apply (proj1 (guards_before_mutation JS.toLowerCase_ascii Example.inherited Example.client
      (@V8.sort Obj) Example.flags)
           (Some (JObj [("user", JStr "<@401>"); ("role", JStr "moderator")]))
           {| ur_server := None; ur_user := "<@401>"; ur_role := "moderator" |}
           Example.server Example.alice Example.moderator
           [] [CGuildsFetch "100"; CMembersFetch "100" (Some "401")] [CGuildsFetch "100"]
           eq_refl eq_refl eq_refl eq_refl).
  simpl. left. reflexivity.
Defined.

(** Without any arguments object the schema raises one issue at the
    root, with an empty path. *)
Example no_arguments_at_all :
  callTool JS.toLowerCase_ascii Example.inherited Example.client (@V8.sort Obj)
      Example.flags "send-message" None =
  ([], Threw (JsError "Invalid arguments: : Required")).
Proof. reflexivity. Qed.

Lemma validation_before_resolution_witness :
  exists issues,
    handler JS.toLowerCase_ascii Example.inherited Example.client (@V8.sort Obj)
        Example.flags "send-message"
      (Some (JObj [("message", JStr "hello")])) = ([], Threw (ZodError issues)) /\
    callTool JS.toLowerCase_ascii Example.inherited Example.client (@V8.sort Obj)
        Example.flags "send-message"
      (Some (JObj [("message", JStr "hello")])) =
      ([], Threw (JsError
             ("Invalid arguments: " ++ JS.join ", " (map issue_string issues)))) /\
    (forall f', In f' ["channel"; "message"] ->
                prop f' [("message", JStr "hello")] = None ->
                In (f' ++ ": Required") (map issue_string issues)).
Proof.
  apply (validation_before_resolution JS.toLowerCase_ascii Example.inherited Example.client
      (@V8.sort Obj) Example.flags
           "send-message" ["channel"; "message"] [("message", JStr "hello")] "channel").
  - simpl. left. reflexivity.
  - simpl. left. reflexivity.
  - reflexivity.
Defined.

Lemma read_multiple_partial_failure_witness :
  exists header body,
    outcome (callTool JS.toLowerCase_ascii Example.inherited Example.client (@V8.sort Obj)
        Example.flags
               "read-multiple-channels"
               (Some (JObj [("channels", JArr [JStr "general"; JStr "random"])]))) =
      Returned (TextJson header body) /\
    In (formatMessage Example.general Example.old_message) body /\
    In (errorEntry Example.random (JsError "Missing Access")) body.
Proof.
  destruct (proj1 (read_multiple_partial_failure JS.toLowerCase_ascii Example.inherited
      Example.client (@V8.sort Obj)
                     Example.flags
                     (Some (JObj [("channels", JArr [JStr "general"; JStr "random"])]))
                     {| rmc_server := None; rmc_channels := Some ["general"; "random"];
                        rmc_limitPerChannel := 10 |}
                     Example.server [] ["general"; "random"]
                     (@sort_perm Obj) eq_refl eq_refl eq_refl
                     ltac:(discriminate))
                  [Example.general; Example.random] eq_refl)
    as (header & body & Hrun & Hok & Herr & _).
  exists header, body. split; [exact Hrun|]. split.
  - apply (Hok Example.general [Example.old_message]).
    + simpl. left. reflexivity.
    + reflexivity.
    + simpl. left. reflexivity.
  - apply (Herr Example.random (RejError "Missing Access")).
    + simpl. right. left. reflexivity.
    + reflexivity.
Defined.

(** C1, as the claim states it, fails: with the channels "general" and
    "nope", of which only the first resolves, the tool throws the
    resolution error of "nope" and returns no content at all. *)
Lemma read_multiple_resolution_failure_aborts :
  let run := callTool JS.toLowerCase_ascii Example.inherited Example.client (@V8.sort Obj)
      Example.flags
               "read-multiple-channels"
               (Some (JObj [("channels", JArr [JStr "general"; JStr "nope"])])) in
  outcome (findChannel JS.toLowerCase_ascii Example.client "general" (Some "100")) =
      Returned Example.general /\
  outcome run =
    Threw (JsError
      ("Tool execution failed: Channel " ++ JS.quoted "nope" ++ " not found in server "
         ++ JS.quoted "Test Server" ++ ". Available channels: "
         ++ JS.quoted "#general" ++ ", " ++ JS.quoted "#random" ++ ", "
         ++ JS.quoted "#news")) /\
  (forall content, outcome run <> Returned content).
Proof.
  vm_compute. repeat split. intros content H. discriminate H.
Qed.

(** C2 at a failing input.  The bot reads all text channels of its one
    server: "general" holds a message of time 1000, the read of "random"
    fails, "news" holds a message of time 2000.  The comparator answers 0
    for the error entry against either message, although the two
    messages are out of order, and the sorted list is the gathered list
    unchanged: the older message, the error entry, the newer message.
    It is not newest first, with or without its error entry. *)
Theorem read_multiple_not_newest_first :
  let older := formatMessage Example.general Example.old_message in
  let failed := errorEntry Example.random (JsError "Missing Access") in
  let newer := formatMessage Example.news Example.new_message in
  outcome (callTool JS.toLowerCase_ascii Example.inherited Example.client (@V8.sort Obj)
      Example.flags
             "read-multiple-channels" (Some (JObj []))) =
    Returned (TextJson ("Fetched messages from 3 channel(s) in "
                          ++ JS.quoted "Test Server" ++ ":" ++ JS.newline)
                       [older; failed; newer]) /\
  compareFn older failed = 0%Z /\
  compareFn failed newer = 0%Z /\
  (0 < compareFn older newer)%Z /\
  newest_first [older; failed; newer] = false /\
  newest_first (filter has_timestamp [older; failed; newer]) = false.
Proof.
  vm_compute. repeat split.
Qed.

Lemma findGuild_by_identifier_witness :
  outcome (findGuild JS.toLowerCase_ascii Example.client (Some "test server")) = Returned
      Example.server.
Proof.
  apply (proj1 (proj2 (proj2 (findGuild_by_identifier JS.toLowerCase_ascii Example.client
      "test server"
                                ltac:(discriminate)))
                  (RejError "Unknown") eq_refl) Example.server).
  reflexivity.
Defined.

Lemma findRole_cache_hit_witness :
  findRole JS.toLowerCase_ascii Example.client "HELPER" None = ([], Returned Example.helper)
      /\
  JS.toLowerCase_ascii (role_name Example.helper) = JS.toLowerCase_ascii "HELPER" /\
  exists before after,
    g_roles Example.server = (before ++ Example.helper :: after)%list /\
    forall r, In r before -> JS.toLowerCase_ascii (role_name r) <> JS.toLowerCase_ascii
        "HELPER".
Proof.
  apply (proj2 (findRole_cache_hit JS.toLowerCase_ascii Example.client "HELPER" None
      Example.server []
                  eq_refl) Example.helper eq_refl eq_refl).
Defined.

Lemma guild_failure_stops_resolvers_witness :
  findChannel JS.toLowerCase_ascii (Example.client_of [Example.server; Example.other])
      "general" None =
  ([], Threw (JsError
         ("Bot is in multiple servers. Please specify server name or ID. Available servers: "
            ++ JS.quoted "Test Server" ++ ", " ++ JS.quoted "Other Server"))).
Proof.
  apply (proj1 (guild_failure_stops_resolvers JS.toLowerCase_ascii
                  (Example.client_of [Example.server; Example.other]) None [] _ eq_refl)
           "general").
Defined.

Lemma findMember_first_pass_witness :
  findMember JS.toLowerCase_ascii Example.client "<@!401>" None =
  ([CMembersFetch "100" (Some "401")], Returned Example.alice).
Proof.
  apply (proj1 (findMember_first_pass JS.toLowerCase_ascii Example.client "<@!401>" None
      Example.server []
                  eq_refl) Example.alice eq_refl).
Defined.

Lemma findMember_refresh_once_witness :
  outcome (findMember JS.toLowerCase_ascii Example.client "bob" None) =
  Threw (JsError ("User " ++ JS.quoted "bob" ++ " not found in server "
                    ++ JS.quoted "Test Server" ++ ".")).
Proof.
  apply (proj1 (proj2 (findMember_refresh_once JS.toLowerCase_ascii Example.client "bob"
      None Example.server []
                         eq_refl ltac:(intros m; discriminate) eq_refl eq_refl))
           [Example.alice] eq_refl).
Defined.

Lemma resolvers_throw_errors_witness :
  exists message,
    JsError ("Channel " ++ JS.quoted "901"
               ++ " is not a text channel or not found in server "
               ++ JS.quoted "Test Server") = JsError message /\
    normalize (JsError ("Channel " ++ JS.quoted "901"
                          ++ " is not a text channel or not found in server "
                          ++ JS.quoted "Test Server")) =
    JsError ("Tool execution failed: " ++ message).
Proof.
  apply (resolvers_throw_errors JS.toLowerCase_ascii Example.client None "901").
  right. left. reflexivity.
Defined.

Lemma reading_tools_never_mutate_witness :
  existsb is_mutation
    (calls (callTool JS.toLowerCase_ascii Example.inherited Example.client (@V8.sort Obj)
        Example.flags "list-roles"
              (Some (JObj [])))) = false.
Proof.
  apply (reading_tools_never_mutate JS.toLowerCase_ascii Example.inherited Example.client
      (@V8.sort Obj) Example.flags
           "list-roles" (Some (JObj []))).
  simpl. do 4 right. left. reflexivity.
Defined.

Lemma unknown_tool_refused_witness :
  callTool JS.toLowerCase_ascii Example.inherited Example.client (@V8.sort Obj)
      Example.flags "delete-channel" None =
  ([], Threw (JsError ("Tool execution failed: Unknown tool: " ++ "delete-channel"))).
Proof.
  apply (unknown_tool_refused JS.toLowerCase_ascii Example.inherited Example.client
      (@V8.sort Obj) Example.flags
           "delete-channel" None).
  simpl. intros H.
  repeat match type of H with
    | _ \/ _ => destruct H as [H|H]
    end; try discriminate H; exact H.
Defined.

Lemma declared_tools_need_arguments_witness :
  callTool JS.toLowerCase_ascii Example.inherited Example.client (@V8.sort Obj)
      Example.flags "list-servers" None =
  ([], Threw (JsError "Invalid arguments: : Required")).
Proof.
  apply (declared_tools_need_arguments JS.toLowerCase_ascii Example.inherited Example.client
      (@V8.sort Obj) Example.flags
           "list-servers").
  simpl. do 3 right. left. reflexivity.
Defined.

Lemma validatePermissions_spec_witness :
  outcome (validatePermissions Example.inherited Example.flags
             ["SendMessages"; "Fly"; "ManageMessages"]) =
    Threw (JsError ("Invalid permission name: " ++ "Fly" ++ ". Valid permissions: "
                      ++ JS.join ", " (map fst Example.flags))) /\
  exists values,
    outcome (validatePermissions Example.inherited Example.flags
               ["SendMessages"; "toString"]) = Returned values /\
    map Some values =
      map (flag_value Example.inherited Example.flags) ["SendMessages"; "toString"].
Proof.
  split.
  - apply (proj2 (proj2 (validatePermissions_spec Example.inherited Example.flags
                           ["SendMessages"; "Fly"; "ManageMessages"]))
             ["SendMessages"] "Fly" ["ManageMessages"] eq_refl).
    + intros q [<-|[]]. left. discriminate.
    + reflexivity.
    + simpl. intros H.
      repeat match type of H with
        | _ \/ _ => destruct H as [H|H]
        end; try discriminate H; exact H.
  - destruct (proj1 (proj2 (validatePermissions_spec Example.inherited Example.flags
                              ["SendMessages"; "toString"])))
      as (values & Hrun & Hvalues & _).
    + intros p [<-|[<-|[]]].
      * left. discriminate.
      * right. simpl. do 8 right. left. reflexivity.
    + exists values. split; assumption.
Defined.

Lemma role_membership_changes_are_guarded_witness :
  exists a guild member role,
    AssignRoleSchema []
      (Some (JObj [("user", JStr "401"); ("role", JStr "helper")])) = inr a /\
    outcome (findGuild JS.toLowerCase_ascii Example.client (ur_server a)) = Returned guild
        /\
    outcome (findMember JS.toLowerCase_ascii Example.client (ur_user a) (Some (g_id guild)))
        = Returned member /\
    outcome (findRole JS.toLowerCase_ascii Example.client (ur_role a) (Some (g_id guild))) =
        Returned role /\
    CRolesAdd "401" "302" = CRolesAdd (m_id member) (role_id role) /\
    ~ In (role_id role) (m_roles member).
Proof.
  apply (proj1 (role_membership_changes_are_guarded JS.toLowerCase_ascii Example.inherited
      Example.client (@V8.sort Obj)
                  Example.flags
                  (Some (JObj [("user", JStr "401"); ("role", JStr "helper")]))
                  (CRolesAdd "401" "302") eq_refl)).
  vm_compute. do 3 right. left. reflexivity.
Defined.

Lemma creations_are_guarded_witness :
  exists a guild,
    CreateChannelSchema [] (Some (JObj [("channelName", JStr "lounge")])) = inr a /\
    outcome (findGuild JS.toLowerCase_ascii Example.client (cc_server a)) = Returned guild
        /\
    CChannelsCreate "100" "lounge" = CChannelsCreate (g_id guild) (cc_channelName a) /\
    forall existing,
      In existing (g_channels guild) -> ch_type existing = GuildText ->
      JS.toLowerCase_ascii (ch_name existing) <> JS.toLowerCase_ascii (cc_channelName a).
Proof.
  apply (proj1 (creations_are_guarded JS.toLowerCase_ascii Example.inherited Example.client
      (@V8.sort Obj) Example.flags
                  (Some (JObj [("channelName", JStr "lounge")]))
                  (CChannelsCreate "100" "lounge") eq_refl)).
  vm_compute. left. reflexivity.
Defined.

Lemma only_text_channels_are_addressed_witness :
  exists a channel,
    ReadMessagesSchema [] (Some (JObj [("channel", JStr "general")])) = inr a /\
    outcome (findChannel JS.toLowerCase_ascii Example.client (rm_channel a) (rm_server a)) =
      Returned channel /\
    "201" = ch_id channel /\ 50%Q = rm_limit a /\ isTextChannel channel = true.
Proof.
  apply (proj1 (proj2 (only_text_channels_are_addressed JS.toLowerCase_ascii
                         Example.inherited Example.client (@V8.sort Obj) Example.flags
                         (Some (JObj [("channel", JStr "general")]))))
           "201" 50%Q).
  vm_compute. right. left. reflexivity.
Defined.

Lemma read_multiple_defaults_to_all_text_channels_witness :
  calls (callTool JS.toLowerCase_ascii Example.inherited Example.client (@V8.sort Obj)
      Example.flags "read-multiple-channels"
           (Some (JObj [("channels", JArr [])]))) =
  [CMessagesFetch "201" 10; CMessagesFetch "202" 10; CMessagesFetch "204" 10].
Proof.
  apply (read_multiple_defaults_to_all_text_channels JS.toLowerCase_ascii Example.inherited
      Example.client (@V8.sort Obj)
           Example.flags (Some (JObj [("channels", JArr [])]))
           {| rmc_server := None; rmc_channels := Some []; rmc_limitPerChannel := 10 |}
           Example.server [] eq_refl (or_intror eq_refl) eq_refl).
Defined.

Lemma update_role_edits_what_is_given_witness :
  exists a guild role updates,
    UpdateRoleSchema []
      (Some (JObj [("role", JStr "helper"); ("newName", JStr "Guide")])) = inr a /\
    outcome (findGuild JS.toLowerCase_ascii Example.client (ua_server a)) = Returned guild
        /\
    outcome (findRole JS.toLowerCase_ascii Example.client (ua_role a) (Some (g_id guild))) =
        Returned role /\
    CRoleEdit "302" {| up_name := Some "Guide"; up_color := None;
                       up_permissions := None; up_mentionable := None |} =
      CRoleEdit (role_id role) updates /\
    up_name updates = ua_newName a /\
    up_color updates = ua_newColor a /\
    up_mentionable updates = ua_newMentionable a /\
    match ua_newPermissions a with
    | None => up_permissions updates = None
    | Some ps => exists bs, up_permissions updates = Some bs /\
                            map Some bs = map (flag_value Example.inherited Example.flags)
                                ps
    end /\
    no_updates updates = false.
Proof.
  apply (update_role_edits_what_is_given JS.toLowerCase_ascii Example.inherited
      Example.client (@V8.sort Obj) Example.flags
           (Some (JObj [("role", JStr "helper"); ("newName", JStr "Guide")]))
           (CRoleEdit "302" {| up_name := Some "Guide"; up_color := None;
                               up_permissions := None; up_mentionable := None |})
           eq_refl).
  vm_compute. right. left. reflexivity.
Defined.

Lemma undeclared_keys_are_ignored_witness :
  callTool JS.toLowerCase_ascii Example.inherited Example.client (@V8.sort Obj)
      Example.flags "list-servers"
    (Some (JObj [("verbose", JBool true)])) =
  callTool JS.toLowerCase_ascii Example.inherited Example.client (@V8.sort Obj)
      Example.flags "list-servers" (Some (JObj [])).
Proof.
  apply (undeclared_keys_are_ignored JS.toLowerCase_ascii Example.inherited Example.client
      (@V8.sort Obj) Example.flags
           "list-servers" "verbose" (JBool true) []).
  simpl. intros H.
  repeat match type of H with
    | _ \/ _ => destruct H as [H|H]
    end; try discriminate H; exact H.
Defined.

Lemma limit_out_of_range_is_rejected_witness :
  exists issues,
    callTool JS.toLowerCase_ascii Example.inherited Example.client (@V8.sort Obj)
        Example.flags "read-messages"
      (Some (JObj [("channel", JStr "general"); ("limit", JNum 0)])) =
    ([], Threw (JsError ("Invalid arguments: " ++ JS.join ", " (map issue_string issues))))
    /\
    In (if Qle_bool 1 0 then "limit: Number must be less than or equal to 100"
        else "limit: Number must be greater than or equal to 1")
       (map issue_string issues).
Proof.
  apply (proj1 (limit_out_of_range_is_rejected JS.toLowerCase_ascii Example.inherited
      Example.client (@V8.sort Obj)
                  Example.flags
                  [("channel", JStr "general"); ("limit", JNum 0)] 0%Q)).
  - reflexivity.
  - left. reflexivity.
Defined.

Lemma reads_without_failure_come_newest_first_witness :
  exists header body,
    outcome (callTool JS.toLowerCase_ascii Example.inherited Example.client (@V8.sort Obj)
        Example.flags
               "read-multiple-channels"
               (Some (JObj [("channels", JArr [JStr "general"; JStr "news"])]))) =
      Returned (TextJson header body) /\
    Permutation body
      [formatMessage Example.general Example.old_message;
       formatMessage Example.news Example.new_message] /\
    newest_first body = true.
Proof.
  apply (reads_without_failure_come_newest_first JS.toLowerCase_ascii Example.inherited
      Example.client Example.flags
           (Some (JObj [("channels", JArr [JStr "general"; JStr "news"])]))
           {| rmc_server := None; rmc_channels := Some ["general"; "news"];
              rmc_limitPerChannel := 10 |}
           Example.server [] [Example.general; Example.news]
           eq_refl eq_refl eq_refl ltac:(discriminate)).
  - intros c [<-|[<-|[]]]; eexists; reflexivity.
  - simpl. lia.
Defined.

Lemma get_role_member_count_counts_holders_witness :
  outcome (callTool JS.toLowerCase_ascii Example.inherited Example.client (@V8.sort Obj)
      Example.flags "get-role-member-count"
             (Some (JObj [("role", JStr "Moderator")]))) =
  Returned (Text ("There are " ++ "1" ++ " members with the role "
                    ++ JS.quoted "Moderator" ++ " in server " ++ JS.quoted "Test Server"
                    ++ ".")).
Proof.
  apply (proj1 (proj2 (get_role_member_count_counts_holders JS.toLowerCase_ascii
      Example.inherited Example.client (@V8.sort Obj)
                         Example.flags (Some (JObj [("role", JStr "Moderator")]))
                         {| ra_server := None; ra_role := "Moderator" |}
                         Example.server Example.moderator [] [CGuildsFetch "100"]
                         eq_refl eq_refl eq_refl))
           [Example.alice] eq_refl).
Defined.

Lemma failures_are_of_three_kinds_witness :
  (exists issues,
     JsError "Invalid arguments: : Required" =
       JsError ("Invalid arguments: " ++ JS.join ", " (map issue_string issues)) /\
     calls (callTool JS.toLowerCase_ascii Example.inherited Example.client (@V8.sort Obj)
         Example.flags "list-roles" None) = []) \/
  (exists message,
     JsError "Invalid arguments: : Required" =
       JsError ("Tool execution failed: " ++ message)) \/
  (JsError "Invalid arguments: : Required" =
     JsError "An unknown error occurred during tool execution." /\
   calls (callTool JS.toLowerCase_ascii Example.inherited Example.client (@V8.sort Obj)
       Example.flags "list-roles" None) <> []).
Proof.
  apply (failures_are_of_three_kinds JS.toLowerCase_ascii Example.inherited Example.client
      (@V8.sort Obj) Example.flags
           "list-roles" None).
  reflexivity.
Defined.

Lemma delete_role_deletes_the_resolved_role_witness :
  exists a guild role,
    DeleteRoleSchema [] (Some (JObj [("role", JStr "302")])) = inr a /\
    outcome (findGuild JS.toLowerCase_ascii Example.client (ra_server a)) = Returned guild
        /\
    outcome (findRole JS.toLowerCase_ascii Example.client (ra_role a) (Some (g_id guild))) =
        Returned role /\
    CRoleDelete "302" = CRoleDelete (role_id role).
Proof.
  apply (delete_role_deletes_the_resolved_role JS.toLowerCase_ascii Example.inherited
      Example.client (@V8.sort Obj)
           Example.flags (Some (JObj [("role", JStr "302")])) (CRoleDelete "302") eq_refl).
  vm_compute. right. left. reflexivity.
Defined.

Lemma channel_name_matches_spec_witness :
  channel_name_matches JS.toLowerCase_ascii "#General" Example.general = true <->
  names_channel JS.toLowerCase_ascii "#General" Example.general.
Proof.
  apply (channel_name_matches_spec JS.toLowerCase_ascii "#General" Example.general).
  - intros s. reflexivity.
  - exact toLowerCase_ascii_sigil.
  - reflexivity.
Defined.
